(** * The animated notification queue and the context guards of the
      lightswind components

    A shallow embedding of
    [src/components/lightswind/animated-notification.tsx] (the record
    generator, the notification queue and its timers) and of the
    [useContext] guards of the lightswind components, with the properties
    the specification states about them; and of the open state of
    [popover.tsx] and [dropdown-menu.tsx] and the provider, trigger and
    menu button of [sidebar.tsx], with further properties of the code.

    Conventions of the embedding.
    - A JavaScript [number] that the component only compares, adds and
      hands to [setTimeout] is a [Z]; a timer handle is a [nat], and the
      host hands out handles from 1 upwards (the code tests handles for
      truthiness).
    - [Math.floor(Math.random() * n)] is a function of a drawn natural
      number; every index below [n] is the image of some draw.
    - A [setNotes] updater runs once, atomically, at the event that queued
      it; once the component is unmounted [setNotes] does nothing (that
      React may still evaluate an updater queued on the unmounted
      component is not modelled).
    - An exception raised inside a [setNotes] updater is uncaught by the
      component: the step has no successor state ([None]).
    - The props do not change over the life of the component, except for
      [notifications], whose changes are events.
    - A handler the caller may pass ([onOpenChange], [onClick], ...) is a
      boolean, whether it was passed; the calls of a change callback are
      logged in the state.  A user event is handled, and the effects it
      triggers have run, before the next event.
    - A JSON number is an integer that JavaScript prints digit by digit
      (below 2^53 in magnitude). *)

From Stdlib Require Import ZArith String Ascii List Lia.
From stdpp Require Import base option gmap list strings pretty.

#[local] Set Warnings "-register-all".
#[local] Open Scope string_scope.
#[local] Open Scope Z_scope.

(** ** JSON values as [res.json()] yields them *)

Module Json.

Inductive Json : Type :=
| JNull
| JBool (b : bool)
| JNum (z : Z)
| JStr (s : string)
| JArr (items : list Json)
| JObj (fields : list (string * Json)).

(** A JavaScript value read out of a parsed response: [None] is
    [undefined]. *)
Definition JsValue : Type := option Json.

Inductive Key : Type :=
| KName (k : string)
| KIndex (i : nat).

Definition keyString (k : Key) : string :=
  match k with
  | KName s => s
  | KIndex i => pretty i
  end.

(** Own property of an object built by [JSON.parse]: with a duplicated
    key the last member wins. *)
Fixpoint ownProperty (fields : list (string * Json)) (k : string) : JsValue :=
  match fields with
  | [] => None
  | (k', v) :: rest =>
      match ownProperty rest k with
      | Some w => Some w
      | None => if String.eqb k' k then Some v else None
      end
  end.

Definition firstChar (s : string) : JsValue :=
  match s with
  | EmptyString => None
  | String c _ => Some (JStr (String c EmptyString))
  end.

(** [v[k]] / [v.k] for the keys the component reads ([results], [0],
    [picture], [large], [name], [first], [last]); none of them is a
    property of a prototype.  The outer [None] is the [TypeError] raised
    when [v] is [undefined] or [null]. *)
Definition get (v : JsValue) (k : Key) : option JsValue :=
  match v with
  | None => None
  | Some JNull => None
  | Some (JObj fields) => Some (ownProperty fields (keyString k))
  | Some (JArr items) =>
      match k with
      | KIndex i => Some (items !! i)
      | KName _ => Some None
      end
  | Some (JStr s) =>
      match k with
      | KIndex 0 => Some (firstChar s)
      | _ => Some None
      end
  | Some (JBool _) => Some None
  | Some (JNum _) => Some None
  end.

(** [v?.k]: [undefined] when [v] is [undefined] or [null]. *)
Definition getOptional (v : JsValue) (k : Key) : JsValue :=
  match get v k with
  | Some w => w
  | None => None
  end.

Definition hasOwn (fields : list (string * Json)) (k : string) : bool :=
  match ownProperty fields k with
  | Some _ => true
  | None => false
  end.

(** The string conversion of a template literal.  A parsed object has no
    callable members: one with an own [toString] member cannot be
    converted ([None], a [TypeError]), any other is [[object Object]].
    An array is joined with commas, [null] items giving the empty
    string.  Numbers are modelled by integers. *)
Fixpoint toStringJson (j : Json) : option string :=
  match j with
  | JNull => Some "null"
  | JBool true => Some "true"
  | JBool false => Some "false"
  | JNum z => Some (pretty z)
  | JStr s => Some s
  | JArr items =>
      (fix join (l : list Json) : option string :=
         match l with
         | [] => Some ""
         | x :: rest =>
             let item := match x with
                         | JNull => Some ""
                         | _ => toStringJson x
                         end in
             match item, rest with
             | None, _ => None
             | Some s, [] => Some s
             | Some s, _ :: _ =>
                 match join rest with
                 | Some r => Some (s ++ "," ++ r)
                 | None => None
                 end
             end
         end) items
  | JObj fields =>
      if hasOwn fields "toString" then None else Some "[object Object]"
  end.

Definition toString (v : JsValue) : option string :=
  match v with
  | None => Some "undefined"
  | Some j => toStringJson j
  end.

End Json.

(** ** Notification records *)

Inductive Priority : Type := low | medium | high.

Inductive NotificationType : Type := info | success | warning | error.

Record NotificationUser : Type := {
  avatarUrl : Json.JsValue;
  name : string;
  initials : option string;
  color : option string;
}.

Record NotificationItem : Type := {
  id : string;
  user : NotificationUser;
  message : option string;
  timestamp : option string;
  priority : option Priority;
  type : option NotificationType;
  fadingOut : option bool;
}.

(** ** The generator: [fetchRandomUser], [getRandomMessage],
       [generateNotification] *)

Module Generator.

Definition defaultMessages : list string :=
  [ "Just completed a task! ‚úÖ";
    "New feature deployed üöÄ";
    "Check out our latest update üì±";
    "Server responded with 200 OK ‚ú®";
    "Background job finished üîÑ";
    "Data synced successfully! üíæ";
    "User logged in successfully üëã";
    "Payment processed üí≥";
    "Email sent successfully üìß";
    "Backup completed üõ°Ô∏è" ].

(** [Math.floor(Math.random() * n)] for the draw [r]. *)
Definition floorRandom (r n : nat) : nat :=
  match n with
  | O => O
  | S _ => (r mod n)%nat
  end.

(** [`hsl(${Math.floor(Math.random() * 360)}, 70%, 80%)`] *)
Definition randomColor (r : nat) : string :=
  "hsl(" ++ pretty (floorRandom r 360) ++ ", 70%, 80%)".

(** How the request of [fetchRandomUser] ends: [fetch] rejects,
    [res.json()] rejects, or a body is parsed. *)
Inductive FetchOutcome : Type :=
| FetchRejected
| JsonRejected
| JsonParsed (data : Json.Json).

Definition names : list string :=
  ["John Doe"; "Jane Smith"; "Alex Johnson"; "Sarah Wilson"; "Mike Brown"].

(** The body of the [try] block; [None] when it raises. *)
Definition fetchRandomUser_try (o : FetchOutcome) (rHue : nat)
  : option NotificationUser :=
  match o with
  | FetchRejected => None
  | JsonRejected => None
  | JsonParsed data =>
      results ← Json.get (Some data) (Json.KName "results");
      user ← Json.get results (Json.KIndex 0);
      picture ← Json.get user (Json.KName "picture");
      let large := Json.getOptional picture (Json.KName "large") in
      userName ← Json.get user (Json.KName "name");
      first ← Json.get userName (Json.KName "first");
      firstText ← Json.toString first;
      last ← Json.get userName (Json.KName "last");
      lastText ← Json.toString last;
      Some {| avatarUrl := large;
              name := firstText ++ " " ++ lastText;
              initials := None;
              color := Some (randomColor rHue) |}
  end.

(** The [catch] block. *)
Definition fetchRandomUser_catch (rName rHue : nat) : NotificationUser :=
  {| avatarUrl := None;
     name := default "undefined" (names !! floorRandom rName (length names));
     initials := None;
     color := Some (randomColor rHue) |}.

Definition fetchRandomUser (o : FetchOutcome) (rName rHue : nat)
  : NotificationUser :=
  match fetchRandomUser_try o rHue with
  | Some u => u
  | None => fetchRandomUser_catch rName rHue
  end.

Definition getRandomMessage (customMessages : option (list string)) (r : nat)
  : option string :=
  let messages := default defaultMessages customMessages in
  messages !! floorRandom r (length messages).

(** What one run of [generateNotification] reads from its environment:
    the outcome of the request, [uuidv4()], the clock and the random
    draws. *)
Record Draws : Type := {
  outcome : FetchOutcome;
  uuid : string;
  clock : string;
  rName : nat;
  rHue : nat;
  rMessage : nat;
  rPriority : nat;
}.

Definition priorities : list Priority := [low; medium; high].

Definition generateNotification
    (customMessages : option (list string))
    (fixedUser : option NotificationUser) (d : Draws) : NotificationItem :=
  let u := match fixedUser with
           | Some u => u
           | None => fetchRandomUser (outcome d) (rName d) (rHue d)
           end in
  {| id := uuid d;
     user := u;
     message := getRandomMessage customMessages (rMessage d);
     timestamp := Some (clock d);
     priority := priorities !! floorRandom (rPriority d) 3;
     type := None;
     fadingOut := None |}.

End Generator.

(** ** The queue, its timers and the host that runs them *)

Module Queue.

(** The props the queue logic reads.  [onNotificationDismiss] records
    whether the caller passed a dismissal callback. *)
Record Props : Type := {
  maxNotifications : Z;
  autoInterval : Z;
  autoGenerate : bool;
  customMessages : option (list string);
  animationDuration : Z;
  onNotificationDismiss : bool;
  autoDismissTimeout : Z;
  fixedUser : option NotificationUser;
}.

Definition defaultProps : Props :=
  {| maxNotifications := 3;
     autoInterval := 3500;
     autoGenerate := true;
     customMessages := None;
     animationDuration := 800;
     onNotificationDismiss := true;
     autoDismissTimeout := 3000;
     fixedUser := None |}.

(** The closures the component hands to [window.setTimeout] and
    [window.setInterval]. *)
Inductive Callback : Type :=
| AutoDismiss (noteId : string)
    (* () => dismissNotification(id, true) *)
| RemoveDismissed (note : NotificationItem)
    (* the removal scheduled by dismissNotification *)
| RemoveEvicted (oldest : NotificationItem)
    (* the removal scheduled by the eviction branch of addGeneratedNote *)
| RemoveManual (note : NotificationItem)
    (* the removal scheduled by handleManualDismiss *)
| FirstGenerate
    (* () => void addGeneratedNote(), after 900 ms *)
| IntervalTick.
    (* () => { void addGeneratedNote(); }, every autoInterval *)

Record Timer : Type := {
  due : Z;
  callback : Callback;
}.

Record State : Type := {
  (* component state and refs *)
  notes : list NotificationItem;
  dismissTimeouts : gmap string nat;
  intervalRef : option nat;
  firstTimeout : option nat;
  isGenerating : bool;
  mounted : bool;
  (* the host: pending timers, the next handle, the clock, the
     generateNotification promises not yet settled *)
  timers : gmap nat Timer;
  nextHandle : nat;
  now : Z;
  pendingGenerations : nat;
  (* the calls of the caller's onNotificationDismiss, oldest first *)
  dismissLog : list NotificationItem;
}.

Definition set_notes (v : list NotificationItem) (s : State) : State :=
  {| notes := v; dismissTimeouts := dismissTimeouts s;
     intervalRef := intervalRef s; firstTimeout := firstTimeout s;
     isGenerating := isGenerating s; mounted := mounted s;
     timers := timers s; nextHandle := nextHandle s; now := now s;
     pendingGenerations := pendingGenerations s;
     dismissLog := dismissLog s |}.

Definition set_dismissTimeouts (v : gmap string nat) (s : State) : State :=
  {| notes := notes s; dismissTimeouts := v;
     intervalRef := intervalRef s; firstTimeout := firstTimeout s;
     isGenerating := isGenerating s; mounted := mounted s;
     timers := timers s; nextHandle := nextHandle s; now := now s;
     pendingGenerations := pendingGenerations s;
     dismissLog := dismissLog s |}.

Definition set_intervalRef (v : option nat) (s : State) : State :=
  {| notes := notes s; dismissTimeouts := dismissTimeouts s;
     intervalRef := v; firstTimeout := firstTimeout s;
     isGenerating := isGenerating s; mounted := mounted s;
     timers := timers s; nextHandle := nextHandle s; now := now s;
     pendingGenerations := pendingGenerations s;
     dismissLog := dismissLog s |}.

Definition set_firstTimeout (v : option nat) (s : State) : State :=
  {| notes := notes s; dismissTimeouts := dismissTimeouts s;
     intervalRef := intervalRef s; firstTimeout := v;
     isGenerating := isGenerating s; mounted := mounted s;
     timers := timers s; nextHandle := nextHandle s; now := now s;
     pendingGenerations := pendingGenerations s;
     dismissLog := dismissLog s |}.

Definition set_generating (g : bool) (pending : nat) (s : State) : State :=
  {| notes := notes s; dismissTimeouts := dismissTimeouts s;
     intervalRef := intervalRef s; firstTimeout := firstTimeout s;
     isGenerating := g; mounted := mounted s;
     timers := timers s; nextHandle := nextHandle s; now := now s;
     pendingGenerations := pending;
     dismissLog := dismissLog s |}.

Definition set_mounted (v : bool) (s : State) : State :=
  {| notes := notes s; dismissTimeouts := dismissTimeouts s;
     intervalRef := intervalRef s; firstTimeout := firstTimeout s;
     isGenerating := isGenerating s; mounted := v;
     timers := timers s; nextHandle := nextHandle s; now := now s;
     pendingGenerations := pendingGenerations s;
     dismissLog := dismissLog s |}.

Definition set_timers (v : gmap nat Timer) (s : State) : State :=
  {| notes := notes s; dismissTimeouts := dismissTimeouts s;
     intervalRef := intervalRef s; firstTimeout := firstTimeout s;
     isGenerating := isGenerating s; mounted := mounted s;
     timers := v; nextHandle := nextHandle s; now := now s;
     pendingGenerations := pendingGenerations s;
     dismissLog := dismissLog s |}.

Definition set_nextHandle (v : nat) (s : State) : State :=
  {| notes := notes s; dismissTimeouts := dismissTimeouts s;
     intervalRef := intervalRef s; firstTimeout := firstTimeout s;
     isGenerating := isGenerating s; mounted := mounted s;
     timers := timers s; nextHandle := v; now := now s;
     pendingGenerations := pendingGenerations s;
     dismissLog := dismissLog s |}.

Definition set_now (v : Z) (s : State) : State :=
  {| notes := notes s; dismissTimeouts := dismissTimeouts s;
     intervalRef := intervalRef s; firstTimeout := firstTimeout s;
     isGenerating := isGenerating s; mounted := mounted s;
     timers := timers s; nextHandle := nextHandle s; now := v;
     pendingGenerations := pendingGenerations s;
     dismissLog := dismissLog s |}.

Definition set_dismissLog (v : list NotificationItem) (s : State) : State :=
  {| notes := notes s; dismissTimeouts := dismissTimeouts s;
     intervalRef := intervalRef s; firstTimeout := firstTimeout s;
     isGenerating := isGenerating s; mounted := mounted s;
     timers := timers s; nextHandle := nextHandle s; now := now s;
     pendingGenerations := pendingGenerations s;
     dismissLog := v |}.

(** *** Records *)

(** [n.fadingOut] as a condition: [undefined] and [false] are falsy. *)
Definition isFading (n : NotificationItem) : bool :=
  match fadingOut n with
  | Some true => true
  | _ => false
  end.

(** [{ ...n, fadingOut: true }] *)
Definition markFading (n : NotificationItem) : NotificationItem :=
  {| id := id n; user := user n; message := message n;
     timestamp := timestamp n; priority := priority n; type := type n;
     fadingOut := Some true |}.

(** [(n) => (n.id === i ? { ...n, fadingOut: true } : n)] *)
Definition markId (i : string) (n : NotificationItem) : NotificationItem :=
  if String.eqb (id n) i then markFading n else n.

(** [(n) => n.id !== i] *)
Definition otherThan (i : string) (n : NotificationItem) : bool :=
  negb (String.eqb (id n) i).

(** [prev.filter((n) => !n.fadingOut)] *)
Definition nonFading (l : list NotificationItem) : list NotificationItem :=
  List.filter (fun n => negb (isFading n)) l.

(** *** The host's timer functions *)

(** A negative delay is a delay of 0. *)
Definition window_setTimeout (cb : Callback) (delay : Z) (s : State)
  : nat * State :=
  let h := nextHandle s in
  (h,
   set_nextHandle (S h)
     (set_timers
        (<[h := {| due := now s + Z.max 0 delay; callback := cb |}]> (timers s))
        s)).

Definition window_setInterval (delay : Z) (s : State) : nat * State :=
  window_setTimeout IntervalTick delay s.

(** [clearTimeout] and [clearInterval] share the table of handles. *)
Definition window_clearTimeout (h : nat) (s : State) : State :=
  set_timers (delete h (timers s)) s.

(** [if (t)] on a handle *)
Definition truthy (t : nat) : bool := negb (Nat.eqb t 0).

(** *** The component's functions *)

Definition clearNoteTimeout (i : string) (s : State) : State :=
  match dismissTimeouts s !! i with
  | Some t =>
      if truthy t
      then set_dismissTimeouts (delete i (dismissTimeouts s))
             (window_clearTimeout t s)
      else s
  | None => s
  end.

(** [onNotificationDismiss?.(note)] *)
Definition call_onNotificationDismiss (p : Props) (note : NotificationItem)
    (s : State) : State :=
  if onNotificationDismiss p
  then set_dismissLog (dismissLog s ++ [note])%list s
  else s.

(** [dismissNotification(i, _)]: all of it happens inside the [setNotes]
    updater. *)
Definition dismissNotification (p : Props) (i : string) (s : State) : State :=
  if mounted s then
    match List.find (fun n => String.eqb (id n) i) (notes s) with
    | None => s
    | Some note =>
        if isFading note then s
        else
          let updated := map (markId i) (notes s) in
          let s1 := clearNoteTimeout i s in
          let s2 := snd (window_setTimeout (RemoveDismissed note)
                           (animationDuration p) s1) in
          set_notes updated s2
    end
  else s.

(** The timeout of [dismissNotification]: the callback is called inside
    the updater. *)
Definition removeDismissed (p : Props) (note : NotificationItem) (s : State)
  : State :=
  if mounted s then
    let remaining := List.filter (otherThan (id note)) (notes s) in
    set_notes remaining (call_onNotificationDismiss p note s)
  else s.

(** [const timeoutId = window.setTimeout(() => dismissNotification(i, true),
    autoDismissTimeout); dismissTimeouts.current.set(i, timeoutId)], under
    [if (autoDismissTimeout > 0)]. *)
Definition scheduleAutoDismiss (p : Props) (i : string) (s : State) : State :=
  if 0 <? autoDismissTimeout p then
    let '(h, s1) := window_setTimeout (AutoDismiss i) (autoDismissTimeout p) s in
    set_dismissTimeouts (<[i := h]> (dismissTimeouts s1)) s1
  else s.

(** The updater of [addGeneratedNote].  With no record that is not
    fading and [maxNotifications <= 0], [oldest] is [undefined] and
    reading [oldest.id] raises. *)
Definition insertGenerated (p : Props) (newNote : NotificationItem)
    (s : State) : option State :=
  let prev := notes s in
  if maxNotifications p <=? Z.of_nat (length (nonFading prev)) then
    match nonFading prev with
    | [] => None
    | oldest :: _ =>
        let locallyUpdated := map (markId (id oldest)) prev in
        let s1 := snd (window_setTimeout (RemoveEvicted oldest)
                         (animationDuration p) s) in
        let s2 := match dismissTimeouts s1 !! id oldest with
                  | Some t =>
                      if truthy t
                      then set_dismissTimeouts
                             (delete (id oldest) (dismissTimeouts s1))
                             (window_clearTimeout t s1)
                      else s1
                  | None => s1
                  end in
        let appended := (locallyUpdated ++ [newNote])%list in
        Some (set_notes appended (scheduleAutoDismiss p (id newNote) s2))
    end
  else
    let appended := (prev ++ [newNote])%list in
    Some (set_notes appended (scheduleAutoDismiss p (id newNote) s)).

(** The timeout of the eviction branch: only the filter is a [setNotes]
    updater. *)
Definition removeEvicted (p : Props) (oldest : NotificationItem) (s : State)
  : State :=
  let s1 := if mounted s
            then set_notes (List.filter (otherThan (id oldest)) (notes s)) s
            else s in
  call_onNotificationDismiss p oldest (clearNoteTimeout (id oldest) s1).

(** [addGeneratedNote] up to its [await]. *)
Definition addGeneratedNote_start (p : Props) (s : State) : State :=
  if negb (autoGenerate p) then s
  else if isGenerating s then s
  else set_generating true (S (pendingGenerations s)) s.

(** [addGeneratedNote] from the [await] on, when [generateNotification]
    fulfils with [newNote]: [setNotes], then the [finally] block. *)
Definition addGeneratedNote_resume (p : Props) (newNote : NotificationItem)
    (s : State) : option State :=
  match pendingGenerations s with
  | O => Some s
  | S k =>
      let s0 := set_generating false k s in
      if mounted s then insertGenerated p newNote s0 else Some s0
  end.

(** ... and when it rejects: only the [finally] block runs. *)
Definition addGeneratedNote_rejected (s : State) : State :=
  match pendingGenerations s with
  | O => s
  | S k => set_generating false k s
  end.

Definition handleManualDismiss (p : Props) (note : NotificationItem)
    (s : State) : State :=
  let s1 := clearNoteTimeout (id note) s in
  let s2 := if mounted s1
            then set_notes (map (markId (id note)) (notes s1)) s1
            else s1 in
  snd (window_setTimeout (RemoveManual note) (animationDuration p) s2).

(** The timeout of [handleManualDismiss]. *)
Definition removeManual (p : Props) (note : NotificationItem) (s : State)
  : State :=
  if mounted s then
    let filtered := List.filter (otherThan (id note)) (notes s) in
    set_notes filtered (call_onNotificationDismiss p note s)
  else s.

(** [dismissTimeouts.current.forEach((t) => window.clearTimeout(t));
    dismissTimeouts.current.clear()] *)
Definition clearAllNoteTimeouts (s : State) : State :=
  let handles := map snd (map_to_list (dismissTimeouts s)) in
  set_dismissTimeouts ∅
    (fold_left (fun acc t => window_clearTimeout t acc) handles s).

(** The effect on [notifications]. *)
Definition syncNotifications (p : Props) (notifications : list NotificationItem)
    (s : State) : State :=
  match notifications with
  | [] => s
  | _ :: _ =>
      let s1 := clearAllNoteTimeouts s in
      let s2 := set_notes notifications s1 in
      if 0 <? autoDismissTimeout p then
        fold_left
          (fun acc n =>
             let '(h, acc1) := window_setTimeout (AutoDismiss (id n))
                                 (autoDismissTimeout p) acc in
             set_dismissTimeouts (<[id n := h]> (dismissTimeouts acc1)) acc1)
          notifications s2
      else s2
  end.

(** The effect that starts the generator. *)
Definition startGenerator (p : Props) (s : State) : State :=
  if autoGenerate p then
    let '(h, s1) := window_setInterval (autoInterval p) s in
    let s2 := set_intervalRef (Some h) s1 in
    let '(first, s3) := window_setTimeout FirstGenerate 900 s2 in
    set_firstTimeout (Some first) s3
  else
    match intervalRef s with
    | Some h =>
        if truthy h
        then set_intervalRef None (window_clearTimeout h s)
        else s
    | None => s
    end.

(** ... and its cleanup. *)
Definition stopGenerator (p : Props) (s : State) : State :=
  if autoGenerate p then
    let s1 := match intervalRef s with
              | Some h =>
                  if truthy h
                  then set_intervalRef None (window_clearTimeout h s)
                  else s
              | None => s
              end in
    match firstTimeout s1 with
    | Some first => window_clearTimeout first s1
    | None => s1
    end
  else s.

(** The cleanup of the last effect. *)
Definition cleanupTimers (s : State) : State :=
  let s1 := match intervalRef s with
            | Some h => if truthy h then window_clearTimeout h s else s
            | None => s
            end in
  clearAllNoteTimeouts s1.

(** The first render with the [notifications] prop, and the effects in
    the order of their declaration. *)
Definition mount (p : Props) (notifications : list NotificationItem) : State :=
  let s0 := {| notes := notifications; dismissTimeouts := ∅;
               intervalRef := None; firstTimeout := None;
               isGenerating := false; mounted := true;
               timers := ∅; nextHandle := 1%nat; now := 0;
               pendingGenerations := O; dismissLog := [] |} in
  syncNotifications p notifications (startGenerator p s0).

Definition unmount (p : Props) (s : State) : State :=
  set_mounted false (cleanupTimers (stopGenerator p s)).

(** *** The host's event loop *)

Definition runCallback (p : Props) (cb : Callback) (s : State) : State :=
  match cb with
  | AutoDismiss i => dismissNotification p i s
  | RemoveDismissed note => removeDismissed p note s
  | RemoveEvicted oldest => removeEvicted p oldest s
  | RemoveManual note => removeManual p note s
  | FirstGenerate => addGeneratedNote_start p s
  | IntervalTick => addGeneratedNote_start p s
  end.

(** The host runs the timer [h] if it is pending and due; a timeout
    leaves the table, an interval is armed again. *)
Definition fire (p : Props) (h : nat) (s : State) : State :=
  match timers s !! h with
  | None => s
  | Some t =>
      if due t <=? now s then
        let table :=
          match callback t with
          | IntervalTick =>
              <[h := {| due := now s + Z.max 0 (autoInterval p);
                        callback := IntervalTick |}]> (timers s)
          | _ => delete h (timers s)
          end in
        runCallback p (callback t) (set_timers table s)
      else s
  end.

Inductive Event : Type :=
| Elapse (dt : Z)
    (* time passes *)
| Fire (h : nat)
    (* the host runs a due timer *)
| Fulfil (d : Generator.Draws)
    (* the pending generateNotification fulfils *)
| Reject
    (* the pending generateNotification rejects *)
| ClickDismiss (i : nat)
    (* a click on the dismiss button of the i-th rendered record *)
| Supply (notifications : list NotificationItem)
    (* the parent passes another notifications array *)
| Unmount.

Definition step (p : Props) (s : State) (e : Event) : option State :=
  match e with
  | Elapse dt => Some (set_now (now s + Z.max 0 dt) s)
  | Fire h => Some (fire p h s)
  | Fulfil d =>
      addGeneratedNote_resume p
        (Generator.generateNotification (customMessages p) (fixedUser p) d) s
  | Reject => Some (addGeneratedNote_rejected s)
  | ClickDismiss i =>
      if mounted s then
        match notes s !! i with
        | Some note => Some (handleManualDismiss p note s)
        | None => Some s
        end
      else Some s
  | Supply notifications =>
      if mounted s then Some (syncNotifications p notifications s) else Some s
  | Unmount => if mounted s then Some (unmount p s) else Some s
  end.

Fixpoint run (p : Props) (s : State) (es : list Event) : option State :=
  match es with
  | [] => Some s
  | e :: rest =>
      match step p s e with
      | Some s' => run p s' rest
      | None => None
      end
  end.

(** The number of records that are not fading out. *)
Definition activeCount (s : State) : nat := length (nonFading (notes s)).

(** How often the caller's callback was called for the identifier [i]. *)
Definition dismissCalls (i : string) (s : State) : nat :=
  length (List.filter (fun n => String.eqb (id n) i) (dismissLog s)).

End Queue.

(** ** The context guards of the lightswind components *)

Module Context.

Inductive Thrown : Type :=
| Error (message : string).

(** What a render function or hook does: it throws, or it returns. *)
Inductive Rendered (V : Type) : Type :=
| Throws (e : Thrown)
| Returns (v : V).
Arguments Throws {V} e.
Arguments Returns {V} v.

Definition throws {V : Type} (r : Rendered V) : Prop :=
  match r with
  | Throws _ => True
  | Returns _ => False
  end.

(** [React.useContext(C)] for a context created with
    [createContext(undefined)]: the value of the nearest provider,
    [undefined] ([None]) outside one. *)
Definition useContext {C : Type} (provider : option C) : option C := provider.

(** [if (!context) throw new Error(message)], then the rest of the
    function with the context value. *)
Definition guarded {C V : Type} (provider : option C) (message : string)
    (rest : C -> Rendered V) : Rendered V :=
  match useContext provider with
  | None => Throws (Error message)
  | Some context => rest context
  end.

Inductive ReactNode : Type :=
| Element (tag : string)
| Text (s : string)
| Nothing
| Nodes (items : list ReactNode).

Definition isValidElement (n : ReactNode) : bool :=
  match n with
  | Element _ => true
  | _ => false
  end.

(** [React.Children.only(children)] *)
Definition Children_only (children : ReactNode) : Rendered ReactNode :=
  if isValidElement children then Returns children
  else Throws (Error "React.Children.only expected to receive a single React element child.").

(** What a trigger renders: the cloned child, or its own element around
    the children. *)
Inductive TriggerView : Type :=
| Cloned (child : ReactNode)
| Wrapped (children : ReactNode).

Definition asChildOnly (asChild : bool) (children : ReactNode)
  : Rendered TriggerView :=
  if asChild then
    match Children_only children with
    | Throws e => Throws e
    | Returns child => Returns (Cloned child)
    end
  else Returns (Wrapped children).

Section Consumers.
Context {C V : Type}.
(** The part of a render function after its guard, for the functions
    whose remainder calls nothing that throws. *)
Variable rest : C -> V.

(* sidebar.tsx *)
Definition useSidebar (provider : option C) : Rendered C :=
  guarded provider "useSidebar must be used within a SidebarProvider"
    Returns.

Definition SidebarMenuButton (provider : option C) (asChild : bool)
    (children : ReactNode) : Rendered TriggerView :=
  match useSidebar provider with
  | Throws e => Throws e
  | Returns _ => asChildOnly asChild children
  end.

(* drawer.tsx *)
Definition useDrawerContext (provider : option C) : Rendered C :=
  guarded provider "useDrawerContext must be used within a Drawer" Returns.

(* the menubar *)
Definition useMenubarContext (provider : option C) : Rendered C :=
  guarded provider "useMenubarContext must be used within a MenubarProvider"
    Returns.

(* dropdown-menu.tsx *)
Definition DropdownMenuTrigger (provider : option C) (asChild : bool)
    (children : ReactNode) : Rendered TriggerView :=
  guarded provider "DropdownMenuTrigger must be used within a DropdownMenu"
    (fun _ => asChildOnly asChild children).

Definition DropdownMenuContent (provider : option C) : Rendered V :=
  guarded provider "DropdownMenuContent must be used within a DropdownMenu"
    (fun context => Returns (rest context)).

Definition DropdownMenuItem (provider : option C) : Rendered V :=
  guarded provider "DropdownMenuItem must be used within a DropdownMenu"
    (fun context => Returns (rest context)).

(* collapsible.tsx *)
Definition CollapsibleTrigger (provider : option C) : Rendered V :=
  guarded provider "CollapsibleTrigger must be used within a Collapsible"
    (fun context => Returns (rest context)).

Definition CollapsibleContent (provider : option C) : Rendered V :=
  guarded provider "CollapsibleContent must be used within a Collapsible"
    (fun context => Returns (rest context)).

(* popover.tsx *)
Definition PopoverTrigger (provider : option C) : Rendered V :=
  guarded provider "PopoverTrigger must be used within a Popover"
    (fun context => Returns (rest context)).

Definition PopoverContent (provider : option C) : Rendered V :=
  guarded provider "PopoverContent must be used within a Popover"
    (fun context => Returns (rest context)).

(* the tooltip *)
Definition TooltipTrigger (provider : option C) : Rendered V :=
  guarded provider "TooltipTrigger must be used within a Tooltip"
    (fun context => Returns (rest context)).

Definition TooltipContentDisplay (provider : option C) : Rendered V :=
  guarded provider "TooltipContentDisplay must be used within a Tooltip"
    (fun context => Returns (rest context)).
End Consumers.

Section Accordion.
Context {C I V : Type}.
Variable rest : C -> I -> V.

(* the accordion: two contexts, two guards *)
Definition AccordionTrigger (provider : option C) (itemProvider : option I)
  : Rendered V :=
  guarded provider "AccordionTrigger must be used within an Accordion"
    (fun context =>
       guarded itemProvider
         "AccordionTrigger must be used within an AccordionItem"
         (fun itemContext => Returns (rest context itemContext))).

Definition AccordionContent (provider : option C) (itemProvider : option I)
  : Rendered V :=
  guarded provider "AccordionContent must be used within an Accordion"
    (fun context =>
       guarded itemProvider
         "AccordionContent must be used within an AccordionItem"
         (fun itemContext => Returns (rest context itemContext))).
End Accordion.

End Context.

(** ** The open state of the popover ([popover.tsx]) *)

Module Popover.

(** The props of [Popover] that its logic reads; [onOpenChange] records
    whether the caller passed the callback. *)
Record Props : Type := {
  defaultOpen : bool;
  open : option bool;
  onOpenChange : bool;
  closeOnOutsideClick : bool;
}.

Record State : Type := {
  uncontrolledOpen : bool;
  (* the calls of onOpenChange, oldest first *)
  reported : list bool;
}.

(** [React.useState(defaultOpen)] *)
Definition mount (p : Props) : State :=
  {| uncontrolledOpen := defaultOpen p; reported := [] |}.

(** [controlledOpen !== undefined] *)
Definition isControlled (p : Props) : bool :=
  match open p with
  | Some _ => true
  | None => false
  end.

(** [isControlled ? controlledOpen : uncontrolledOpen] *)
Definition isOpen (p : Props) (s : State) : bool :=
  match open p with
  | Some b => b
  | None => uncontrolledOpen s
  end.

(** [boolean | ((prev: boolean) => boolean)] *)
Inductive SetStateAction : Type :=
| Value (b : bool)
| Updater (f : bool -> bool).

Definition setOpen (p : Props) (value : SetStateAction) (s : State) : State :=
  let s1 :=
    if isControlled p then s
    else {| uncontrolledOpen := match value with
                                | Value b => b
                                | Updater f => f (uncontrolledOpen s)
                                end;
            reported := reported s |} in
  if onOpenChange p then
    let newValue := match value with
                    | Updater f => f (isOpen p s)
                    | Value b => b
                    end in
    {| uncontrolledOpen := uncontrolledOpen s1;
       reported := (reported s1 ++ [newValue])%list |}
  else s1.

Inductive Event : Type :=
| TriggerClick
    (* PopoverTrigger's handleClick: setOpen(!open) *)
| BackdropClick
    (* the backdrop of PopoverContent: setOpen(false) *)
| CloseClick
    (* the close button of PopoverContent: setOpen(false) *)
| MouseDown (inside : bool).
    (* a mousedown in the document, inside a popover content or not *)

(** The document listener is installed while the popover is open and
    [closeOnOutsideClick] is set.  The backdrop and the close button stay
    in the document while the exit animation runs, so they are not tied
    to the open state here. *)
Definition step (p : Props) (s : State) (e : Event) : State :=
  match e with
  | TriggerClick => setOpen p (Value (negb (isOpen p s))) s
  | BackdropClick => setOpen p (Value false) s
  | CloseClick => setOpen p (Value false) s
  | MouseDown inside =>
      if negb (isOpen p s) || negb (closeOnOutsideClick p) then s
      else if negb inside then setOpen p (Value false) s else s
  end.

Definition run (p : Props) (s : State) (es : list Event) : State :=
  fold_left (step p) es s.

End Popover.

(** ** The open state of the dropdown menu ([dropdown-menu.tsx]) *)

Module Dropdown.

(** The open state of the menu and the hover timers that set it.  The
    positioning of the content (its effect, with a zero-delay timeout and
    an animation frame of its own, and the states [position] and
    [positioned]) never calls [setOpen] and is left out.

    The props of [DropdownMenu], and of its content whether the caller
    passed pointer handlers of its own (the content spreads its props
    after its own handlers).  The props keep their values; a render in
    which the parent passes a new function as [onOpenChange] is the event
    [Rerender]. *)
Record Props : Type := {
  defaultOpen : bool;
  open : option bool;
  onOpenChange : bool;
  hoverMode : bool;
  contentOnMouseEnter : bool;
  contentOnMouseLeave : bool;
}.

Record Timer : Type := {
  due : Z;
  opens : bool;   (* () => setOpen(opens) *)
}.

Record State : Type := {
  uncontrolledOpen : bool;
  timeoutRef : option nat;
  (* the pending timeouts whose callback calls setOpen *)
  timers : gmap nat Timer;
  nextHandle : nat;
  now : Z;
  mounted : bool;
  (* the calls of onOpenChange, oldest first *)
  reported : list bool;
}.

Definition isControlled (p : Props) : bool :=
  match open p with
  | Some _ => true
  | None => false
  end.

(** The [open] of the context value. *)
Definition isOpen (p : Props) (s : State) : bool :=
  match open p with
  | Some b => b
  | None => uncontrolledOpen s
  end.

Inductive SetStateAction : Type :=
| Value (b : bool)
| Updater (f : bool -> bool).

Definition apply (value : SetStateAction) (prev : bool) : bool :=
  match value with
  | Value b => b
  | Updater f => f prev
  end.

Definition report (b : bool) (s : State) : State :=
  {| uncontrolledOpen := uncontrolledOpen s; timeoutRef := timeoutRef s;
     timers := timers s; nextHandle := nextHandle s; now := now s;
     mounted := mounted s; reported := (reported s ++ [b])%list |}.

Definition set_uncontrolledOpen (b : bool) (s : State) : State :=
  {| uncontrolledOpen := b; timeoutRef := timeoutRef s;
     timers := timers s; nextHandle := nextHandle s; now := now s;
     mounted := mounted s; reported := reported s |}.

Definition set_timers (tm : gmap nat Timer) (s : State) : State :=
  {| uncontrolledOpen := uncontrolledOpen s; timeoutRef := timeoutRef s;
     timers := tm; nextHandle := nextHandle s; now := now s;
     mounted := mounted s; reported := reported s |}.

(** The first render and the effect that notifies the parent. *)
Definition mount (p : Props) : State :=
  let s := {| uncontrolledOpen := defaultOpen p; timeoutRef := None;
              timers := ∅; nextHandle := 1%nat; now := 0; mounted := true;
              reported := [] |} in
  if negb (isControlled p) && onOpenChange p
  then report (defaultOpen p) s
  else s.

(** [setOpen], with the notifying effect that runs after the render when
    [uncontrolledOpen] has changed (the effect's other dependency that
    may change, [onOpenChange], is the matter of [Rerender]).  A state
    update after the unmount is ignored. *)
Definition setOpen (p : Props) (value : SetStateAction) (s : State) : State :=
  match open p with
  | None =>
      if mounted s then
        let next := apply value (uncontrolledOpen s) in
        let s1 := set_uncontrolledOpen next s in
        if negb (Bool.eqb next (uncontrolledOpen s)) && onOpenChange p
        then report next s1
        else s1
      else s
  | Some controlledOpen =>
      if onOpenChange p then report (apply value controlledOpen) s else s
  end.

(** [if (timeoutRef.current) clearTimeout(timeoutRef.current)] *)
Definition clearPending (s : State) : State :=
  match timeoutRef s with
  | Some h =>
      if negb (Nat.eqb h 0) then set_timers (delete h (timers s)) s else s
  | None => s
  end.

(** [timeoutRef.current = setTimeout(() => setOpen(b), delay)] *)
Definition schedule (b : bool) (delay : Z) (s : State) : State :=
  {| uncontrolledOpen := uncontrolledOpen s;
     timeoutRef := Some (nextHandle s);
     timers := <[nextHandle s := {| due := now s + delay; opens := b |}]>
                 (timers s);
     nextHandle := S (nextHandle s); now := now s; mounted := mounted s;
     reported := reported s |}.

Inductive Target : Type := InMenu | InTrigger | Elsewhere.

Inductive Event : Type :=
| Elapse (dt : Z)
| Fire (h : nat)
| TriggerClick
| TriggerEnter
| ContentEnter
| ContentLeave
| ItemClick (disabled : bool) (ownOnClick : bool)
    (* a click on a DropdownMenuItem, disabled or not, given an onClick of
       its own or not *)
| MouseDown (target : Target)
| Rerender
    (* the parent renders again and passes a new function as
       onOpenChange *)
| Unmount.

(** An event of the user interface, which reaches the component only
    while it is mounted. *)
Definition interact (p : Props) (s : State) (e : Event) : State :=
  match e with
  | TriggerClick =>
      (* handleClick *)
      if hoverMode p then setOpen p (Value true) (clearPending s)
      else setOpen p (Updater negb) s
  | TriggerEnter =>
      (* handleMouseEnter *)
      if hoverMode p then schedule true 150 (clearPending s) else s
  | ContentEnter =>
      (* the content's onMouseEnter unless the props bring one *)
      if contentOnMouseEnter p then s
      else if hoverMode p then clearPending s else s
  | ContentLeave =>
      (* the content's onMouseLeave unless the props bring one *)
      if contentOnMouseLeave p then s
      else if hoverMode p then schedule false 200 s else s
  | ItemClick disabled ownOnClick =>
      (* the item's onClick is handleClick unless the props bring one *)
      if ownOnClick then s
      else if disabled then s
      else setOpen p (Value false) s
  | MouseDown target =>
      (* the listener of the content, installed while open; Elsewhere is
         a target outside the menu and the trigger, both refs being set *)
      if isOpen p s then
        match target with
        | Elsewhere => setOpen p (Value false) s
        | _ => s
        end
      else s
  | _ => s
  end.

Definition step (p : Props) (s : State) (e : Event) : State :=
  match e with
  | Elapse dt =>
      {| uncontrolledOpen := uncontrolledOpen s; timeoutRef := timeoutRef s;
         timers := timers s; nextHandle := nextHandle s;
         now := now s + Z.max 0 dt; mounted := mounted s;
         reported := reported s |}
  | Fire h =>
      match timers s !! h with
      | Some t =>
          if due t <=? now s
          then setOpen p (Value (opens t)) (set_timers (delete h (timers s)) s)
          else s
      | None => s
      end
  | Rerender =>
      (* the notifying effect runs again: onOpenChange is one of its
         dependencies *)
      if mounted s && negb (isControlled p) && onOpenChange p
      then report (uncontrolledOpen s) s
      else s
  | Unmount =>
      if mounted s then
        let s1 := clearPending s in
        {| uncontrolledOpen := uncontrolledOpen s1;
           timeoutRef := timeoutRef s1; timers := timers s1;
           nextHandle := nextHandle s1; now := now s1; mounted := false;
           reported := reported s1 |}
      else s
  | _ => if mounted s then interact p s e else s
  end.

Definition run (p : Props) (s : State) (es : list Event) : State :=
  fold_left (step p) es s.

End Dropdown.

(** ** The sidebar ([sidebar.tsx]) *)

Module Sidebar.

(** [s.split(sep)] for a separator of one character. *)
Fixpoint split (sep : ascii) (s : string) : list string :=
  match s with
  | EmptyString => [EmptyString]
  | String c rest =>
      if Ascii.eqb c sep then EmptyString :: split sep rest
      else match split sep rest with
           | [] => [String c EmptyString]
           | segment :: segments => String c segment :: segments
           end
  end.

(** [segments.join(sep)] *)
Fixpoint join (sep : ascii) (segments : list string) : string :=
  match segments with
  | [] => EmptyString
  | [segment] => segment
  | segment :: rest => segment ++ String sep (join sep rest)
  end.

(** A string as a condition: the empty string is falsy. *)
Definition truthy (s : string) : bool :=
  match s with
  | EmptyString => false
  | String _ _ => true
  end.

(** The item the provider's effect reads from the URL: the value of the
    search parameter [component] when there is one ([component] is the
    result of [searchParams.get]), else the last segment of the path that
    is not empty, else [null]. *)
Definition activeFromUrl (component : option string) (pathname : string)
  : option string :=
  match component with
  | Some v => Some v
  | None =>
      let pathSegments := List.filter truthy (split "/" pathname) in
      last pathSegments
  end.

Record ProviderProps : Type := {
  defaultExpanded : bool;
  expanded : option bool;
  onExpandedChange : bool;
}.

Record State : Type := {
  expandedState : bool;
  activeMenuItem : option string;
  (* the calls of onExpandedChange, oldest first *)
  reported : list bool;
}.

(** The first render; the effect then sets the active item. *)
Definition mount (p : ProviderProps) (component : option string)
    (pathname : string) : State :=
  {| expandedState := defaultExpanded p;
     activeMenuItem := activeFromUrl component pathname;
     reported := [] |}.

(** [actualExpanded] *)
Definition isExpanded (p : ProviderProps) (s : State) : bool :=
  match expanded p with
  | Some b => b
  | None => expandedState s
  end.

Definition setExpanded (p : ProviderProps) (value : bool) (s : State) : State :=
  let s1 := match expanded p with
            | Some _ => s
            | None => {| expandedState := value;
                         activeMenuItem := activeMenuItem s;
                         reported := reported s |}
            end in
  if onExpandedChange p
  then {| expandedState := expandedState s1;
          activeMenuItem := activeMenuItem s1;
          reported := (reported s1 ++ [value])%list |}
  else s1.

(** A click on [SidebarTrigger]: [onClick={() => setExpanded(!expanded)}],
    followed by the spread of the props, so that a handler of the caller
    replaces it. *)
Definition triggerClick (p : ProviderProps) (ownOnClick : bool) (s : State)
  : State :=
  if ownOnClick then s else setExpanded p (negb (isExpanded p s)) s.

(** The props of a [SidebarMenuButton]; [onClick] records whether the
    caller passed a handler. *)
Record ButtonProps : Type := {
  value : option string;
  isActive : option bool;
  asChild : bool;
  onClick : bool;
}.

(** [propIsActive ?? (activeMenuItem === value)] *)
Definition buttonIsActive (s : State) (b : ButtonProps) : bool :=
  match isActive b with
  | Some v => v
  | None =>
      match activeMenuItem s, value b with
      | Some a, Some v => String.eqb a v
      | _, _ => false
      end
  end.

(** [if (value) setActiveMenuItem(value)] *)
Definition activate (b : ButtonProps) (s : State) : State :=
  match value b with
  | Some v =>
      if truthy v
      then {| expandedState := expandedState s; activeMenuItem := Some v;
              reported := reported s |}
      else s
  | None => s
  end.

(** A click on the button.  Rendered as its own [div], the button spreads
    its props after [onClick={handleClick}], so a handler of the caller
    replaces [handleClick]; rendered through [asChild], the handler is set
    after the spread. *)
Definition buttonClick (b : ButtonProps) (s : State) : State :=
  if asChild b then activate b s
  else if onClick b then s
  else activate b s.

Inductive Event : Type :=
| TriggerClick (ownOnClick : bool)
    (* a click on a SidebarTrigger, given an onClick of its own or not *)
| ButtonClick (b : ButtonProps).
    (* a click on a SidebarMenuButton of these props *)

Definition step (p : ProviderProps) (s : State) (e : Event) : State :=
  match e with
  | TriggerClick ownOnClick => triggerClick p ownOnClick s
  | ButtonClick b => buttonClick b s
  end.

Definition run (p : ProviderProps) (s : State) (es : list Event) : State :=
  fold_left (step p) es s.

End Sidebar.

(** * Vocabulary of the properties *)

Import Json Generator Queue Context.

(** The fields no timer function writes. *)
Definition core (s : State) :=
  (notes s, isGenerating s, pendingGenerations s, mounted s, dismissLog s).

(** The guard is set exactly while one generation is pending. *)
Definition guardInv (s : State) : Prop :=
  pendingGenerations s = if isGenerating s then 1%nat else 0%nat.

Definition gen (s : State) := (isGenerating s, pendingGenerations s).

(** A list of records is within the capacity when its records that are not
    fading out number at most [maxNotifications]. *)
Definition withinCapacity (p : Props) (l : list NotificationItem) : Prop :=
  Z.of_nat (length (nonFading l)) <= maxNotifications p.

(** An event whose supplied batch, if it supplies one, is within the
    capacity. *)
Definition suppliedWithin (p : Props) (e : Event) : Prop :=
  match e with
  | Supply l => withinCapacity p l
  | _ => True
  end.

(** A record for examples. *)
Definition sample (i : string) : NotificationItem :=
  {| id := i;
     user := {| avatarUrl := None; name := "Ada Lovelace"; initials := None;
                color := None |};
     message := Some "Payment processed";
     timestamp := Some "10:00:00";
     priority := Some medium;
     type := None;
     fadingOut := None |}.

(** Draws for examples: the request fails, the record gets the
    identifier [i]. *)
Definition sampleDraws (i : string) : Generator.Draws :=
  {| Generator.outcome := Generator.FetchRejected;
     Generator.uuid := i;
     Generator.clock := "10:00:00";
     Generator.rName := 7%nat;
     Generator.rHue := 400%nat;
     Generator.rMessage := 13%nat;
     Generator.rPriority := 5%nat |}.

(** Dismissals and removals never raise the count. *)
Definition shrinks (s s' : State) : Prop :=
  (length (nonFading (notes s')) <= length (nonFading (notes s)))%nat.

(** Registered handles are below the next handle, and no timer is pending
    at the next handle or above it. *)
Definition handles (m : gmap string nat) (tm : gmap nat Timer) (n : nat)
  : Prop :=
  (forall i t, m !! i = Some t -> (t < n)%nat) /\
  (forall h, (n <= h)%nat -> tm !! h = None).

Definition hostInv (s : State) : Prop :=
  handles (dismissTimeouts s) (timers s) (nextHandle s).

(** The eviction scenario: capacity 3, records A, B, C, no
    auto-dismissal; a record D is generated. *)
Definition scenarioProps : Props :=
  {| maxNotifications := 3;
     autoInterval := 3500;
     autoGenerate := true;
     customMessages := None;
     animationDuration := 800;
     onNotificationDismiss := true;
     autoDismissTimeout := 0;
     fixedUser := None |}.

(** [data?.k1?.k2 ...] *)
Definition lookupPath (data : Json) (ks : list Key) : JsValue :=
  fold_left getOptional ks (Some data).

Definition nullish (v : JsValue) : bool :=
  match v with
  | None => true
  | Some JNull => true
  | Some _ => false
  end.

Definition defined (v : JsValue) : bool :=
  match v with
  | None => false
  | Some _ => true
  end.

(** The specification's reading of a failed request: the request or the
    parse fails, or one of the fields [results[0].name.first],
    [results[0].name.last], [results[0].picture.large] is missing. *)
Definition hasExpectedFields (data : Json) : bool :=
  defined (lookupPath data [KName "results"; KIndex 0; KName "name"; KName "first"])
  && defined (lookupPath data [KName "results"; KIndex 0; KName "name"; KName "last"])
  && defined (lookupPath data [KName "results"; KIndex 0; KName "picture"; KName "large"]).

Definition fetchFails (o : FetchOutcome) : Prop :=
  match o with
  | FetchRejected => True
  | JsonRejected => True
  | JsonParsed data => hasExpectedFields data = false
  end.

(** The failures the code recovers from: the request or the parse fails,
    or [results[0].name] cannot be read from the response (it, or a value
    on the way to it, is [undefined] or [null]). *)
Definition unusable (o : FetchOutcome) : Prop :=
  match o with
  | FetchRejected => True
  | JsonRejected => True
  | JsonParsed data =>
      nullish (lookupPath data [KName "results"; KIndex 0; KName "name"]) = true
  end.

(** A response with a name and no picture. *)
Definition responseWithoutPicture : Json :=
  JObj [("results",
         JArr [JObj [("name", JObj [("first", JStr "Grace");
                                    ("last", JStr "Hopper")])]])].

(** A trigger with [asChild] and two children. *)
Definition twoChildren : ReactNode := Nodes [Element "a"; Element "span"].

(** No generator, auto-dismissal after 3000 ms, removal after 800 ms, a
    dismissal callback. *)
Definition manualProps : Props :=
  {| maxNotifications := 3;
     autoInterval := 3500;
     autoGenerate := false;
     customMessages := None;
     animationDuration := 800;
     onNotificationDismiss := true;
     autoDismissTimeout := 3000;
     fixedUser := None |}.

(** The defaults with room for one record. *)
Definition singleProps : Props :=
  {| maxNotifications := 1;
     autoInterval := 3500;
     autoGenerate := true;
     customMessages := None;
     animationDuration := 800;
     onNotificationDismiss := true;
     autoDismissTimeout := 3000;
     fixedUser := None |}.

(** The timer callbacks that delete the records of identifier [x]. *)
Definition targets (x : string) (cb : Callback) : bool :=
  match cb with
  | RemoveDismissed n => String.eqb (id n) x
  | RemoveEvicted n => String.eqb (id n) x
  | RemoveManual n => String.eqb (id n) x
  | _ => false
  end.

(** No removal of [x] is pending. *)
Definition noRemovalPending (x : string) (s : State) : Prop :=
  forall h t, timers s !! h = Some t -> targets x (callback t) = false.

(** Every pending removal of [x] is due at [D] or later. *)
Definition late (x : string) (D : Z) (tm : gmap nat Timer) : Prop :=
  forall h t, tm !! h = Some t -> targets x (callback t) = true -> D <= due t.

(** The queue shows a record of identifier [x] that is fading out. *)
Definition fades (x : string) (l : list NotificationItem) : Prop :=
  exists n, In n l /\ id n = x /\ fadingOut n = Some true.

(** From the time [t0] on, a fading record of identifier [x] stays in
    the queue until [D]. *)
Definition stays (x : string) (t0 D : Z) (t : State) : Prop :=
  t0 <= now t /\ late x D (timers t) /\ (now t < D -> fades x (notes t)).

(** The events other than a wholesale replacement. *)
Definition keepsQueue (e : Event) : Prop :=
  match e with
  | Supply (_ :: _) => False
  | _ => True
  end.

(** The cleanups only take timers away. *)
Definition prunes (s s' : State) : Prop :=
  now s' = now s /\ notes s' = notes s /\
  forall h t, timers s' !! h = Some t -> timers s !! h = Some t.

(** ** Vocabulary of the further properties of the queue *)

(** The removal callbacks. *)
Definition isRemoval (cb : Callback) : bool :=
  match cb with
  | RemoveDismissed _ => true
  | RemoveEvicted _ => true
  | RemoveManual _ => true
  | _ => false
  end.

(** The callbacks of the generator. *)
Definition isTick (cb : Callback) : bool :=
  match cb with
  | FirstGenerate => true
  | IntervalTick => true
  | _ => false
  end.

(** The bookkeeping of handles: every handle in use was issued (it lies
    between 1 and the next handle); a registered handle that is pending is
    the auto-dismissal of its identifier; the generator's timers are the
    ones the refs name, and only with [autoGenerate]. *)
Definition tidy (ag : bool) (m : gmap string nat) (ir ft : option nat)
    (tm : gmap nat Timer) (n : nat) : Prop :=
  (1 <= n)%nat /\
  (forall i h, m !! i = Some h -> (1 <= h < n)%nat) /\
  (forall h t, tm !! h = Some t -> (1 <= h < n)%nat) /\
  (forall h, ir = Some h -> (1 <= h < n)%nat) /\
  (forall h, ft = Some h -> (1 <= h < n)%nat) /\
  (forall i h t, m !! i = Some h -> tm !! h = Some t ->
                 callback t = AutoDismiss i) /\
  (forall h t, tm !! h = Some t -> callback t = IntervalTick ->
               ag = true /\ ir = Some h) /\
  (forall h t, tm !! h = Some t -> callback t = FirstGenerate ->
               ag = true /\ ft = Some h) /\
  (forall h t, ir = Some h -> tm !! h = Some t -> callback t = IntervalTick) /\
  (forall h t, ft = Some h -> tm !! h = Some t -> callback t = FirstGenerate).

Definition tidyInv (p : Props) (s : State) : Prop :=
  tidy (autoGenerate p) (dismissTimeouts s) (intervalRef s) (firstTimeout s)
    (timers s) (nextHandle s).

(** The handles the registry holds. *)
Definition registered (s : State) : list nat :=
  map snd (map_to_list (dismissTimeouts s)).

(** The body of the loop that gives each supplied record its
    auto-dismiss timer. *)
Definition registerEach (p : Props) (acc : State) (n : NotificationItem)
  : State :=
  let '(h, acc1) := window_setTimeout (AutoDismiss (id n))
                      (autoDismissTimeout p) acc in
  set_dismissTimeouts (<[id n := h]> (dismissTimeouts acc1)) acc1.

(** The fields the clearing of timers leaves alone. *)
Definition frame (s : State) :=
  (notes s, intervalRef s, firstTimeout s, isGenerating s, mounted s,
   nextHandle s, now s, pendingGenerations s, dismissLog s).

(** One list of records comes from another by flagging or deleting
    records: nothing is added, reordered or unflagged. *)
Inductive evolves : list NotificationItem -> list NotificationItem -> Prop :=
| evolves_nil : evolves [] []
| evolves_keep n l l' : evolves l l' -> evolves (n :: l) (n :: l')
| evolves_flag n l l' : evolves l l' -> evolves (n :: l) (markFading n :: l')
| evolves_drop n l l' : evolves l l' -> evolves (n :: l) l'.

(** No auto-dismissal is pending or registered. *)
Definition noAutoDismiss (s : State) : Prop :=
  dismissTimeouts s = ∅ /\
  forall h t i, timers s !! h = Some t -> callback t <> AutoDismiss i.

(** No two neighbours of the list are equal. *)
Fixpoint alternating (l : list bool) : bool :=
  match l with
  | a :: (b :: _) as rest => negb (Bool.eqb a b) && alternating rest
  | _ => true
  end.

(** The character occurs in the string. *)
Fixpoint occurs (c : ascii) (s : string) : bool :=
  match s with
  | EmptyString => false
  | String d rest => Ascii.eqb d c || occurs c rest
  end.

(** The click runs a handler of the caller in place of the component's. *)
Definition replaced (e : Sidebar.Event) : bool :=
  match e with
  | Sidebar.TriggerClick ownOnClick => ownOnClick
  | Sidebar.ButtonClick b => negb (Sidebar.asChild b) && Sidebar.onClick b
  end.

(** The clicks on the trigger that reach [setExpanded]. *)
Definition toggles (es : list Sidebar.Event) : nat :=
  length (List.filter (fun e => match e with
                                | Sidebar.TriggerClick false => true
                                | _ => false
                                end) es).

(** The events that are no click and no mousedown: the passing of time,
    the run of a timer, and the pointer entering or leaving. *)
Definition pointerOrTime (e : Dropdown.Event) : bool :=
  match e with
  | Dropdown.Elapse _ | Dropdown.Fire _ | Dropdown.TriggerEnter
  | Dropdown.ContentEnter | Dropdown.ContentLeave => true
  | _ => false
  end.

(** The event leaves the parent's [onOpenChange] the function it was. *)
Definition sameHandler (e : Dropdown.Event) : bool :=
  match e with
  | Dropdown.Rerender => false
  | _ => true
  end.

Definition hoverProps : Dropdown.Props :=
  {| Dropdown.defaultOpen := false; Dropdown.open := None;
     Dropdown.onOpenChange := true; Dropdown.hoverMode := true;
     Dropdown.contentOnMouseEnter := false;
     Dropdown.contentOnMouseLeave := false |}.

Definition controlledProps : Dropdown.Props :=
  {| Dropdown.defaultOpen := false; Dropdown.open := Some true;
     Dropdown.onOpenChange := true; Dropdown.hoverMode := true;
     Dropdown.contentOnMouseEnter := true;
     Dropdown.contentOnMouseLeave := false |}.

Definition popoverProps : Popover.Props :=
  {| Popover.defaultOpen := false; Popover.open := None;
     Popover.onOpenChange := true; Popover.closeOnOutsideClick := true |}.

Definition sidebarProps : Sidebar.ProviderProps :=
  {| Sidebar.defaultExpanded := true; Sidebar.expanded := None;
     Sidebar.onExpandedChange := true |}.

Definition docsButton : Sidebar.ButtonProps :=
  {| Sidebar.value := Some "button"; Sidebar.isActive := None;
     Sidebar.asChild := false; Sidebar.onClick := false |}.

(** * Properties *)

(** ** Frame lemmas: what the timer bookkeeping leaves alone *)

Lemma fold_left_preserves {A : Type} (f : State -> A -> State)
    (P : State -> Prop) (l : list A) :
  (forall s a, P s -> P (f s a)) ->
  forall s, P s -> P (fold_left f l s).
Proof.
  intros Hf. induction l as [|a l IH]; intros s Hs; simpl; auto.
Qed.

(** Case analysis on the branches of an operation; the pairs returned by
    the host's [setTimeout] are opened. *)
Ltac branches :=
  repeat case_match;
  unfold window_setInterval, window_setTimeout in *;
  simplify_eq; simpl in *.

Lemma core_setTimeout cb delay s :
  core (snd (window_setTimeout cb delay s)) = core s.
Proof. reflexivity. Qed.

Lemma core_clearTimeout h s : core (window_clearTimeout h s) = core s.
Proof. reflexivity. Qed.

Lemma core_clearNoteTimeout i s : core (clearNoteTimeout i s) = core s.
Proof.
  unfold clearNoteTimeout. repeat case_match; reflexivity.
Qed.

Lemma core_clearAllNoteTimeouts s : core (clearAllNoteTimeouts s) = core s.
Proof.
  unfold clearAllNoteTimeouts.
  change (core (fold_left (fun acc t => window_clearTimeout t acc)
                  (map snd (map_to_list (dismissTimeouts s))) s) = core s).
  apply (fold_left_preserves _ (fun s' => core s' = core s)); auto.
Qed.

Lemma core_scheduleAutoDismiss p i s : core (scheduleAutoDismiss p i s) = core s.
Proof.
  unfold scheduleAutoDismiss. branches; reflexivity.
Qed.

Lemma core_startGenerator p s : core (startGenerator p s) = core s.
Proof.
  unfold startGenerator. branches; reflexivity.
Qed.

Lemma core_stopGenerator p s : core (stopGenerator p s) = core s.
Proof.
  unfold stopGenerator. repeat case_match; reflexivity.
Qed.

Lemma core_cleanupTimers s : core (cleanupTimers s) = core s.
Proof.
  unfold cleanupTimers. rewrite core_clearAllNoteTimeouts.
  repeat case_match; reflexivity.
Qed.

(** Projections of [core]. *)
Lemma core_fields s s' :
  core s' = core s ->
  notes s' = notes s /\ isGenerating s' = isGenerating s /\
  pendingGenerations s' = pendingGenerations s /\ mounted s' = mounted s /\
  dismissLog s' = dismissLog s.
Proof. unfold core. intros H. injection H. auto. Qed.

(** The wholesale replacement writes [notes] and nothing else of [core]. *)
Lemma sync_fields p l s :
  l <> [] ->
  notes (syncNotifications p l s) = l /\
  isGenerating (syncNotifications p l s) = isGenerating s /\
  pendingGenerations (syncNotifications p l s) = pendingGenerations s /\
  mounted (syncNotifications p l s) = mounted s /\
  dismissLog (syncNotifications p l s) = dismissLog s.
Proof.
  intros Hl. destruct l as [|n l]; [congruence|].
  unfold syncNotifications.
  destruct (core_fields _ _ (core_clearAllNoteTimeouts s))
    as (_ & Hg & Hp & Hm & Hd).
  set (s2 := set_notes (n :: l) (clearAllNoteTimeouts s)).
  assert (H2 : notes s2 = n :: l /\ isGenerating s2 = isGenerating s /\
               pendingGenerations s2 = pendingGenerations s /\
               mounted s2 = mounted s /\ dismissLog s2 = dismissLog s)
    by (subst s2; simpl; auto).
  case_match; [|exact H2].
  apply (fold_left_preserves _
           (fun s' => notes s' = n :: l /\ isGenerating s' = isGenerating s /\
                      pendingGenerations s' = pendingGenerations s /\
                      mounted s' = mounted s /\ dismissLog s' = dismissLog s));
    [|exact H2].
  intros s' a Hs'. branches. exact Hs'.
Qed.

(** ** The single-flight guard *)

Ltac unfold_ops :=
  unfold dismissNotification, removeDismissed, removeEvicted, removeManual,
    handleManualDismiss, insertGenerated, scheduleAutoDismiss,
    call_onNotificationDismiss, clearNoteTimeout, window_clearTimeout in *.

Lemma gen_runCallback_removal p cb s :
  cb <> FirstGenerate -> cb <> IntervalTick ->
  gen (runCallback p cb s) = gen s.
Proof.
  intros H1 H2. destruct cb; simpl; try congruence;
    unfold_ops; branches; reflexivity.
Qed.

Lemma gen_handleManualDismiss p note s :
  gen (handleManualDismiss p note s) = gen s.
Proof. unfold_ops; branches; reflexivity. Qed.

Lemma gen_insertGenerated p newNote s s' :
  insertGenerated p newNote s = Some s' -> gen s' = gen s.
Proof. unfold_ops; intros H; branches; reflexivity. Qed.

Lemma gen_of_core s s' : core s' = core s -> gen s' = gen s.
Proof.
  intros H. destruct (core_fields _ _ H) as (_ & Hg & Hp & _).
  unfold gen. now rewrite Hg, Hp.
Qed.

Lemma gen_unmount p s : gen (unmount p s) = gen s.
Proof.
  transitivity (gen (cleanupTimers (stopGenerator p s))); [reflexivity|].
  rewrite (gen_of_core _ _ (core_cleanupTimers _)).
  apply gen_of_core, core_stopGenerator.
Qed.

Lemma gen_sync p l s : gen (syncNotifications p l s) = gen s.
Proof.
  destruct l as [|n l]; [reflexivity|].
  destruct (sync_fields p (n :: l) s) as (_ & Hg & Hp & _); [discriminate|].
  unfold gen. now rewrite Hg, Hp.
Qed.

Lemma guardInv_gen s s' : gen s' = gen s -> guardInv s -> guardInv s'.
Proof.
  unfold gen, guardInv. intros H. injection H as -> ->. auto.
Qed.

Lemma guardInv_start p s : guardInv s -> guardInv (addGeneratedNote_start p s).
Proof.
  unfold addGeneratedNote_start, guardInv.
  destruct (autoGenerate p); simpl; auto.
  destruct (isGenerating s) eqn:E; simpl; [rewrite E; auto|].
  intros ->. reflexivity.
Qed.

Lemma guardInv_mount p notifications : guardInv (mount p notifications).
Proof.
  unfold mount.
  eapply guardInv_gen; [apply gen_sync|].
  unfold guardInv.
  match goal with |- context [startGenerator p ?s0] =>
    destruct (core_fields _ _ (core_startGenerator p s0)) as (_ & -> & -> & _)
  end.
  reflexivity.
Qed.

Lemma guardInv_fire p h s : guardInv s -> guardInv (fire p h s).
Proof.
  intros Hs. unfold fire.
  destruct (timers s !! h) as [t|]; [|exact Hs].
  destruct (due t <=? now s); [|exact Hs].
  destruct (callback t) eqn:Ecb;
    try (eapply guardInv_gen;
         [apply gen_runCallback_removal; discriminate | exact Hs]);
    simpl; apply guardInv_start; exact Hs.
Qed.

Lemma guardInv_step p s e s' :
  guardInv s -> step p s e = Some s' -> guardInv s'.
Proof.
  intros Hs Hstep. destruct e; simpl in Hstep.
  - injection Hstep as <-. exact Hs.
  - injection Hstep as <-. apply guardInv_fire, Hs.
  - unfold addGeneratedNote_resume in Hstep.
    destruct (pendingGenerations s) as [|k] eqn:Ek.
    + injection Hstep as <-. exact Hs.
    + assert (k = O) as ->.
      { unfold guardInv in Hs. rewrite Ek in Hs.
        destruct (isGenerating s); congruence. }
      destruct (mounted s).
      * eapply guardInv_gen; [eapply gen_insertGenerated, Hstep|].
        reflexivity.
      * injection Hstep as <-. reflexivity.
  - injection Hstep as <-. unfold addGeneratedNote_rejected.
    destruct (pendingGenerations s) as [|k] eqn:Ek; [exact Hs|].
    assert (k = O) as ->.
    { unfold guardInv in Hs. rewrite Ek in Hs.
      destruct (isGenerating s); congruence. }
    reflexivity.
  - destruct (mounted s); [|injection Hstep as <-; exact Hs].
    destruct (notes s !! i); injection Hstep as <-; [|exact Hs].
    eapply guardInv_gen; [apply gen_handleManualDismiss | exact Hs].
  - destruct (mounted s); injection Hstep as <-; [|exact Hs].
    eapply guardInv_gen; [apply gen_sync | exact Hs].
  - destruct (mounted s); injection Hstep as <-; [|exact Hs].
    eapply guardInv_gen; [apply gen_unmount | exact Hs].
Qed.

Lemma guardInv_run p es : forall s s',
  guardInv s -> run p s es = Some s' -> guardInv s'.
Proof.
  induction es as [|e es IH]; intros s s' Hs Hrun; simpl in Hrun.
  - injection Hrun as <-. exact Hs.
  - destruct (step p s e) as [s1|] eqn:E; [|discriminate].
    eapply IH; [eapply guardInv_step; eauto | exact Hrun].
Qed.

(** C8. In every state the component reaches, at most one generation is
    pending, and the guard is set exactly while one is.  While the guard
    is set, a tick of the interval (or the first delayed call) starts
    nothing: no generation is added and the queue is untouched.  When the
    pending generation fulfils or rejects, the guard is cleared and
    nothing remains pending. *)
Theorem single_flight_guard p notifications es s :
  run p (mount p notifications) es = Some s ->
  (pendingGenerations s <= 1)%nat /\
  (isGenerating s = true <-> pendingGenerations s = 1%nat) /\
  (isGenerating s = true ->
     addGeneratedNote_start p s = s /\
     forall h t,
       timers s !! h = Some t ->
       callback t = IntervalTick \/ callback t = FirstGenerate ->
       notes (fire p h s) = notes s /\
       pendingGenerations (fire p h s) = pendingGenerations s /\
       isGenerating (fire p h s) = true) /\
  (forall d s',
     step p s (Fulfil d) = Some s' ->
     isGenerating s' = false /\ pendingGenerations s' = 0%nat) /\
  (isGenerating (addGeneratedNote_rejected s) = false /\
   pendingGenerations (addGeneratedNote_rejected s) = 0%nat).
Proof.
  intros Hrun.
  assert (Hinv : guardInv s)
    by (eapply guardInv_run; [apply guardInv_mount | exact Hrun]).
  unfold guardInv in Hinv.
  split; [destruct (isGenerating s); lia|].
  split; [destruct (isGenerating s); split; congruence|].
  split.
  - intros Hg. split.
    + unfold addGeneratedNote_start. rewrite Hg.
      destruct (autoGenerate p); reflexivity.
    + intros h t Ht Hcb. unfold fire. rewrite Ht.
      destruct (due t <=? now s); [|auto].
      destruct Hcb as [-> | ->]; simpl;
        unfold addGeneratedNote_start; simpl; rewrite Hg;
        destruct (autoGenerate p); simpl; auto.
  - split.
    + intros d s' Hstep.
      assert (Hs' : guardInv s').
      { eapply guardInv_step; [|exact Hstep]. exact Hinv. }
      simpl in Hstep. unfold addGeneratedNote_resume in Hstep.
      destruct (pendingGenerations s) as [|k] eqn:Ek.
      * injection Hstep as <-. destruct (isGenerating s); [discriminate|].
        auto.
      * assert (Hgen : gen s' = (false, k)).
        { destruct (mounted s).
          - apply gen_insertGenerated in Hstep. exact Hstep.
          - injection Hstep as <-. reflexivity. }
        unfold gen in Hgen. injection Hgen as Hg Hp.
        unfold guardInv in Hs'. rewrite Hg in Hs'. auto.
    + unfold addGeneratedNote_rejected.
      destruct (pendingGenerations s) as [|k] eqn:Ek.
      * destruct (isGenerating s); [discriminate|]. auto.
      * destruct (isGenerating s); [|discriminate].
        injection Hinv as ->. auto.
Qed.

(** A generation is in flight after the first delayed call. *)
Lemma single_flight_guard_witness :
  exists s,
    run defaultProps (mount defaultProps []) [Elapse 900; Fire 2] = Some s /\
    (pendingGenerations s <= 1)%nat /\
    (isGenerating s = true <-> pendingGenerations s = 1%nat).
Proof.
  eexists. split; [vm_compute; reflexivity|].
  refine (let H := single_flight_guard defaultProps []
                     [Elapse 900; Fire 2] _ _ in _).
  split; [apply H | apply H].
  Unshelve. vm_compute. reflexivity.
Defined.

(** ** The empty batch *)

(** C10. With an empty [notifications] array the replacement effect does
    nothing at all: the state after it (queue, timer registry, pending
    timers, everything) is the state before it. *)
Theorem empty_batch_is_ignored p s :
  syncNotifications p [] s = s /\ step p s (Supply []) = Some s.
Proof.
  split; [reflexivity|]. simpl. destruct (mounted s); reflexivity.
Qed.

(** ** The capacity bound *)

Lemma nonFading_app l n :
  nonFading (l ++ [n]) = (nonFading l ++ if isFading n then [] else [n])%list.
Proof.
  unfold nonFading. rewrite List.filter_app. simpl.
  destruct (isFading n); reflexivity.
Qed.

Lemma isFading_markId_mono i n : isFading n = true -> isFading (markId i n) = true.
Proof.
  unfold markId. destruct (String.eqb (id n) i); auto.
Qed.

Lemma nonFading_markId_le i l :
  (length (nonFading (map (markId i) l)) <= length (nonFading l))%nat.
Proof.
  induction l as [|n l IH]; simpl; [lia|].
  destruct (isFading n) eqn:E.
  - rewrite (isFading_markId_mono i n E). simpl. exact IH.
  - simpl. destruct (isFading (markId i n)); simpl; lia.
Qed.

Lemma nonFading_markId_lt oldest l :
  In oldest (nonFading l) ->
  (length (nonFading (map (markId (id oldest)) l)) < length (nonFading l))%nat.
Proof.
  induction l as [|n l IH]; simpl; [tauto|].
  destruct (isFading n) eqn:E; simpl.
  - intros Hin. rewrite (isFading_markId_mono _ n E). simpl. auto.
  - intros [-> | Hin].
    + unfold markId at 1. rewrite String.eqb_refl. simpl.
      pose proof (nonFading_markId_le (id oldest) l). lia.
    + specialize (IH Hin).
      destruct (isFading (markId (id oldest) n)); simpl; lia.
Qed.

Lemma nonFading_filter_le (f : NotificationItem -> bool) l :
  (length (nonFading (List.filter f l)) <= length (nonFading l))%nat.
Proof.
  induction l as [|n l IH]; simpl; [lia|].
  destruct (f n); simpl; destruct (isFading n); simpl; lia.
Qed.

Lemma shrinks_runCallback_removal p cb s :
  cb <> FirstGenerate -> cb <> IntervalTick ->
  shrinks s (runCallback p cb s).
Proof.
  intros H1 H2. unfold shrinks.
  destruct cb; simpl; try congruence; unfold_ops; branches;
    auto using nonFading_markId_le, nonFading_filter_le.
Qed.

Lemma shrinks_handleManualDismiss p note s :
  shrinks s (handleManualDismiss p note s).
Proof.
  unfold shrinks. unfold_ops; branches;
    auto using nonFading_markId_le, nonFading_filter_le.
Qed.

Lemma capacity_insertGenerated p d s s' :
  let newNote :=
    Generator.generateNotification (customMessages p) (fixedUser p) d in
  withinCapacity p (notes s) ->
  insertGenerated p newNote s = Some s' ->
  withinCapacity p (notes s').
Proof.
  intros newNote Hcap Hins. unfold withinCapacity in *.
  unfold insertGenerated in Hins.
  destruct (maxNotifications p <=? Z.of_nat (length (nonFading (notes s))))
    eqn:Emax.
  - apply Z.leb_le in Emax.
    destruct (nonFading (notes s)) as [|oldest rest] eqn:Enf; [discriminate|].
    assert (Hlt := nonFading_markId_lt oldest (notes s)).
    rewrite Enf in Hlt. specialize (Hlt (or_introl eq_refl)).
    injection Hins as <-. simpl.
    rewrite nonFading_app, length_app.
    destruct (isFading newNote); simpl in *; lia.
  - apply Z.leb_gt in Emax. injection Hins as <-. simpl.
    rewrite nonFading_app, length_app.
    destruct (isFading newNote); simpl; lia.
Qed.

Lemma notes_fire_tick p s : notes (addGeneratedNote_start p s) = notes s.
Proof.
  unfold addGeneratedNote_start. branches; reflexivity.
Qed.

Lemma shrinks_fire p h s : shrinks s (fire p h s).
Proof.
  unfold fire.
  destruct (timers s !! h) as [t|]; [|unfold shrinks; lia].
  destruct (due t <=? now s); [|unfold shrinks; lia].
  destruct (callback t) eqn:Ecb;
    try (match goal with
         | |- shrinks s (runCallback p ?cb (set_timers ?tb s)) =>
             apply (shrinks_runCallback_removal p cb (set_timers tb s));
             discriminate
         end);
    unfold shrinks; simpl; rewrite notes_fire_tick; simpl; lia.
Qed.

Lemma capacity_step p s e s' :
  withinCapacity p (notes s) -> suppliedWithin p e ->
  step p s e = Some s' -> withinCapacity p (notes s').
Proof.
  intros Hcap He Hstep. destruct e; simpl in Hstep.
  - injection Hstep as <-. exact Hcap.
  - injection Hstep as <-. pose proof (shrinks_fire p h s) as Hs.
    unfold shrinks, withinCapacity in *. lia.
  - unfold addGeneratedNote_resume in Hstep.
    destruct (pendingGenerations s) as [|k];
      [injection Hstep as <-; exact Hcap|].
    destruct (mounted s); [|injection Hstep as <-; exact Hcap].
    eapply capacity_insertGenerated; [|exact Hstep]. exact Hcap.
  - injection Hstep as <-. unfold addGeneratedNote_rejected.
    destruct (pendingGenerations s); exact Hcap.
  - destruct (mounted s); [|injection Hstep as <-; exact Hcap].
    destruct (notes s !! i) as [note|]; injection Hstep as <-; [|exact Hcap].
    pose proof (shrinks_handleManualDismiss p note s) as Hs.
    unfold shrinks, withinCapacity in *. lia.
  - destruct (mounted s); injection Hstep as <-; [|exact Hcap].
    destruct notifications as [|n l]; [exact Hcap|].
    destruct (sync_fields p (n :: l) s) as (-> & _); [discriminate|].
    exact He.
  - destruct (mounted s); injection Hstep as <-; [|exact Hcap].
    unfold unmount.
    destruct (core_fields _ _ (core_cleanupTimers (stopGenerator p s)))
      as (Hn & _).
    destruct (core_fields _ _ (core_stopGenerator p s)) as (Hn' & _).
    unfold withinCapacity.
    change (notes (set_mounted false (cleanupTimers (stopGenerator p s))))
      with (notes (cleanupTimers (stopGenerator p s))).
    rewrite Hn, Hn'. exact Hcap.
Qed.

Lemma capacity_mount p notifications :
  withinCapacity p notifications ->
  withinCapacity p (notes (mount p notifications)).
Proof.
  intros H. unfold mount.
  destruct notifications as [|n l].
  - simpl.
    match goal with |- context [startGenerator p ?s0] =>
      destruct (core_fields _ _ (core_startGenerator p s0)) as (-> & _)
    end.
    exact H.
  - match goal with |- context [syncNotifications p ?b ?s0] =>
      destruct (sync_fields p b s0) as (-> & _); [discriminate|]
    end.
    exact H.
Qed.

(** The updater raises only when [maxNotifications] is not positive and
    no record is left that is not fading out; with a positive
    [maxNotifications] every event has a successor state. *)
Lemma insertGenerated_raises p newNote s :
  insertGenerated p newNote s = None <->
  maxNotifications p <= 0 /\ nonFading (notes s) = [].
Proof.
  unfold insertGenerated.
  destruct (maxNotifications p <=? Z.of_nat (length (nonFading (notes s))))
    eqn:Emax.
  - apply Z.leb_le in Emax.
    destruct (nonFading (notes s)) as [|oldest rest]; simpl in *.
    + split; [intros _; split; [lia | reflexivity] | reflexivity].
    + split; [discriminate | intros [_ ?]; discriminate].
  - apply Z.leb_gt in Emax. split; [discriminate|].
    intros [Hmax Hnf]. rewrite Hnf in Emax. simpl in Emax. lia.
Qed.

Lemma run_total p es :
  0 < maxNotifications p -> forall s, exists s', run p s es = Some s'.
Proof.
  intros Hmax. induction es as [|e es IH]; intros s; simpl; [eauto|].
  assert (Hstep : exists s1, step p s e = Some s1).
  { destruct e; simpl; eauto.
    - unfold addGeneratedNote_resume.
      destruct (pendingGenerations s) as [|k]; [eauto|].
      destruct (mounted s); [|eauto].
      match goal with |- exists s1, ?x = Some s1 =>
        destruct x as [s1|] eqn:E; [eauto|]
      end.
      apply insertGenerated_raises in E as [E _]. lia.
    - destruct (mounted s); [|eauto]. destruct (notes s !! i); eauto.
    - destruct (mounted s); eauto.
    - destruct (mounted s); eauto. }
  destruct Hstep as [s1 ->]. apply IH.
Qed.

(** C1, as amended.  When the initial [notifications] and every batch the
    caller supplies later are themselves within the capacity, then after
    every operation (generated insertions, timers, dismissals, batches,
    unmounting) the records that are not fading out number at most
    [maxNotifications]. *)
Theorem capacity_bound_within_supplied_capacity p notifications es s :
  withinCapacity p notifications ->
  Forall (suppliedWithin p) es ->
  run p (mount p notifications) es = Some s ->
  Z.of_nat (activeCount s) <= maxNotifications p.
Proof.
  intros Hinit Hes Hrun.
  assert (Hgen : forall s0, withinCapacity p (notes s0) ->
                            run p s0 es = Some s ->
                            withinCapacity p (notes s)).
  { clear Hrun Hinit. induction Hes as [|e es He Hes IH];
      intros s0 H0 Hrun; simpl in Hrun.
    - injection Hrun as <-. exact H0.
    - destruct (step p s0 e) as [s1|] eqn:E; [|discriminate].
      eapply IH; [eapply capacity_step; eauto | exact Hrun]. }
  exact (Hgen _ (capacity_mount p notifications Hinit) Hrun).
Qed.

(** The example of C1: the queue after a supplied batch and a generated
    insertion that evicts. *)
Lemma capacity_bound_witness :
  exists s,
    run defaultProps (mount defaultProps [sample "A"])
      [Supply [sample "B"; sample "C"; sample "D"];
       Elapse 900; Fire 2; Fulfil (sampleDraws "E")] = Some s /\
    Z.of_nat (activeCount s) <= 3.
Proof.
  eexists. split; [vm_compute; reflexivity|].
  apply (capacity_bound_within_supplied_capacity defaultProps
           [sample "A"]
           [Supply [sample "B"; sample "C"; sample "D"];
            Elapse 900; Fire 2; Fulfil (sampleDraws "E")]).
  - vm_compute. discriminate.
  - constructor; [vm_compute; discriminate|].
    repeat (constructor; [exact I|]). constructor.
  - vm_compute. reflexivity.
Defined.

(** C1 as stated fails: a supplied batch of four records that are not
    fading out is taken as it is, whatever [maxNotifications] says. *)
Lemma capacity_bound_fails_for_supplied_batch :
  ~ (forall p notifications es s,
       run p (mount p notifications) es = Some s ->
       Z.of_nat (activeCount s) <= maxNotifications p).
Proof.
  intros H.
  assert (Hc : exists s,
             run defaultProps (mount defaultProps [])
               [Supply [sample "A"; sample "B"; sample "C"; sample "D"]]
             = Some s /\ activeCount s = 4%nat).
  { eexists. split; vm_compute; reflexivity. }
  destruct Hc as (s & Hrun & Hcount).
  specialize (H _ _ _ _ Hrun). rewrite Hcount in H. simpl in H. lia.
Qed.

(** ** Fresh timer handles *)

Lemma handles_setTimeout m tm n x :
  handles m tm n -> handles m (<[n := x]> tm) (S n).
Proof.
  intros [Hm Ht]. split.
  - intros i t Hi. specialize (Hm i t Hi). lia.
  - intros h Hh. rewrite lookup_insert_ne by lia. apply Ht. lia.
Qed.

Lemma handles_clear m tm n h : handles m tm n -> handles m (delete h tm) n.
Proof.
  intros [Hm Ht]. split; [exact Hm|].
  intros h' Hh'. rewrite lookup_delete. case_decide; auto.
Qed.

Lemma handles_forget m tm n i : handles m tm n -> handles (delete i m) tm n.
Proof.
  intros [Hm Ht]. split; [|exact Ht].
  intros i' t. rewrite lookup_delete. case_decide; [discriminate|]. apply Hm.
Qed.

Lemma handles_register m tm n i h :
  (h < n)%nat -> handles m tm n -> handles (<[i := h]> m) tm n.
Proof.
  intros Hh [Hm Ht]. split; [|exact Ht].
  intros i' t. rewrite lookup_insert. case_decide.
  - intros [= <-]. exact Hh.
  - apply Hm.
Qed.

Lemma handles_empty m tm n : handles m tm n -> handles ∅ tm n.
Proof.
  intros [_ Ht]. split; [|exact Ht]. intros i t. rewrite lookup_empty.
  discriminate.
Qed.

Lemma handles_rearm m tm n h t x :
  tm !! h = Some t -> handles m tm n -> handles m (<[h := x]> tm) n.
Proof.
  intros Hh [Hm Ht]. split; [exact Hm|].
  intros h' Hh'. rewrite lookup_insert. case_decide; [|auto].
  subst h'. rewrite (Ht h Hh') in Hh. discriminate.
Qed.

Create HintDb handles.
#[local] Hint Resolve handles_setTimeout handles_clear handles_forget
  handles_empty : handles.
#[local] Hint Extern 2 (handles (<[_ := ?h]> _) _ (S ?h)) =>
  apply handles_register; [lia|] : handles.

Ltac host_ops :=
  unfold hostInv in *; unfold_ops; branches; eauto 8 with handles.

Lemma hostInv_clearAll s : hostInv s -> hostInv (clearAllNoteTimeouts s).
Proof.
  intros H. unfold clearAllNoteTimeouts.
  assert (Hf : hostInv (fold_left (fun acc t => window_clearTimeout t acc)
                          (map snd (map_to_list (dismissTimeouts s))) s)).
  { apply (fold_left_preserves _ hostInv); [|exact H].
    intros s' t Hs'. host_ops. }
  revert Hf. unfold hostInv. simpl. apply handles_empty.
Qed.

Lemma hostInv_scheduleAutoDismiss p i s :
  hostInv s -> hostInv (scheduleAutoDismiss p i s).
Proof. intros H. host_ops. Qed.

Lemma hostInv_sync p l s : hostInv s -> hostInv (syncNotifications p l s).
Proof.
  intros H. destruct l as [|n l]; [exact H|].
  unfold syncNotifications.
  assert (H2 : hostInv (set_notes (n :: l) (clearAllNoteTimeouts s)))
    by (apply hostInv_clearAll in H; exact H).
  case_match; [|exact H2].
  apply (fold_left_preserves _ hostInv); [|exact H2].
  intros s' a Hs'. host_ops.
Qed.

Lemma hostInv_runCallback p cb s : hostInv s -> hostInv (runCallback p cb s).
Proof.
  intros H. destruct cb; simpl; unfold addGeneratedNote_start; host_ops.
Qed.

Lemma hostInv_fire p h s : hostInv s -> hostInv (fire p h s).
Proof.
  intros H. unfold fire.
  destruct (timers s !! h) as [t|] eqn:Et; [|exact H].
  destruct (due t <=? now s); [|exact H].
  apply hostInv_runCallback.
  unfold hostInv in *. simpl.
  destruct (callback t); eauto using handles_rearm with handles.
Qed.

Lemma hostInv_insertGenerated p newNote s s' :
  hostInv s -> insertGenerated p newNote s = Some s' -> hostInv s'.
Proof. intros H Hins. host_ops. Qed.

Lemma hostInv_handleManualDismiss p note s :
  hostInv s -> hostInv (handleManualDismiss p note s).
Proof. intros H. host_ops. Qed.

Lemma hostInv_startGenerator p s : hostInv s -> hostInv (startGenerator p s).
Proof. intros H. unfold startGenerator. host_ops. Qed.

Lemma hostInv_unmount p s : hostInv s -> hostInv (unmount p s).
Proof.
  intros H. unfold unmount.
  assert (H1 : hostInv (stopGenerator p s))
    by (unfold stopGenerator; host_ops).
  assert (H2 : hostInv (cleanupTimers (stopGenerator p s))).
  { unfold cleanupTimers. apply hostInv_clearAll.
    revert H1. generalize (stopGenerator p s). intros s1 H1. host_ops. }
  exact H2.
Qed.

Lemma hostInv_mount p notifications : hostInv (mount p notifications).
Proof.
  unfold mount. apply hostInv_sync, hostInv_startGenerator.
  split; simpl; intros; apply lookup_empty || (rewrite lookup_empty in *; discriminate).
Qed.

Lemma hostInv_step p s e s' : hostInv s -> step p s e = Some s' -> hostInv s'.
Proof.
  intros H Hstep. destruct e; simpl in Hstep.
  - injection Hstep as <-. exact H.
  - injection Hstep as <-. apply hostInv_fire, H.
  - unfold addGeneratedNote_resume in Hstep.
    destruct (pendingGenerations s) as [|k];
      [injection Hstep as <-; exact H|].
    destruct (mounted s); [|injection Hstep as <-; exact H].
    eapply hostInv_insertGenerated; [|exact Hstep]. exact H.
  - injection Hstep as <-. unfold addGeneratedNote_rejected.
    destruct (pendingGenerations s); exact H.
  - destruct (mounted s); [|injection Hstep as <-; exact H].
    destruct (notes s !! i) as [note|]; injection Hstep as <-; [|exact H].
    apply hostInv_handleManualDismiss, H.
  - destruct (mounted s); injection Hstep as <-; [|exact H].
    apply hostInv_sync, H.
  - destruct (mounted s); injection Hstep as <-; [|exact H].
    apply hostInv_unmount, H.
Qed.

Lemma hostInv_run p es : forall s s',
  hostInv s -> run p s es = Some s' -> hostInv s'.
Proof.
  induction es as [|e es IH]; intros s s' Hs Hrun; simpl in Hrun.
  - injection Hrun as <-. exact Hs.
  - destruct (step p s e) as [s1|] eqn:E; [|discriminate].
    eapply IH; [eapply hostInv_step; eauto | exact Hrun].
Qed.

(** ** Eviction *)

Lemma oldest_marked oldest l :
  In oldest (nonFading l) ->
  In (markFading oldest) (map (markId (id oldest)) l).
Proof.
  intros Hin. apply List.filter_In in Hin as [Hin _].
  apply List.in_map_iff. exists oldest. split; [|exact Hin].
  unfold markId. now rewrite String.eqb_refl.
Qed.

Lemma timers_scheduleAutoDismiss p i s h :
  h <> nextHandle s ->
  timers (scheduleAutoDismiss p i s) !! h = timers s !! h.
Proof.
  intros Hh. unfold scheduleAutoDismiss. branches; [|reflexivity].
  now rewrite lookup_insert_ne.
Qed.

(** *** A record that was flagged stays for the animation *)

Lemma late_insert x D tm h t :
  (targets x (callback t) = true -> D <= due t) ->
  late x D tm -> late x D (<[h := t]> tm).
Proof.
  intros Ht Hl h' t'. rewrite lookup_insert. case_decide.
  - intros [= <-]. exact Ht.
  - apply Hl.
Qed.

Lemma late_delete x D tm h : late x D tm -> late x D (delete h tm).
Proof.
  intros Hl h' t'. rewrite lookup_delete. case_decide; [discriminate|].
  apply Hl.
Qed.

Lemma fades_markId x i l : fades x l -> fades x (map (markId i) l).
Proof.
  intros (n & Hin & Hid & Hf). exists (markId i n). split.
  - now apply List.in_map.
  - unfold markId. destruct (String.eqb (id n) i); auto.
Qed.

Lemma fades_app x l n : fades x l -> fades x (l ++ [n])%list.
Proof.
  intros (m & Hin & Hid). exists m. split; [|exact Hid].
  apply List.in_or_app. now left.
Qed.

Lemma fades_filter x i l :
  String.eqb i x = false -> fades x l -> fades x (List.filter (otherThan i) l).
Proof.
  intros Hne (n & Hin & Hid & Hf). exists n. split; [|auto].
  apply List.filter_In. split; [exact Hin|].
  unfold otherThan. rewrite Hid, String.eqb_sym. now rewrite Hne.
Qed.

Lemma fades_oldest oldest l newNote :
  In oldest l ->
  fades (id oldest) (map (markId (id oldest)) l ++ [newNote])%list.
Proof.
  intros Hin. apply fades_app. exists (markFading oldest). split.
  - apply List.in_map_iff. exists oldest. split; [|exact Hin].
    unfold markId. now rewrite String.eqb_refl.
  - split; reflexivity.
Qed.

(** The first element a filter keeps, and what comes before it. *)
Lemma filter_head {A : Type} (P : A -> bool) (l : list A) (x : A)
    (r : list A) :
  List.filter P l = x :: r ->
  exists before after,
    l = (before ++ x :: after)%list /\
    Forall (fun y => P y = false) before /\ P x = true.
Proof.
  induction l as [|a l IH]; simpl; intros H; [discriminate|].
  destruct (P a) eqn:E.
  - injection H as -> _. exists [], l. repeat split; auto.
  - destruct (IH H) as (before & after & -> & Hb & Hx).
    exists (a :: before), after. repeat split; auto.
Qed.

(** The goals a step leaves: the table of timers after insertions and
    deletions, the queue after a mapping, an append or a filter. *)
Ltac stays_goal :=
  lazymatch goal with
  | |- late _ _ (<[_ := _]> _) =>
      apply late_insert;
      [simpl; intros; try discriminate; lia | stays_goal]
  | |- late _ _ (delete _ _) => apply late_delete; stays_goal
  | |- late _ _ _ => assumption
  | H : ((id ?n =? ?x)%string = true -> _ <= ?d), Hd : ?d <= _
    |- _ < _ -> fades ?x (List.filter (otherThan (id ?n)) _) =>
      let Hlt := fresh "Hlt" in
      let E := fresh "E" in
      intros Hlt; destruct (String.eqb (id n) x) eqn:E;
      [specialize (H eq_refl); lia | apply fades_filter; auto]
  | |- _ < _ -> fades _ _ =>
      let Hlt := fresh "Hlt" in
      intros Hlt; auto using fades_markId, fades_app
  | |- _ <= _ => lia
  | |- _ => idtac
  end.

Lemma stays_fire p x t0 h t :
  stays x t0 (t0 + Z.max 0 (animationDuration p)) t ->
  stays x t0 (t0 + Z.max 0 (animationDuration p)) (fire p h t).
Proof.
  intros (Hnow & Hlate & Hholds). unfold fire.
  destruct (timers t !! h) as [tm|] eqn:Eh; [|repeat split; assumption].
  destruct (due tm <=? now t) eqn:Edue; [|repeat split; assumption].
  apply Z.leb_le in Edue.
  pose proof (Hlate h tm Eh) as Hthis.
  destruct tm as [d cb]. simpl in *.
  destruct cb; simpl in *; unfold addGeneratedNote_start; unfold_ops; branches;
    unfold stays; simpl; repeat split; stays_goal.
Qed.

Lemma stays_insertGenerated p x t0 newNote t t' :
  stays x t0 (t0 + Z.max 0 (animationDuration p)) t ->
  insertGenerated p newNote t = Some t' ->
  stays x t0 (t0 + Z.max 0 (animationDuration p)) t'.
Proof.
  intros (Hnow & Hlate & Hholds) Hins.
  unfold_ops; branches; unfold stays; simpl; repeat split; stays_goal.
Qed.

Lemma late_insertGenerated p x t0 newNote t t' :
  t0 <= now t ->
  late x (t0 + Z.max 0 (animationDuration p)) (timers t) ->
  insertGenerated p newNote t = Some t' ->
  t0 <= now t' /\ late x (t0 + Z.max 0 (animationDuration p)) (timers t').
Proof.
  intros Hnow Hlate Hins.
  unfold_ops; branches; simpl; split; stays_goal.
Qed.

Lemma stays_handleManualDismiss p x t0 note t :
  stays x t0 (t0 + Z.max 0 (animationDuration p)) t ->
  stays x t0 (t0 + Z.max 0 (animationDuration p)) (handleManualDismiss p note t).
Proof.
  intros (Hnow & Hlate & Hholds).
  unfold_ops; branches; unfold stays; simpl; repeat split; stays_goal.
Qed.

Lemma prunes_refl s : prunes s s.
Proof. repeat split; auto. Qed.

Lemma prunes_clearTimeout s s' h :
  prunes s s' -> prunes s (window_clearTimeout h s').
Proof.
  intros (Hn & Hq & Ht). repeat split; simpl; auto.
  intros h' t. rewrite lookup_delete. case_decide; [discriminate|]. apply Ht.
Qed.

Lemma prunes_clearAll s s' : prunes s s' -> prunes s (clearAllNoteTimeouts s').
Proof.
  intros H. unfold clearAllNoteTimeouts.
  assert (Hf : prunes s (fold_left (fun acc t => window_clearTimeout t acc)
                           (map snd (map_to_list (dismissTimeouts s'))) s')).
  { apply (fold_left_preserves _ (prunes s)); [|exact H].
    intros acc t. apply prunes_clearTimeout. }
  exact Hf.
Qed.

Lemma prunes_unmount p s : prunes s (unmount p s).
Proof.
  unfold unmount.
  assert (H1 : prunes s (stopGenerator p s)).
  { unfold stopGenerator. branches;
      repeat first [apply prunes_clearTimeout | apply prunes_refl]. }
  assert (H2 : prunes s (cleanupTimers (stopGenerator p s))).
  { unfold cleanupTimers. apply prunes_clearAll.
    branches; repeat first [apply prunes_clearTimeout | exact H1]. }
  exact H2.
Qed.

Lemma stays_prunes x t0 D s s' : prunes s s' -> stays x t0 D s -> stays x t0 D s'.
Proof.
  intros (Hn & Hq & Ht) (Hnow & Hlate & Hholds). unfold stays.
  rewrite Hn, Hq. repeat split; auto.
  intros h t Hh. apply (Hlate h t), Ht, Hh.
Qed.

Lemma stays_step p x t0 e t t' :
  stays x t0 (t0 + Z.max 0 (animationDuration p)) t ->
  keepsQueue e -> step p t e = Some t' ->
  stays x t0 (t0 + Z.max 0 (animationDuration p)) t'.
Proof.
  intros Hs He Hstep. destruct e; simpl in Hstep.
  - injection Hstep as <-. destruct Hs as (Hnow & Hlate & Hholds).
    unfold stays. simpl. repeat split; [lia | exact Hlate |].
    intros Hlt. apply Hholds. lia.
  - injection Hstep as <-. apply stays_fire, Hs.
  - unfold addGeneratedNote_resume in Hstep.
    destruct (pendingGenerations t) as [|k];
      [injection Hstep as <-; exact Hs|].
    destruct (mounted t); [|injection Hstep as <-; exact Hs].
    eapply stays_insertGenerated; [|exact Hstep]. exact Hs.
  - injection Hstep as <-. unfold addGeneratedNote_rejected.
    destruct (pendingGenerations t); exact Hs.
  - destruct (mounted t); [|injection Hstep as <-; exact Hs].
    destruct (notes t !! i) as [note|]; injection Hstep as <-; [|exact Hs].
    apply stays_handleManualDismiss, Hs.
  - destruct notifications as [|n l]; [|destruct He].
    destruct (mounted t); injection Hstep as <-; exact Hs.
  - destruct (mounted t); injection Hstep as <-; [|exact Hs].
    eapply stays_prunes; [apply prunes_unmount | exact Hs].
Qed.

Lemma stays_run p x t0 es : forall t t',
  stays x t0 (t0 + Z.max 0 (animationDuration p)) t ->
  Forall keepsQueue es -> run p t es = Some t' ->
  stays x t0 (t0 + Z.max 0 (animationDuration p)) t'.
Proof.
  induction es as [|e es IH]; intros t t' Hs Hes Hrun; simpl in Hrun.
  - injection Hrun as <-. exact Hs.
  - destruct (step p t e) as [t1|] eqn:E; [|discriminate].
    inversion Hes as [|? ? He Hes']; subst.
    eapply IH; [eapply stays_step; eauto | exact Hes' | exact Hrun].
Qed.

(** The eviction branch of the updater, in a state whose handles are
    fresh: what it returns and the timer it leaves behind. *)
Lemma insertGenerated_evicts p newNote s oldest rest :
  hostInv s ->
  nonFading (notes s) = oldest :: rest ->
  maxNotifications p <= Z.of_nat (length (oldest :: rest)) ->
  exists s',
    insertGenerated p newNote s = Some s' /\
    notes s' = (map (markId (id oldest)) (notes s) ++ [newNote])%list /\
    timers s !! nextHandle s = None /\
    timers s' !! nextHandle s =
      Some {| due := now s + Z.max 0 (animationDuration p);
              callback := RemoveEvicted oldest |}.
Proof.
  intros [Hm Ht] Enf Hmax.
  unfold insertGenerated. rewrite Enf.
  apply Z.leb_le in Hmax. rewrite Hmax.
  eexists. split; [reflexivity|].
  split; [reflexivity|].
  split; [apply Ht; lia|].
  cbn [timers set_notes].
  rewrite timers_scheduleAutoDismiss.
  - destruct (dismissTimeouts _ !! id oldest) as [t|] eqn:Et; simpl in Et.
    + specialize (Hm _ _ Et).
      destruct (truthy t); simpl.
      * rewrite lookup_delete_ne by lia. apply lookup_insert_eq.
      * apply lookup_insert_eq.
    + simpl. apply lookup_insert_eq.
  - destruct (dismissTimeouts _ !! id oldest) as [t|]; simpl;
      [destruct (truthy t); simpl|]; lia.
Qed.

(** C4, as amended.  A generated insertion into a queue whose records
    that are not fading out number at least [maxNotifications] keeps
    every record: in the one update the oldest record that is not fading
    out (the first of the queue whose flag is not set), with every record
    of its identifier, gets [fadingOut: true], every other record is as
    it was, and the new record is appended at the tail.  The update
    leaves a fresh timer for the removal, due one animation duration
    later; before that time the host cannot run it, and when it runs it
    deletes the records of that identifier and no other.  When no removal
    of that identifier was already pending, then whatever happens next,
    short of a wholesale replacement of the queue by the caller, a record
    of that identifier that is fading out is in the queue at every time
    before the removal is due. *)
Theorem eviction_fades_then_removes p notifications es s d oldest rest :
  run p (mount p notifications) es = Some s ->
  mounted s = true ->
  pendingGenerations s <> 0%nat ->
  nonFading (notes s) = oldest :: rest ->
  maxNotifications p <= Z.of_nat (length (oldest :: rest)) ->
  let newNote :=
    Generator.generateNotification (customMessages p) (fixedUser p) d in
  let removal := {| due := now s + Z.max 0 (animationDuration p);
                    callback := RemoveEvicted oldest |} in
  exists s' h,
    step p s (Fulfil d) = Some s' /\
    (exists before after,
       notes s = (before ++ oldest :: after)%list /\
       Forall (fun n => fadingOut n = Some true) before /\
       fadingOut oldest <> Some true) /\
    notes s' =
      (map (fun n =>
              if String.eqb (id n) (id oldest)
              then {| id := id n; user := user n; message := message n;
                      timestamp := timestamp n; priority := priority n;
                      type := type n; fadingOut := Some true |}
              else n) (notes s) ++ [newNote])%list /\
    timers s !! h = None /\
    timers s' !! h = Some removal /\
    (forall t, timers t !! h = Some removal -> now t < due removal ->
               fire p h t = t) /\
    (forall t, timers t !! h = Some removal -> due removal <= now t ->
               mounted t = true ->
               notes (fire p h t) =
                 List.filter (fun n => negb (String.eqb (id n) (id oldest)))
                   (notes t)) /\
    (noRemovalPending (id oldest) s ->
     forall es' t,
       Forall keepsQueue es' -> run p s' es' = Some t ->
       now t < due removal -> fades (id oldest) (notes t)).
Proof.
  intros Hrun Hmounted Hpending Enf Hmax newNote removal.
  assert (Hinv : hostInv s)
    by (eapply hostInv_run; [apply hostInv_mount | exact Hrun]).
  destruct (pendingGenerations s) as [|k] eqn:Ek; [congruence|].
  destruct (insertGenerated_evicts p newNote (set_generating false k s)
              oldest rest Hinv Enf Hmax) as (s' & Hins & Hnotes & Hfresh & Htimer).
  assert (Hin : In oldest (notes s)).
  { assert (Hin : In oldest (nonFading (notes s)))
      by (rewrite Enf; now left).
    apply List.filter_In in Hin as [Hin _]. exact Hin. }
  exists s', (nextHandle s).
  split.
  { simpl. unfold addGeneratedNote_resume. rewrite Ek, Hmounted. exact Hins. }
  split.
  { destruct (filter_head _ _ _ _ Enf) as (before & after & E & Hb & Ho).
    exists before, after. split; [exact E|]. split.
    - eapply Forall_impl; [exact Hb|]. intros n Hn. simpl in Hn.
      unfold isFading in Hn.
      destruct (fadingOut n) as [[|]|]; [reflexivity|discriminate..].
    - intros Hf. simpl in Ho. unfold isFading in Ho. rewrite Hf in Ho.
      discriminate. }
  split; [exact Hnotes|].
  split; [exact Hfresh|].
  split; [exact Htimer|].
  split.
  { intros t Ht Hnow. unfold fire. rewrite Ht.
    apply Z.leb_gt in Hnow. now rewrite Hnow. }
  split.
  { intros t Ht Hnow Hmt. unfold fire. rewrite Ht.
    apply Z.leb_le in Hnow. rewrite Hnow. simpl.
    unfold removeEvicted. simpl. rewrite Hmt.
    unfold call_onNotificationDismiss.
    destruct (onNotificationDismiss p); simpl;
      match goal with |- notes (clearNoteTimeout ?i ?x) = _ =>
        destruct (core_fields _ _ (core_clearNoteTimeout i x)) as (-> & _)
      end; reflexivity. }
  intros Hquiet es' t Hes' Hrun' Hnow.
  assert (Hs' : stays (id oldest) (now s)
                  (now s + Z.max 0 (animationDuration p)) s').
  { destruct (late_insertGenerated p (id oldest) (now s) newNote
                (set_generating false k s) s') as (Hn' & Hl').
    - simpl. lia.
    - intros h' t' Ht' Htarget. simpl in Ht'.
      rewrite (Hquiet h' t' Ht') in Htarget. discriminate.
    - exact Hins.
    - split; [exact Hn'|]. split; [exact Hl'|].
      intros _. rewrite Hnotes. apply fades_oldest. exact Hin. }
  destruct (stays_run p _ _ es' _ _ Hs' Hes' Hrun') as (_ & _ & Hfades).
  apply Hfades. exact Hnow.
Qed.

Lemma eviction_fades_then_removes_witness :
  exists s s' t,
    run scenarioProps
      (mount scenarioProps [sample "A"; sample "B"; sample "C"])
      [Elapse 900; Fire 2] = Some s /\
    step scenarioProps s (Fulfil (sampleDraws "D")) = Some s' /\
    map (fun n => (id n, fadingOut n)) (notes s') =
      [("A", Some true); ("B", None); ("C", None); ("D", None)] /\
    run scenarioProps s' [Elapse 799; Fire 3; ClickDismiss 1] = Some t /\
    fades "A" (notes t).
Proof.
  assert (Hrun : exists s,
             run scenarioProps
               (mount scenarioProps [sample "A"; sample "B"; sample "C"])
               [Elapse 900; Fire 2] = Some s /\
             mounted s = true /\ pendingGenerations s <> 0%nat /\
             nonFading (notes s) = [sample "A"; sample "B"; sample "C"] /\
             map_to_list (timers s)
             = [(1%nat, {| due := 3500; callback := IntervalTick |})]).
  { eexists. split; [vm_compute; reflexivity|].
    split; [vm_compute; reflexivity|].
    split; [vm_compute; discriminate|].
    split; vm_compute; reflexivity. }
  destruct Hrun as (s & Hrun & Hm & Hp & Hnf & Htm).
  destruct (eviction_fades_then_removes _ _ _ s (sampleDraws "D") _ _
              Hrun Hm Hp Hnf)
    as (s' & h & Hstep & _ & _ & _ & _ & _ & _ & Hstay).
  { vm_compute. discriminate. }
  assert (Hq : noRemovalPending (id (sample "A")) s).
  { intros h' t' Ht'. apply elem_of_map_to_list in Ht'.
    rewrite Htm in Ht'. apply list_elem_of_singleton in Ht'.
    injection Ht' as -> ->. reflexivity. }
  specialize (Hstay Hq [Elapse 799; Fire 3; ClickDismiss 1]).
  clear Hm Hp Hnf Htm Hq.
  vm_compute in Hrun. injection Hrun as <-.
  vm_compute in Hstep. injection Hstep as <-.
  eexists. eexists. eexists.
  split; [vm_compute; reflexivity|].
  split; [vm_compute; reflexivity|].
  split; [vm_compute; reflexivity|].
  split; [vm_compute; reflexivity|].
  apply Hstay.
  - repeat constructor.
  - vm_compute. reflexivity.
  - vm_compute. reflexivity.
Defined.

(** C4 as stated fails: the evicted record does not always stay for the
    animation.  A, the oldest of three records, is evicted at 900 ms and
    its removal is due at 1700 ms; the caller supplies the batch [Y] at
    1000 ms, the queue becomes that batch, and A is gone 100 ms after it
    was flagged. *)
Lemma eviction_cut_short_by_supplied_batch :
  exists s1 s2,
    run scenarioProps
      (mount scenarioProps [sample "A"; sample "B"; sample "C"])
      [Elapse 900; Fire 2; Fulfil (sampleDraws "D")] = Some s1 /\
    now s1 = 900 /\
    map (fun n => (id n, fadingOut n)) (notes s1) =
      [("A", Some true); ("B", None); ("C", None); ("D", None)] /\
    timers s1 !! 3%nat =
      Some {| due := 1700; callback := RemoveEvicted (sample "A") |} /\
    run scenarioProps s1 [Elapse 100; Supply [sample "Y"]] = Some s2 /\
    now s2 = 1000 /\
    now s2 < 900 + animationDuration scenarioProps /\
    ~ (exists n, In n (notes s2) /\ id n = "A").
Proof.
  eexists. eexists.
  split; [vm_compute; reflexivity|].
  split; [vm_compute; reflexivity|].
  split; [vm_compute; reflexivity|].
  split; [vm_compute; reflexivity|].
  split; [vm_compute; reflexivity|].
  split; [vm_compute; reflexivity|].
  split; [vm_compute; reflexivity|].
  intros (n & Hin & Hid). vm_compute in Hin.
  destruct Hin as [<- | []]. discriminate.
Qed.

(** A removal that a batch did not cancel cuts the animation short as
    well.  Capacity 1, queue [X]: the dismiss button of X is clicked at
    100 ms (removal due at 900 ms) and the caller supplies [X] again.  At
    900 ms the first generation fulfils, X is flagged and B appended,
    with the eviction's removal due at 1700 ms; the removal the click
    left runs at once and X is deleted the instant it was flagged.  The
    callback is called for X then, and again at 1700 ms. *)
Example eviction_cut_short_by_stale_removal :
  exists s1 s2 s3,
    run singleProps (mount singleProps [sample "X"])
      [Elapse 100; ClickDismiss 0; Supply [sample "X"]; Elapse 800; Fire 2;
       Fulfil (sampleDraws "B")] = Some s1 /\
    now s1 = 900 /\
    map (fun n => (id n, fadingOut n)) (notes s1) =
      [("X", Some true); ("B", None)] /\
    timers s1 !! 6%nat =
      Some {| due := 1700; callback := RemoveEvicted (sample "X") |} /\
    timers s1 !! 4%nat =
      Some {| due := 900; callback := RemoveManual (sample "X") |} /\
    step singleProps s1 (Fire 4) = Some s2 /\
    now s2 = 900 /\
    map id (notes s2) = ["B"] /\
    map id (dismissLog s2) = ["X"] /\
    run singleProps s2 [Elapse 800; Fire 6] = Some s3 /\
    map id (dismissLog s3) = ["X"; "X"].
Proof.
  eexists. eexists. eexists.
  split; [vm_compute; reflexivity|].
  split; [vm_compute; reflexivity|].
  split; [vm_compute; reflexivity|].
  split; [vm_compute; reflexivity|].
  split; [vm_compute; reflexivity|].
  split; [vm_compute; reflexivity|].
  split; [vm_compute; reflexivity|].
  split; [vm_compute; reflexivity|].
  split; [vm_compute; reflexivity|].
  split; vm_compute; reflexivity.
Qed.

(** The scenario in full: D is inserted, A fades; one animation duration
    later A is gone and the callback was called once, for A. *)
Example eviction_scenario :
  exists s1 s2,
    run scenarioProps
      (mount scenarioProps [sample "A"; sample "B"; sample "C"])
      [Elapse 900; Fire 2; Fulfil (sampleDraws "D")] = Some s1 /\
    map (fun n => (id n, isFading n)) (notes s1) =
      [("A", true); ("B", false); ("C", false); ("D", false)] /\
    run scenarioProps s1 [Elapse 800; Fire 3] = Some s2 /\
    map id (notes s2) = ["B"; "C"; "D"] /\
    map id (dismissLog s2) = ["A"].
Proof.
  eexists. eexists.
  split; [vm_compute; reflexivity|].
  split; [vm_compute; reflexivity|].
  split; [vm_compute; reflexivity|].
  split; vm_compute; reflexivity.
Qed.

(** ** The fallback of [fetchRandomUser] *)

Lemma get_None v k : get v k = None <-> nullish v = true.
Proof.
  destruct v as [[| | | | |]|]; simpl; split; try congruence;
    destruct k as [?|[|?]]; simpl; congruence.
Qed.

Lemma get_getOptional v k :
  nullish v = false -> get v k = Some (getOptional v k).
Proof.
  intros Hv. unfold getOptional.
  destruct (get v k) eqn:E; [reflexivity|].
  apply get_None in E. congruence.
Qed.

Lemma getOptional_nullish v k : nullish v = true -> getOptional v k = None.
Proof.
  intros Hv. unfold getOptional. apply get_None with (k := k) in Hv.
  now rewrite Hv.
Qed.

Lemma getOptional_defined v k j :
  getOptional v k = Some j -> nullish v = false.
Proof.
  intros H. destruct (nullish v) eqn:E; [|reflexivity].
  rewrite (getOptional_nullish v k E) in H. discriminate.
Qed.

Lemma fallback_name_in_list rName rHue :
  In (name (fetchRandomUser_catch rName rHue)) names.
Proof.
  unfold fetchRandomUser_catch. cbn [name].
  change (floorRandom rName (length names)) with (rName mod 5)%nat.
  assert (Hlt : (rName mod 5 < 5)%nat) by (apply Nat.mod_upper_bound; lia).
  destruct (rName mod 5)%nat as [|[|[|[|[|k]]]]]; [..|lia];
    cbn; auto 10.
Qed.

(** C7, as amended.  [fetchRandomUser] always returns a user: whatever
    the [try] block raises is caught.  When the request fails, the parse
    fails, or [results[0].name] cannot be read from the response, the user
    is the fallback one, named from the fixed local list.  A response
    whose [results[0].name] has the strings [first] and [last] yields the
    user of that name, with the avatar [results[0].picture?.large],
    present or not. *)
Theorem fetchRandomUser_fallback o rName rHue :
  (fetchRandomUser_try o rHue = None ->
   fetchRandomUser o rName rHue = fetchRandomUser_catch rName rHue) /\
  (forall u, fetchRandomUser_try o rHue = Some u ->
             fetchRandomUser o rName rHue = u) /\
  (unusable o ->
   fetchRandomUser o rName rHue = fetchRandomUser_catch rName rHue) /\
  In (name (fetchRandomUser_catch rName rHue)) names /\
  (forall data f l,
     o = JsonParsed data ->
     lookupPath data [KName "results"; KIndex 0; KName "name"; KName "first"]
       = Some (JStr f) ->
     lookupPath data [KName "results"; KIndex 0; KName "name"; KName "last"]
       = Some (JStr l) ->
     fetchRandomUser o rName rHue =
       {| avatarUrl :=
            lookupPath data
              [KName "results"; KIndex 0; KName "picture"; KName "large"];
          name := f ++ " " ++ l;
          initials := None;
          color := Some (randomColor rHue) |}).
Proof.
  split; [unfold fetchRandomUser; now intros ->|].
  split; [unfold fetchRandomUser; now intros u ->|].
  split; [|split; [apply fallback_name_in_list|]].
  - intros Hu. unfold fetchRandomUser.
    enough (fetchRandomUser_try o rHue = None) as -> by reflexivity.
    destruct o as [| |data]; try reflexivity.
    simpl in Hu. unfold lookupPath in Hu. simpl in Hu.
    unfold fetchRandomUser_try.
    destruct (get (Some data) (KName "results")) as [results|] eqn:E1;
      [|reflexivity].
    simpl. destruct (get results (KIndex 0)) as [user|] eqn:E2; [|reflexivity].
    simpl. destruct (get user (KName "picture")) as [picture|] eqn:E3;
      [|reflexivity].
    simpl. destruct (get user (KName "name")) as [userName|] eqn:E4;
      [|reflexivity].
    simpl.
    unfold getOptional in Hu. rewrite E1, E2, E4 in Hu.
    apply (get_None _ (KName "first")) in Hu. now rewrite Hu.
  - intros data f l -> Hf Hl. unfold lookupPath in *. simpl in *.
    set (results := getOptional (Some data) (KName "results")) in *.
    set (user := getOptional results (KIndex 0)) in *.
    set (userName := getOptional user (KName "name")) in *.
    assert (Hn : nullish userName = false)
      by (eapply getOptional_defined; exact Hf).
    assert (Hus : nullish user = false).
    { destruct (nullish user) eqn:E; [|reflexivity].
      subst userName. rewrite (getOptional_nullish _ _ E) in Hn. discriminate. }
    assert (Hr : nullish results = false).
    { destruct (nullish results) eqn:E; [|reflexivity].
      subst user. rewrite (getOptional_nullish _ _ E) in Hus. discriminate. }
    assert (Hd : nullish (Some data) = false).
    { destruct (nullish (Some data)) eqn:E; [|reflexivity].
      subst results. rewrite (getOptional_nullish _ _ E) in Hr. discriminate. }
    unfold fetchRandomUser, fetchRandomUser_try.
    rewrite (get_getOptional _ (KName "results") Hd). simpl.
    fold results.
    rewrite (get_getOptional _ (KIndex 0) Hr). simpl. fold user.
    rewrite (get_getOptional _ (KName "picture") Hus). simpl.
    rewrite (get_getOptional _ (KName "name") Hus). simpl. fold userName.
    rewrite (get_getOptional _ (KName "first") Hn). simpl. rewrite Hf. simpl.
    rewrite (get_getOptional _ (KName "last") Hn). simpl. rewrite Hl. simpl.
    reflexivity.
Qed.

Lemma fetchRandomUser_fallback_witness :
  In (name (fetchRandomUser FetchRejected 7 400)) names.
Proof.
  destruct (fetchRandomUser_fallback FetchRejected 7 400)
    as (_ & _ & Hu & Hin & _).
  rewrite (Hu I). exact Hin.
Defined.

(** C7 as stated fails: a response that lacks [picture.large] is missing
    an expected field, and yet the user keeps the fetched name. *)
Lemma fetchRandomUser_keeps_name_without_picture :
  ~ (forall o rName rHue,
       fetchFails o -> In (name (fetchRandomUser o rName rHue)) names).
Proof.
  intros H.
  assert (Hf : fetchFails (JsonParsed responseWithoutPicture))
    by (vm_compute; reflexivity).
  specialize (H _ 0%nat 0%nat Hf). vm_compute in H.
  repeat (destruct H as [H|H]; [discriminate H|]). exact H.
Qed.

(** ** The context guards *)

Ltac guard_cases :=
  repeat match goal with
         | o : option _ |- _ => destruct o
         | b : bool |- _ => destruct b
         | |- context [isValidElement ?c] => destruct (isValidElement c)
         end;
  cbv [useSidebar SidebarMenuButton useDrawerContext useMenubarContext
       DropdownMenuTrigger DropdownMenuContent DropdownMenuItem
       CollapsibleTrigger CollapsibleContent PopoverTrigger PopoverContent
       TooltipTrigger TooltipContentDisplay AccordionTrigger AccordionContent
       guarded useContext asChildOnly Children_only throws];
  repeat split; intros; try congruence; try tauto; try discriminate.

(** C9, as amended.  Each function of the library that reads a context
    throws its own "must be used within" error exactly when the provider
    is absent, and it does so before anything else.  For the functions
    whose remainder throws nothing, that is the only way they throw.  The
    triggers that take [asChild] through [React.Children.only]
    ([DropdownMenuTrigger], [SidebarMenuButton]) also throw, inside their
    provider, when [asChild] is set and [children] is not one element. *)
Theorem context_guards {C I V : Type} (rest : C -> V) (rest2 : C -> I -> V)
    (provider : option C) (itemProvider : option I)
    (asChild : bool) (children : ReactNode) :
  (useSidebar provider
     = Throws (Error "useSidebar must be used within a SidebarProvider")
   <-> provider = None) /\
  (throws (useSidebar provider) <-> provider = None) /\
  (useDrawerContext provider
     = Throws (Error "useDrawerContext must be used within a Drawer")
   <-> provider = None) /\
  (throws (useDrawerContext provider) <-> provider = None) /\
  (useMenubarContext provider
     = Throws (Error "useMenubarContext must be used within a MenubarProvider")
   <-> provider = None) /\
  (throws (useMenubarContext provider) <-> provider = None) /\
  (DropdownMenuContent rest provider
     = Throws (Error "DropdownMenuContent must be used within a DropdownMenu")
   <-> provider = None) /\
  (throws (DropdownMenuContent rest provider) <-> provider = None) /\
  (DropdownMenuItem rest provider
     = Throws (Error "DropdownMenuItem must be used within a DropdownMenu")
   <-> provider = None) /\
  (throws (DropdownMenuItem rest provider) <-> provider = None) /\
  (CollapsibleTrigger rest provider
     = Throws (Error "CollapsibleTrigger must be used within a Collapsible")
   <-> provider = None) /\
  (throws (CollapsibleTrigger rest provider) <-> provider = None) /\
  (CollapsibleContent rest provider
     = Throws (Error "CollapsibleContent must be used within a Collapsible")
   <-> provider = None) /\
  (throws (CollapsibleContent rest provider) <-> provider = None) /\
  (PopoverTrigger rest provider
     = Throws (Error "PopoverTrigger must be used within a Popover")
   <-> provider = None) /\
  (throws (PopoverTrigger rest provider) <-> provider = None) /\
  (PopoverContent rest provider
     = Throws (Error "PopoverContent must be used within a Popover")
   <-> provider = None) /\
  (throws (PopoverContent rest provider) <-> provider = None) /\
  (TooltipTrigger rest provider
     = Throws (Error "TooltipTrigger must be used within a Tooltip")
   <-> provider = None) /\
  (throws (TooltipTrigger rest provider) <-> provider = None) /\
  (TooltipContentDisplay rest provider
     = Throws (Error "TooltipContentDisplay must be used within a Tooltip")
   <-> provider = None) /\
  (throws (TooltipContentDisplay rest provider) <-> provider = None) /\
  (AccordionTrigger rest2 provider itemProvider
     = Throws (Error "AccordionTrigger must be used within an Accordion")
   <-> provider = None) /\
  (AccordionTrigger rest2 provider itemProvider
     = Throws (Error "AccordionTrigger must be used within an AccordionItem")
   <-> provider <> None /\ itemProvider = None) /\
  (throws (AccordionTrigger rest2 provider itemProvider)
   <-> provider = None \/ itemProvider = None) /\
  (AccordionContent rest2 provider itemProvider
     = Throws (Error "AccordionContent must be used within an Accordion")
   <-> provider = None) /\
  (AccordionContent rest2 provider itemProvider
     = Throws (Error "AccordionContent must be used within an AccordionItem")
   <-> provider <> None /\ itemProvider = None) /\
  (throws (AccordionContent rest2 provider itemProvider)
   <-> provider = None \/ itemProvider = None) /\
  (DropdownMenuTrigger provider asChild children
     = Throws (Error "DropdownMenuTrigger must be used within a DropdownMenu")
   <-> provider = None) /\
  (throws (DropdownMenuTrigger provider asChild children)
   <-> provider = None \/ (asChild = true /\ isValidElement children = false)) /\
  (SidebarMenuButton provider asChild children
     = Throws (Error "useSidebar must be used within a SidebarProvider")
   <-> provider = None) /\
  (throws (SidebarMenuButton provider asChild children)
   <-> provider = None \/ (asChild = true /\ isValidElement children = false)).
Proof.
  destruct (isValidElement children) eqn:Echildren; guard_cases;
    rewrite ?Echildren in *; simpl in *;
    try congruence; try tauto; try discriminate; intuition congruence.
Qed.

(** C9 as stated fails for [DropdownMenuTrigger]: inside its provider,
    with [asChild] and two children, it throws. *)
Lemma trigger_throws_inside_provider :
  ~ (forall (C : Type) (provider : option C) asChild children,
       throws (DropdownMenuTrigger provider asChild children)
       <-> provider = None).
Proof.
  intros H.
  destruct (H unit (Some tt) true twoChildren) as [Habsent _].
  specialize (Habsent I). discriminate Habsent.
Qed.

(** ** Dismissal: where the code departs from the specification *)

(** The guarded path: [dismissNotification] on a record that is already
    fading out, or on an identifier that is not in the queue, changes
    nothing. *)
Lemma dismissNotification_fading_noop p i s :
  match List.find (fun n => String.eqb (id n) i) (notes s) with
  | Some note => isFading note = true
  | None => True
  end ->
  dismissNotification p i s = s.
Proof.
  unfold dismissNotification. destruct (mounted s); [|reflexivity].
  destruct (List.find _ (notes s)) as [note|]; [|reflexivity].
  now intros ->.
Qed.

(** C2 at its failing inputs.  The record X is dismissed by its timer at
    3000 ms and, while it fades, its dismiss button is clicked: both
    removals run and the callback is called twice for X.  The same holds
    for two clicks on the button. *)
Theorem dismissal_callback_fires_twice :
  (exists s,
     run manualProps (mount manualProps [sample "X"])
       [Elapse 3000; Fire 1; ClickDismiss 0; Elapse 800; Fire 2; Fire 3]
     = Some s /\
     notes s = [] /\ map_to_list (timers s) = [] /\
     dismissCalls "X" s = 2%nat) /\
  (exists s,
     run manualProps (mount manualProps [sample "X"])
       [Elapse 1000; ClickDismiss 0; ClickDismiss 0; Elapse 800; Fire 2; Fire 3]
     = Some s /\
     notes s = [] /\ map_to_list (timers s) = [] /\
     dismissCalls "X" s = 2%nat).
Proof.
  split; eexists;
    (split; [vm_compute; reflexivity|]);
    (split; [vm_compute; reflexivity|]);
    split; vm_compute; reflexivity.
Qed.

(** C3 at its failing input.  X is fading out after its timer dismissed
    it; a click on its dismiss button is not ignored: it leaves a second
    removal timer, and once both timers have run the callback was called
    twice. *)
Theorem manual_dismiss_of_fading_record_schedules_again :
  exists s s' s'',
    run manualProps (mount manualProps [sample "X"]) [Elapse 3000; Fire 1]
    = Some s /\
    map isFading (notes s) = [true] /\
    step manualProps s (ClickDismiss 0) = Some s' /\
    timers s !! 3%nat = None /\
    timers s' !! 3%nat =
      Some {| due := 3800; callback := RemoveManual (markFading (sample "X")) |} /\
    run manualProps s' [Elapse 800; Fire 2; Fire 3] = Some s'' /\
    dismissCalls "X" s = 0%nat /\
    dismissCalls "X" s'' = 2%nat.
Proof.
  eexists. eexists. eexists.
  split; [vm_compute; reflexivity|].
  split; [vm_compute; reflexivity|].
  split; [vm_compute; reflexivity|].
  split; [vm_compute; reflexivity|].
  split; [vm_compute; reflexivity|].
  split; [vm_compute; reflexivity|].
  split; vm_compute; reflexivity.
Qed.

(** C5 at its failing inputs.  X is fading out when the caller supplies
    the batch [Y]: the removal timer of X stays pending, and when it runs
    the callback is called for X.  And when the caller supplies X again
    while the removal of an earlier click is pending, that removal deletes
    X from the new queue. *)
Theorem stale_removal_survives_replacement :
  (exists s1 s2 s3,
     run manualProps (mount manualProps [sample "X"]) [Elapse 3000; Fire 1]
     = Some s1 /\
     step manualProps s1 (Supply [sample "Y"]) = Some s2 /\
     timers s2 !! 2%nat =
       Some {| due := 3800; callback := RemoveDismissed (sample "X") |} /\
     run manualProps s2 [Elapse 800; Fire 2] = Some s3 /\
     map id (notes s2) = ["Y"] /\ map id (notes s3) = ["Y"] /\
     dismissLog s2 = [] /\ map id (dismissLog s3) = ["X"]) /\
  (exists s2 s3,
     run manualProps (mount manualProps [sample "X"])
       [ClickDismiss 0; Elapse 100; Supply [sample "X"]] = Some s2 /\
     notes s2 = [sample "X"] /\
     run manualProps s2 [Elapse 700; Fire 2] = Some s3 /\
     notes s3 = []).
Proof.
  split.
  - eexists. eexists. eexists.
    split; [vm_compute; reflexivity|].
    split; [vm_compute; reflexivity|].
    split; [vm_compute; reflexivity|].
    split; [vm_compute; reflexivity|].
    split; [vm_compute; reflexivity|].
    split; [vm_compute; reflexivity|].
    split; vm_compute; reflexivity.
  - eexists. eexists.
    split; [vm_compute; reflexivity|].
    split; [vm_compute; reflexivity|].
    split; vm_compute; reflexivity.
Qed.

(** C6 at its failing input.  A was evicted and its removal timer is
    pending when the component unmounts: the cleanup cancels the interval
    and the auto-dismiss timers, the removal timer stays, and when it runs
    the callback is called after the teardown. *)
Theorem removal_timer_survives_unmount :
  exists s1 s2 s3,
    run singleProps (mount singleProps [sample "A"])
      [Elapse 900; Fire 2; Fulfil (sampleDraws "B")] = Some s1 /\
    step singleProps s1 Unmount = Some s2 /\
    mounted s2 = false /\
    map_to_list (timers s2) =
      [(4%nat, {| due := 1700; callback := RemoveEvicted (sample "A") |})] /\
    run singleProps s2 [Elapse 800; Fire 4] = Some s3 /\
    dismissLog s2 = [] /\
    dismissLog s3 = [sample "A"].
Proof.
  eexists. eexists. eexists.
  split; [vm_compute; reflexivity|].
  split; [vm_compute; reflexivity|].
  split; [vm_compute; reflexivity|].
  split; [vm_compute; reflexivity|].
  split; [vm_compute; reflexivity|].
  split; vm_compute; reflexivity.
Qed.

(** * Further properties of the queue *)

(** ** The bookkeeping of handles *)

Ltac tidy_clauses :=
  unfold tidy;
  intros (Hn & Hm & Ht & Hir & Hft & Hreg & Hiv & Hfi & Hivc & Hfic);
  repeat match goal with |- _ /\ _ => split end.

(** Apply the clauses of the bookkeeping to the lookups at hand. *)
Ltac saturate :=
  repeat match goal with
         | Hb : forall i h, ?m !! i = Some h -> _,
           Hl : ?m !! ?i = Some ?h |- _ => learn_hyp (Hb i h Hl)
         | Hb : forall h t, ?tm !! h = Some t -> (_ <= _ < _)%nat,
           Hl : ?tm !! ?h = Some ?t |- _ => learn_hyp (Hb h t Hl)
         | Hb : forall h, ?r = Some h -> (_ <= _ < _)%nat,
           Hl : ?r = Some ?h |- _ => learn_hyp (Hb h Hl)
         | Hb : forall i h t, ?m !! i = Some h -> ?tm !! h = Some t -> _,
           H1 : ?m !! ?i = Some ?h, H2 : ?tm !! ?h = Some ?t |- _ =>
             learn_hyp (Hb i h t H1 H2)
         | Hb : forall h t, ?tm !! h = Some t -> callback t = ?c -> _,
           H1 : ?tm !! ?h = Some ?t, H2 : callback ?t = ?c |- _ =>
             learn_hyp (Hb h t H1 H2)
         | Hb : forall h t, ?r = Some h -> ?tm !! h = Some t -> _,
           H1 : ?r = Some ?h, H2 : ?tm !! ?h = Some ?t |- _ =>
             learn_hyp (Hb h t H1 H2)
         | Hb : forall h0, Some ?h = Some h0 -> (_ <= _ < _)%nat |- _ =>
             learn_hyp (Hb h eq_refl)
         | Hb : forall h0 t, Some ?h = Some h0 -> ?tm !! h0 = Some t -> _,
           H2 : ?tm !! ?h = Some ?t |- _ =>
             learn_hyp (Hb h t eq_refl H2)
         end.

Ltac tidy_auto :=
  intros;
  repeat match goal with
         | H : context [<[_ := _]> _ !! _] |- _ => rewrite lookup_insert in H
         | H : context [delete _ _ !! _] |- _ => rewrite lookup_delete in H
         | H : context [∅ !! _] |- _ => rewrite lookup_empty in H
         end;
  repeat case_decide; simplify_eq; simpl in *;
  saturate; destruct_and?; simplify_eq;
  try lia; try congruence; try tauto; try (split; congruence).

Lemma tidy_insert ag m ir ft tm n d cb :
  isTick cb = false ->
  tidy ag m ir ft tm n ->
  tidy ag m ir ft (<[n := {| due := d; callback := cb |}]> tm) (S n).
Proof. intros Hcb. tidy_clauses; tidy_auto. Qed.

Lemma tidy_delete ag m ir ft tm n h :
  tidy ag m ir ft tm n -> tidy ag m ir ft (delete h tm) n.
Proof. tidy_clauses; tidy_auto. Qed.

Lemma tidy_forget ag m ir ft tm n i :
  tidy ag m ir ft tm n -> tidy ag (delete i m) ir ft tm n.
Proof. tidy_clauses; tidy_auto. Qed.

Lemma tidy_empty ag m ir ft tm n :
  tidy ag m ir ft tm n -> tidy ag ∅ ir ft tm n.
Proof. tidy_clauses; tidy_auto. Qed.

Lemma tidy_schedule ag m ir ft tm n i d :
  tidy ag m ir ft tm n ->
  tidy ag (<[i := n]> m) ir ft
    (<[n := {| due := d; callback := AutoDismiss i |}]> tm) (S n).
Proof. tidy_clauses; tidy_auto. Qed.

Lemma tidy_rearm ag m ir ft tm n h t d :
  tm !! h = Some t -> callback t = IntervalTick ->
  tidy ag m ir ft tm n ->
  tidy ag m ir ft (<[h := {| due := d; callback := IntervalTick |}]> tm) n.
Proof. intros Hh Hcb. tidy_clauses; tidy_auto. Qed.

Lemma tidy_stop ag m ir ft tm n h :
  ir = Some h ->
  tidy ag m ir ft tm n -> tidy ag m None ft (delete h tm) n.
Proof. intros Eir. tidy_clauses; tidy_auto. Qed.

Create HintDb tidy.
#[local] Hint Resolve tidy_delete tidy_forget tidy_empty tidy_schedule : tidy.
#[local] Hint Extern 2 (tidy _ _ _ _ (<[_ := _]> _) (S _)) =>
  apply tidy_insert; [reflexivity|] : tidy.

Ltac tidy_ops :=
  unfold tidyInv in *; unfold_ops; branches; eauto 8 with tidy.

Lemma tidyInv_clearAll p s : tidyInv p s -> tidyInv p (clearAllNoteTimeouts s).
Proof.
  intros H. unfold clearAllNoteTimeouts.
  assert (Hf : tidyInv p (fold_left (fun acc t => window_clearTimeout t acc)
                            (map snd (map_to_list (dismissTimeouts s))) s)).
  { apply (fold_left_preserves _ (tidyInv p)); [|exact H].
    intros s' t Hs'. tidy_ops. }
  revert Hf. unfold tidyInv. simpl. apply tidy_empty.
Qed.

Lemma tidyInv_sync p l s : tidyInv p s -> tidyInv p (syncNotifications p l s).
Proof.
  intros H. destruct l as [|n l]; [exact H|].
  unfold syncNotifications.
  assert (H2 : tidyInv p (set_notes (n :: l) (clearAllNoteTimeouts s)))
    by (apply tidyInv_clearAll in H; exact H).
  case_match; [|exact H2].
  apply (fold_left_preserves _ (tidyInv p)); [|exact H2].
  intros s' a Hs'. tidy_ops.
Qed.

Lemma tidyInv_runCallback p cb s : tidyInv p s -> tidyInv p (runCallback p cb s).
Proof.
  intros H. destruct cb; simpl; unfold addGeneratedNote_start; tidy_ops.
Qed.

Lemma tidyInv_fire p h s : tidyInv p s -> tidyInv p (fire p h s).
Proof.
  intros H. unfold fire.
  destruct (timers s !! h) as [t|] eqn:Et; [|exact H].
  destruct (due t <=? now s); [|exact H].
  apply tidyInv_runCallback.
  unfold tidyInv in *. simpl.
  destruct (callback t) eqn:Ecb; eauto using tidy_rearm with tidy.
Qed.

Lemma tidyInv_insertGenerated p newNote s s' :
  tidyInv p s -> insertGenerated p newNote s = Some s' -> tidyInv p s'.
Proof. intros H Hins. tidy_ops. Qed.

Lemma tidyInv_handleManualDismiss p note s :
  tidyInv p s -> tidyInv p (handleManualDismiss p note s).
Proof. intros H. tidy_ops. Qed.

Lemma tidyInv_stopGenerator p s : tidyInv p s -> tidyInv p (stopGenerator p s).
Proof.
  intros H. unfold stopGenerator, tidyInv in *.
  branches;
    try match goal with E : intervalRef s = _ |- _ => rewrite E end;
    eauto using tidy_stop with tidy.
Qed.

Lemma tidyInv_unmount p s : tidyInv p s -> tidyInv p (unmount p s).
Proof.
  intros H. unfold unmount.
  apply tidyInv_stopGenerator in H.
  assert (H2 : tidyInv p (cleanupTimers (stopGenerator p s))).
  { unfold cleanupTimers. apply tidyInv_clearAll.
    revert H. generalize (stopGenerator p s). intros s1 H1.
    unfold tidyInv in *. branches;
      try match goal with E : intervalRef _ = _ |- _ => rewrite E end;
      eauto with tidy. }
  exact H2.
Qed.

Lemma tidyInv_mount p notifications : tidyInv p (mount p notifications).
Proof.
  unfold mount. apply tidyInv_sync.
  unfold startGenerator, tidyInv. simpl.
  destruct (autoGenerate p) eqn:Eag; simpl.
  - unfold tidy. repeat match goal with |- _ /\ _ => split end; intros *;
      rewrite ?lookup_insert, ?lookup_empty; repeat case_decide;
      intros; simplify_eq; simpl in *; try lia; try congruence; auto.
  - unfold tidy. repeat match goal with |- _ /\ _ => split end;
      intros *; rewrite ?lookup_empty;
      intros; simplify_eq; lia.
Qed.

Lemma tidyInv_step p s e s' :
  tidyInv p s -> step p s e = Some s' -> tidyInv p s'.
Proof.
  intros H Hstep. destruct e; simpl in Hstep.
  - injection Hstep as <-. exact H.
  - injection Hstep as <-. apply tidyInv_fire, H.
  - unfold addGeneratedNote_resume in Hstep.
    destruct (pendingGenerations s) as [|k];
      [injection Hstep as <-; exact H|].
    destruct (mounted s); [|injection Hstep as <-; exact H].
    eapply tidyInv_insertGenerated; [|exact Hstep]. exact H.
  - injection Hstep as <-. unfold addGeneratedNote_rejected.
    destruct (pendingGenerations s); exact H.
  - destruct (mounted s); [|injection Hstep as <-; exact H].
    destruct (notes s !! i) as [note|]; injection Hstep as <-; [|exact H].
    apply tidyInv_handleManualDismiss, H.
  - destruct (mounted s); injection Hstep as <-; [|exact H].
    apply tidyInv_sync, H.
  - destruct (mounted s); injection Hstep as <-; [|exact H].
    apply tidyInv_unmount, H.
Qed.

Lemma tidyInv_run p es : forall s s',
  tidyInv p s -> run p s es = Some s' -> tidyInv p s'.
Proof.
  induction es as [|e es IH]; intros s s' Hs Hrun; simpl in Hrun.
  - injection Hrun as <-. exact Hs.
  - destruct (step p s e) as [s1|] eqn:E; [|discriminate].
    eapply IH; [eapply tidyInv_step; eauto | exact Hrun].
Qed.

Lemma tidyInv_reachable p notifications es s :
  run p (mount p notifications) es = Some s -> tidyInv p s.
Proof. apply tidyInv_run, tidyInv_mount. Qed.

(** ** What the clearing of timers removes *)

Lemma timers_fold_clear l : forall s h,
  timers (fold_left (fun acc t => window_clearTimeout t acc) l s) !! h
  = if decide (h ∈ l) then None else timers s !! h.
Proof.
  induction l as [|a l IH]; intros s h; cbn [fold_left].
  - destruct (decide (h ∈ [])) as [E|E]; [|reflexivity].
    now apply elem_of_nil in E.
  - rewrite IH. unfold window_clearTimeout. cbn [timers set_timers].
    rewrite lookup_delete.
    destruct (decide (h ∈ l)) as [E1|E1],
             (decide (h ∈ a :: l)) as [E2|E2],
             (decide (a = h)) as [E3|E3]; subst; try reflexivity;
      rewrite elem_of_cons in E2; intuition congruence.
Qed.

Lemma frame_fold_clear l s :
  frame (fold_left (fun acc t => window_clearTimeout t acc) l s) = frame s /\
  dismissTimeouts (fold_left (fun acc t => window_clearTimeout t acc) l s)
  = dismissTimeouts s.
Proof.
  apply (fold_left_preserves _
           (fun s' => frame s' = frame s /\
                      dismissTimeouts s' = dismissTimeouts s)); auto.
Qed.

Lemma registered_spec s h :
  h ∈ registered s <-> exists i, dismissTimeouts s !! i = Some h.
Proof.
  unfold registered. rewrite list_elem_of_fmap. split.
  - intros ([i h'] & -> & Hin). exists i.
    now apply elem_of_map_to_list in Hin.
  - intros (i & Hi). exists (i, h). split; [reflexivity|].
    now apply elem_of_map_to_list.
Qed.

Lemma timers_clearAll s h :
  timers (clearAllNoteTimeouts s) !! h
  = if decide (h ∈ registered s) then None else timers s !! h.
Proof. unfold clearAllNoteTimeouts. simpl. apply timers_fold_clear. Qed.

Lemma frame_clearAll s : frame (clearAllNoteTimeouts s) = frame s.
Proof.
  unfold clearAllNoteTimeouts.
  destruct (frame_fold_clear (map snd (map_to_list (dismissTimeouts s))) s)
    as [Hf _].
  exact Hf.
Qed.

Lemma frame_fields s s' :
  frame s' = frame s ->
  notes s' = notes s /\ intervalRef s' = intervalRef s /\
  firstTimeout s' = firstTimeout s /\ isGenerating s' = isGenerating s /\
  mounted s' = mounted s /\ nextHandle s' = nextHandle s /\
  now s' = now s /\ pendingGenerations s' = pendingGenerations s /\
  dismissLog s' = dismissLog s.
Proof. unfold frame. intros H. injection H. intros. repeat split; auto. Qed.

(** The registering loop of the replacement. *)
Lemma sync_unfold p n l s :
  syncNotifications p (n :: l) s =
  if 0 <? autoDismissTimeout p
  then fold_left (registerEach p) (n :: l)
         (set_notes (n :: l) (clearAllNoteTimeouts s))
  else set_notes (n :: l) (clearAllNoteTimeouts s).
Proof. reflexivity. Qed.

Lemma registerEach_fold p l : forall acc,
  let s' := fold_left (registerEach p) l acc in
  nextHandle s' = (nextHandle acc + length l)%nat /\
  notes s' = notes acc /\ now s' = now acc /\
  intervalRef s' = intervalRef acc /\ firstTimeout s' = firstTimeout acc /\
  dismissLog s' = dismissLog acc /\ mounted s' = mounted acc /\
  (forall h, (h < nextHandle acc)%nat -> timers s' !! h = timers acc !! h) /\
  (forall i, i ∉ map id l -> dismissTimeouts s' !! i = dismissTimeouts acc !! i) /\
  (forall i, i ∈ map id l ->
     exists h, (nextHandle acc <= h)%nat /\
       dismissTimeouts s' !! i = Some h /\
       timers s' !! h =
         Some {| due := now acc + Z.max 0 (autoDismissTimeout p);
                 callback := AutoDismiss i |}).
Proof.
  induction l as [|a l IH]; intros acc; simpl.
  - repeat split; auto; try lia. intros i Hi. now apply elem_of_nil in Hi.
  - specialize (IH (registerEach p acc a)).
    destruct IH as (Hn & Hq & Hnow & Hir & Hft & Hlog & Hmt & Hold & Hkeep & Hnew).
    unfold registerEach in *. simpl in *.
    repeat split; auto; try lia.
    + intros h Hh. rewrite Hold by lia. now rewrite lookup_insert_ne by lia.
    + intros i Hi. rewrite not_elem_of_cons in Hi. destruct Hi as [Hne Hi].
      rewrite (Hkeep i Hi). now rewrite lookup_insert_ne.
    + intros i Hi.
      destruct (decide (i ∈ map id l)) as [Hin|Hnin].
      * destruct (Hnew i Hin) as (h & Hh & Hd & Ht).
        exists h. repeat split; auto. lia.
      * apply elem_of_cons in Hi as [->|Hi]; [|contradiction].
        exists (nextHandle acc). split; [lia|]. split.
        -- rewrite (Hkeep _ Hnin). apply lookup_insert_eq.
        -- rewrite Hold by lia. apply lookup_insert_eq.
Qed.

(** ** Removal timers are never cancelled *)

Ltac other_handle :=
  let E := fresh "E" in
  intros E; subst; saturate; destruct_and?; simplify_eq;
  first [ lia
        | congruence
        | match goal with
          | H1 : callback ?t = _, H2 : isRemoval (callback ?t) = true |- _ =>
              rewrite H1 in H2; discriminate H2
          end ].

Ltac keep_timer :=
  repeat first [ rewrite lookup_insert_ne by other_handle
               | rewrite lookup_delete_ne by other_handle ];
  try assumption.

Ltac open_tidy H :=
  unfold tidyInv, tidy in H;
  destruct H as (Hn & Hm & Ht & Hir & Hft & Hreg & Hiv & Hfi & Hivc & Hfic).

Lemma removal_survives_clearAll p s h t :
  tidyInv p s -> timers s !! h = Some t -> isRemoval (callback t) = true ->
  timers (clearAllNoteTimeouts s) !! h = Some t.
Proof.
  intros H Hh Hrem. rewrite timers_clearAll.
  destruct (decide (h ∈ registered s)) as [Hin|]; [|exact Hh].
  apply registered_spec in Hin as (i & Hi). open_tidy H.
  rewrite (Hreg _ _ _ Hi Hh) in Hrem. discriminate.
Qed.

Lemma removal_survives_fire p s hf h t :
  tidyInv p s -> timers s !! h = Some t -> isRemoval (callback t) = true ->
  (hf = h -> now s < due t) ->
  timers (fire p hf s) !! h = Some t.
Proof.
  intros H Hh Hrem Hnot. unfold fire.
  destruct (timers s !! hf) as [tf|] eqn:Ehf; [|exact Hh].
  destruct (due tf <=? now s) eqn:Edue; [|exact Hh].
  apply Z.leb_le in Edue.
  assert (Hne : hf <> h).
  { intros ->. specialize (Hnot eq_refl). simplify_eq. lia. }
  open_tidy H. destruct tf as [d cb].
  destruct cb; simpl in *; unfold addGeneratedNote_start; unfold_ops; branches;
    keep_timer.
Qed.

Lemma removal_survives_insertGenerated p newNote s s' h t :
  tidyInv p s -> timers s !! h = Some t -> isRemoval (callback t) = true ->
  insertGenerated p newNote s = Some s' ->
  timers s' !! h = Some t.
Proof.
  intros H Hh Hrem Hins. open_tidy H. unfold_ops; branches; keep_timer.
Qed.

Lemma removal_survives_handleManualDismiss p note s h t :
  tidyInv p s -> timers s !! h = Some t -> isRemoval (callback t) = true ->
  timers (handleManualDismiss p note s) !! h = Some t.
Proof.
  intros H Hh Hrem. open_tidy H. unfold_ops; branches; keep_timer.
Qed.

Lemma removal_survives_sync p l s h t :
  tidyInv p s -> timers s !! h = Some t -> isRemoval (callback t) = true ->
  timers (syncNotifications p l s) !! h = Some t.
Proof.
  intros H Hh Hrem. destruct l as [|n l]; [exact Hh|].
  rewrite sync_unfold.
  pose proof (removal_survives_clearAll p s h t H Hh Hrem) as Hc.
  destruct (frame_fields _ _ (frame_clearAll s)) as (_ & _ & _ & _ & _ & Hnext & _).
  case_match; [|exact Hc].
  destruct (registerEach_fold p (n :: l)
              (set_notes (n :: l) (clearAllNoteTimeouts s)))
    as (_ & _ & _ & _ & _ & _ & _ & Hold & _).
  rewrite Hold; [exact Hc|].
  cbn [nextHandle set_notes]. rewrite Hnext. open_tidy H.
  specialize (Ht _ _ Hh). lia.
Qed.

Lemma removal_survives_unmount p s h t :
  tidyInv p s -> timers s !! h = Some t -> isRemoval (callback t) = true ->
  timers (unmount p s) !! h = Some t.
Proof.
  intros H Hh Hrem. unfold unmount.
  change (timers (set_mounted false (cleanupTimers (stopGenerator p s))))
    with (timers (cleanupTimers (stopGenerator p s))).
  assert (H1 : timers (stopGenerator p s) !! h = Some t).
  { pose proof H as H'. open_tidy H'. unfold stopGenerator.
    branches; keep_timer. }
  pose proof (tidyInv_stopGenerator p s H) as Hs1.
  revert H1 Hs1. generalize (stopGenerator p s). intros s1 H1 Hs1.
  unfold cleanupTimers.
  apply (removal_survives_clearAll p).
  - pose proof Hs1 as H'. unfold tidyInv in *.
    branches; try match goal with E : intervalRef _ = _ |- _ => rewrite E end;
      eauto with tidy.
  - pose proof Hs1 as H'. open_tidy H'. branches; keep_timer.
  - exact Hrem.
Qed.

(** X1. A removal, once scheduled, is never cancelled: in every state the
    component reaches, a pending removal timer is still pending, with the
    same record and due time, after any event other than its own
    firing. *)
Theorem removal_timer_is_never_cancelled p notifications es s e s' h t :
  run p (mount p notifications) es = Some s ->
  step p s e = Some s' ->
  timers s !! h = Some t ->
  isRemoval (callback t) = true ->
  (e = Fire h -> now s < due t) ->
  timers s' !! h = Some t.
Proof.
  intros Hrun Hstep Hh Hrem Hnot.
  pose proof (tidyInv_reachable _ _ _ _ Hrun) as H.
  destruct e; simpl in Hstep.
  - injection Hstep as <-. exact Hh.
  - injection Hstep as <-. apply removal_survives_fire; auto;
      intros ->; now apply Hnot.
  - unfold addGeneratedNote_resume in Hstep.
    destruct (pendingGenerations s) as [|k];
      [injection Hstep as <-; exact Hh|].
    destruct (mounted s); [|injection Hstep as <-; exact Hh].
    eapply removal_survives_insertGenerated; [| | |exact Hstep]; auto.
  - injection Hstep as <-. unfold addGeneratedNote_rejected.
    destruct (pendingGenerations s); exact Hh.
  - destruct (mounted s); [|injection Hstep as <-; exact Hh].
    destruct (notes s !! i) as [note|]; injection Hstep as <-; [|exact Hh].
    now apply removal_survives_handleManualDismiss.
  - destruct (mounted s); injection Hstep as <-; [|exact Hh].
    now apply removal_survives_sync.
  - destruct (mounted s); injection Hstep as <-; [|exact Hh].
    now apply removal_survives_unmount.
Qed.

Lemma removal_timer_is_never_cancelled_witness :
  exists s s',
    run manualProps (mount manualProps [sample "X"]) [Elapse 3000; Fire 1]
    = Some s /\
    step manualProps s (Supply [sample "Y"]) = Some s' /\
    timers s' !! 2%nat =
      Some {| due := 3800; callback := RemoveDismissed (sample "X") |}.
Proof.
  assert (Hrun : exists s,
             run manualProps (mount manualProps [sample "X"])
               [Elapse 3000; Fire 1] = Some s /\
             timers s !! 2%nat =
               Some {| due := 3800; callback := RemoveDismissed (sample "X") |}).
  { eexists. split; vm_compute; reflexivity. }
  destruct Hrun as (s & Hrun & Hh).
  assert (Hstep : exists s', step manualProps s (Supply [sample "Y"]) = Some s').
  { simpl. destruct (mounted s); eauto. }
  destruct Hstep as (s' & Hstep).
  exists s, s'. split; [exact Hrun|]. split; [exact Hstep|].
  apply (removal_timer_is_never_cancelled manualProps [sample "X"]
           [Elapse 3000; Fire 1] s (Supply [sample "Y"]) s' 2%nat _
           Hrun Hstep Hh).
  - reflexivity.
  - discriminate.
Defined.

(** ** The registry *)

(** X2. The registry never names another timer: in every state the
    component reaches, a registered handle that is pending is the
    auto-dismissal of the identifier it is registered for, so
    [clearNoteTimeout] cancels nothing else: every pending timer that is
    not the auto-dismissal of that identifier is still pending after it. *)
Theorem registry_cancels_only_own_auto_dismiss p notifications es s i :
  run p (mount p notifications) es = Some s ->
  (forall h t, dismissTimeouts s !! i = Some h -> timers s !! h = Some t ->
               callback t = AutoDismiss i) /\
  (forall h t, timers s !! h = Some t -> callback t <> AutoDismiss i ->
               timers (clearNoteTimeout i s) !! h = Some t) /\
  dismissTimeouts (clearNoteTimeout i s) !! i = None /\
  (forall j, j <> i ->
             dismissTimeouts (clearNoteTimeout i s) !! j = dismissTimeouts s !! j).
Proof.
  intros Hrun. pose proof (tidyInv_reachable _ _ _ _ Hrun) as H.
  open_tidy H. split; [intros h t; apply Hreg|].
  unfold clearNoteTimeout, truthy.
  destruct (dismissTimeouts s !! i) as [h0|] eqn:E0.
  - specialize (Hm _ _ E0).
    destruct (Nat.eqb_spec h0 0) as [->|Hne]; [lia|]. simpl.
    split; [|split].
    + intros h t Hh Hcb. rewrite lookup_delete_ne; [exact Hh|].
      intros ->. apply Hcb. eapply Hreg; eauto.
    + apply lookup_delete_eq.
    + intros j Hj. now rewrite lookup_delete_ne.
  - split; [auto|]. split; [exact E0|auto].
Qed.

Lemma registry_cancels_only_own_auto_dismiss_witness :
  exists s,
    run manualProps (mount manualProps [sample "X"; sample "Y"])
      [Elapse 3000; Fire 1] = Some s /\
    timers (clearNoteTimeout "Y" s) !! 3%nat =
      Some {| due := 3800; callback := RemoveDismissed (sample "X") |}.
Proof.
  assert (Hrun : exists s,
             run manualProps (mount manualProps [sample "X"; sample "Y"])
               [Elapse 3000; Fire 1] = Some s /\
             timers s !! 3%nat =
               Some {| due := 3800; callback := RemoveDismissed (sample "X") |}).
  { eexists. split; vm_compute; reflexivity. }
  destruct Hrun as (s & Hrun & Hh).
  exists s. split; [exact Hrun|].
  destruct (registry_cancels_only_own_auto_dismiss manualProps
              [sample "X"; sample "Y"] [Elapse 3000; Fire 1] s "Y" Hrun)
    as (_ & Hkeep & _).
  apply Hkeep; [exact Hh | discriminate].
Defined.

(** ** Unmounting *)

Lemma timers_stopGenerator p s h :
  tidyInv p s ->
  timers (stopGenerator p s) !! h =
  match timers s !! h with
  | Some t => if isTick (callback t) then None else Some t
  | None => None
  end.
Proof.
  intros H. open_tidy H. unfold stopGenerator, truthy.
  destruct (timers s !! h) as [t|] eqn:Eh.
  - destruct (isTick (callback t)) eqn:Etick.
    + destruct (callback t) eqn:Ecb; try discriminate.
      * destruct (Hfi _ _ Eh Ecb) as [-> Eft]. specialize (Hft _ Eft).
        destruct (intervalRef s) as [hi|] eqn:Ei; simpl.
        -- destruct (Nat.eqb hi 0); simpl; rewrite Eft; simpl;
             rewrite ?lookup_delete; repeat case_decide; congruence.
        -- rewrite Eft. simpl. apply lookup_delete_eq.
      * destruct (Hiv _ _ Eh Ecb) as [-> Eir]. specialize (Hir _ Eir).
        rewrite Eir. destruct (Nat.eqb_spec h 0) as [->|Hne]; [lia|]. simpl.
        destruct (firstTimeout s); simpl; rewrite ?lookup_delete;
          repeat case_decide; congruence.
    + destruct (autoGenerate p); [|exact Eh].
      assert (Hni : intervalRef s <> Some h).
      { intros E. rewrite (Hivc _ _ E Eh) in Etick. discriminate. }
      assert (Hnf : firstTimeout s <> Some h).
      { intros E. rewrite (Hfic _ _ E Eh) in Etick. discriminate. }
      destruct (intervalRef s) as [hi|]; simpl;
        [destruct (Nat.eqb hi 0); simpl|];
        destruct (firstTimeout s) as [hf|]; simpl;
        rewrite ?lookup_delete; repeat case_decide; congruence.
  - destruct (autoGenerate p); [|exact Eh].
    destruct (intervalRef s) as [hi|]; simpl;
      [destruct (Nat.eqb hi 0); simpl|];
      destruct (firstTimeout s) as [hf|]; simpl;
      rewrite ?lookup_delete; repeat case_decide; congruence.
Qed.

Lemma dismissTimeouts_stopGenerator p s :
  dismissTimeouts (stopGenerator p s) = dismissTimeouts s.
Proof. unfold stopGenerator. branches; reflexivity. Qed.

(** X3. What unmounting cancels, exactly: the registry is emptied, and a
    timer is pending afterwards if and only if it was pending before, is
    not one of the generator's two timers, and its handle was not in the
    registry. *)
Theorem unmount_cancels_generator_and_registered p notifications es s :
  run p (mount p notifications) es = Some s ->
  dismissTimeouts (unmount p s) = ∅ /\
  mounted (unmount p s) = false /\
  forall h t,
    timers (unmount p s) !! h = Some t <->
    timers s !! h = Some t /\ isTick (callback t) = false /\
    h ∉ registered s.
Proof.
  intros Hrun. pose proof (tidyInv_reachable _ _ _ _ Hrun) as H.
  split; [reflexivity|]. split; [reflexivity|].
  intros h t. unfold unmount.
  change (timers (set_mounted false (cleanupTimers (stopGenerator p s))))
    with (timers (cleanupTimers (stopGenerator p s))).
  pose proof (tidyInv_stopGenerator p s H) as H1.
  pose proof (timers_stopGenerator p s h H) as Hstop.
  pose proof (dismissTimeouts_stopGenerator p s) as Hd.
  assert (Hregs : registered (stopGenerator p s) = registered s)
    by (unfold registered; now rewrite Hd).
  revert H1 Hstop Hregs. generalize (stopGenerator p s). intros s1 H1 Hstop Hregs.
  unfold cleanupTimers.
  assert (Hpre : forall s2,
             (s2 = s1 \/ exists hi, intervalRef s1 = Some hi /\
                                    s2 = window_clearTimeout hi s1) ->
             registered s2 = registered s /\
             (timers s2 !! h = Some t <-> timers s1 !! h = Some t)).
  { intros s2 [->|(hi & Ei & ->)]; [split; [exact Hregs|reflexivity]|].
    split; [exact Hregs|]. simpl. rewrite lookup_delete.
    case_decide as Ehi; [|reflexivity]. subst hi.
    split; [discriminate|]. intros Hh. exfalso.
    pose proof H1 as H1'. open_tidy H1'.
    pose proof (Hivc _ _ Ei Hh) as Ecb.
    rewrite Hstop in Hh. destruct (timers s !! h) as [t0|]; [|discriminate].
    destruct (isTick (callback t0)) eqn:Et0; [discriminate|].
    injection Hh as ->. rewrite Ecb in Et0. discriminate. }
  match goal with |- timers (clearAllNoteTimeouts ?s2) !! h = Some t <-> _ =>
    assert (Hs2 : s2 = s1 \/ exists hi, intervalRef s1 = Some hi /\
                                        s2 = window_clearTimeout hi s1)
      by (branches; eauto);
    destruct (Hpre s2 Hs2) as [Hr2 Ht2]; rewrite timers_clearAll, Hr2
  end.
  destruct (decide (h ∈ registered s)) as [Hin|Hnin].
  - split; [discriminate|]. intros (_ & _ & Hn). contradiction.
  - rewrite Ht2, Hstop. destruct (timers s !! h) as [t0|].
    + destruct (isTick (callback t0)) eqn:Et0.
      * split; [discriminate|]. intros ([= ->] & E & _). congruence.
      * split; [intros [= ->]; auto | intros ([= ->] & _); reflexivity].
    + split; [discriminate | intros ([=] & _)].
Qed.

Lemma unmount_cancels_generator_and_registered_witness :
  exists s,
    run singleProps (mount singleProps [sample "A"])
      [Elapse 900; Fire 2; Fulfil (sampleDraws "B")] = Some s /\
    dismissTimeouts (unmount singleProps s) = ∅.
Proof.
  eexists. split; [vm_compute; reflexivity|].
  refine (proj1 (unmount_cancels_generator_and_registered singleProps
                   [sample "A"]
                   [Elapse 900; Fire 2; Fulfil (sampleDraws "B")] _ _)).
  vm_compute. reflexivity.
Defined.

(** ** A supplied batch *)

(** X4. What a supplied batch that is not empty does: the queue becomes
    the batch; every handle the registry held is cancelled; every other
    pending timer stays; and with a positive [autoDismissTimeout] every
    identifier of the batch, and no other, is registered with a pending
    auto-dismiss timer due one timeout later (with a timeout that is not
    positive the registry is left empty). *)
Theorem supplied_batch_replaces_and_registers p notifications es s n l :
  run p (mount p notifications) es = Some s ->
  let s' := syncNotifications p (n :: l) s in
  notes s' = n :: l /\
  dismissLog s' = dismissLog s /\
  (forall h, h ∈ registered s -> timers s' !! h = None) /\
  (forall h t, timers s !! h = Some t -> h ∉ registered s ->
               timers s' !! h = Some t) /\
  (forall i, i ∉ map id (n :: l) -> dismissTimeouts s' !! i = None) /\
  (0 < autoDismissTimeout p ->
   forall i, i ∈ map id (n :: l) ->
     exists h, dismissTimeouts s' !! i = Some h /\
       timers s !! h = None /\
       timers s' !! h =
         Some {| due := now s + autoDismissTimeout p;
                 callback := AutoDismiss i |}) /\
  (autoDismissTimeout p <= 0 -> dismissTimeouts s' = ∅).
Proof.
  intros Hrun s'. pose proof (tidyInv_reachable _ _ _ _ Hrun) as H.
  open_tidy H. subst s'. rewrite sync_unfold.
  destruct (frame_fields _ _ (frame_clearAll s))
    as (_ & _ & _ & _ & _ & Hnext & Hnow & _ & Hlog).
  set (s2 := set_notes (n :: l) (clearAllNoteTimeouts s)).
  assert (Hs2 : nextHandle s2 = nextHandle s /\ now s2 = now s /\
                dismissLog s2 = dismissLog s /\ dismissTimeouts s2 = ∅ /\
                notes s2 = n :: l /\
                forall h, timers s2 !! h
                          = if decide (h ∈ registered s) then None
                            else timers s !! h).
  { subst s2. cbn [nextHandle now dismissLog set_notes notes timers].
    repeat split; auto. intros h. apply timers_clearAll. }
  destruct Hs2 as (Hn2 & Hnow2 & Hlog2 & Hd2 & Hq2 & Ht2).
  assert (Hregbelow : forall h, h ∈ registered s -> (h < nextHandle s)%nat).
  { intros h Hin. apply registered_spec in Hin as (i & Hi).
    specialize (Hm _ _ Hi). lia. }
  destruct (0 <? autoDismissTimeout p) eqn:Epos.
  - apply Z.ltb_lt in Epos.
    destruct (registerEach_fold p (n :: l) s2)
      as (_ & Hq & _ & _ & _ & Hlog' & _ & Hold & Hkeep & Hnew).
    split; [now rewrite Hq|]. split; [now rewrite Hlog'|].
    split; [|split; [|split; [|split]]].
    + intros h Hin. rewrite Hold by (rewrite Hn2; auto).
      rewrite Ht2. now rewrite decide_True.
    + intros h t Hh Hnin. specialize (Ht _ _ Hh).
      rewrite Hold by (rewrite Hn2; lia). rewrite Ht2.
      now rewrite decide_False.
    + intros i Hi. rewrite (Hkeep i Hi), Hd2. apply lookup_empty.
    + intros _ i Hi. destruct (Hnew i Hi) as (h & Hh & Hd & Hti).
      exists h. split; [exact Hd|]. split.
      * destruct (timers s !! h) as [t|] eqn:E; [|reflexivity].
        specialize (Ht _ _ E). lia.
      * rewrite Hti, Hnow2. now rewrite Z.max_r by lia.
    + intros Hle. lia.
  - apply Z.ltb_ge in Epos.
    split; [exact Hq2|]. split; [exact Hlog2|].
    split; [|split; [|split; [|split]]].
    + intros h Hin. rewrite Ht2. now rewrite decide_True.
    + intros h t Hh Hnin. rewrite Ht2. now rewrite decide_False.
    + intros i _. rewrite Hd2. apply lookup_empty.
    + intros Hlt. lia.
    + intros _. exact Hd2.
Qed.

Lemma supplied_batch_replaces_and_registers_witness :
  exists s,
    run manualProps (mount manualProps [sample "X"]) [Elapse 1000] = Some s /\
    notes (syncNotifications manualProps [sample "Y"; sample "Z"] s)
    = [sample "Y"; sample "Z"].
Proof.
  eexists. split; [vm_compute; reflexivity|].
  refine (proj1 (supplied_batch_replaces_and_registers manualProps
                   [sample "X"] [Elapse 1000] _ (sample "Y") [sample "Z"] _)).
  vm_compute. reflexivity.
Defined.

(** ** The two ways a record is dismissed, start to end *)

Lemma find_id i l note :
  List.find (fun n => String.eqb (id n) i) l = Some note -> id note = i.
Proof.
  intros H. apply List.find_some in H as [_ H]. now apply String.eqb_eq.
Qed.

Lemma filter_markId i l :
  List.filter (otherThan i) (map (markId i) l) = List.filter (otherThan i) l.
Proof.
  induction l as [|n l IH]; [reflexivity|]. cbn [map List.filter].
  assert (otherThan i (markId i n) = otherThan i n) as ->.
  { unfold otherThan, markId.
    destruct (String.eqb (id n) i) eqn:E; simpl; rewrite ?E; reflexivity. }
  destruct (otherThan i n) eqn:E; [|exact IH].
  rewrite IH. f_equal. unfold markId. unfold otherThan in E.
  destruct (String.eqb (id n) i); [discriminate|reflexivity].
Qed.

Lemma frame_clearNoteTimeout i s : frame (clearNoteTimeout i s) = frame s.
Proof. unfold clearNoteTimeout. branches; reflexivity. Qed.

Lemma timers_clearNoteTimeout_None i s h :
  timers s !! h = None -> timers (clearNoteTimeout i s) !! h = None.
Proof.
  intros Hh. unfold clearNoteTimeout. branches; auto.
  rewrite lookup_delete. now case_decide.
Qed.

Lemma registry_clearNoteTimeout i s :
  (forall h, dismissTimeouts s !! i = Some h -> (1 <= h)%nat) ->
  dismissTimeouts (clearNoteTimeout i s) !! i = None /\
  forall h, dismissTimeouts s !! i = Some h ->
            timers (clearNoteTimeout i s) !! h = None.
Proof.
  intros Hpos. unfold clearNoteTimeout, truthy.
  destruct (dismissTimeouts s !! i) as [h0|] eqn:Ei.
  - specialize (Hpos _ eq_refl). destruct (Nat.eqb_spec h0 0); [lia|]. simpl.
    split; [apply lookup_delete_eq|]. intros h [= <-]. apply lookup_delete_eq.
  - split; [exact Ei | discriminate].
Qed.

(** The removal that a dismissal left at the handle [k] runs after the
    animation: the clock is advanced, the timer leaves the table, the
    callback of the removal runs. *)
Lemma removal_runs p s k cb dt :
  timers s !! k = Some {| due := now s + Z.max 0 (animationDuration p);
                          callback := cb |} ->
  isRemoval cb = true ->
  Z.max 0 (animationDuration p) <= dt ->
  run p s [Elapse dt; Fire k] =
  Some (runCallback p cb
          (set_timers (delete k (timers s)) (set_now (now s + Z.max 0 dt) s))).
Proof.
  intros Hk Hcb Hdt. cbn [run step]. unfold fire.
  cbn [timers set_now now]. rewrite Hk. cbn [due callback].
  assert ((now s + Z.max 0 (animationDuration p) <=? now s + Z.max 0 dt)
          = true) as -> by (apply Z.leb_le; lia).
  destruct cb; try discriminate; reflexivity.
Qed.

(** X5. Auto-dismissal, start to end.  When the auto-dismiss timer of an
    identifier runs while the first record of that identifier is not
    fading out, every record of that identifier is flagged, the
    identifier leaves the registry and nothing is reported yet; once the
    animation duration has elapsed and the removal timer it left runs,
    the records of that identifier are gone, the other records are as
    they were, and the callback, if there is one, has been called exactly
    once more, with the record found at the dismissal. *)
Theorem auto_dismiss_lifecycle p notifications es s h d i note dt :
  run p (mount p notifications) es = Some s ->
  mounted s = true ->
  timers s !! h = Some {| due := d; callback := AutoDismiss i |} ->
  d <= now s ->
  List.find (fun n => String.eqb (id n) i) (notes s) = Some note ->
  isFading note = false ->
  Z.max 0 (animationDuration p) <= dt ->
  exists s1 s2,
    step p s (Fire h) = Some s1 /\
    notes s1 = map (markId i) (notes s) /\
    dismissTimeouts s1 !! i = None /\
    timers s1 !! h = None /\
    dismissLog s1 = dismissLog s /\
    run p s1 [Elapse dt; Fire (nextHandle s)] = Some s2 /\
    notes s2 = List.filter (otherThan i) (notes s) /\
    dismissLog s2 =
      (dismissLog s ++ if onNotificationDismiss p then [note] else [])%list.
Proof.
  intros Hrun Hmt Hh Hd Hfind Hfade Hdt.
  pose proof (tidyInv_reachable _ _ _ _ Hrun) as H. open_tidy H.
  pose proof (find_id _ _ _ Hfind) as Hid.
  pose proof (Ht _ _ Hh) as Hhb.
  apply Z.leb_le in Hd.
  set (s0 := clearNoteTimeout i (set_timers (delete h (timers s)) s)).
  destruct (frame_fields _ _ (frame_clearNoteTimeout i
              (set_timers (delete h (timers s)) s)))
    as (Hq0 & _ & _ & _ & Hmt0 & Hnx0 & Hnw0 & _ & Hlg0).
  fold s0 in Hq0, Hmt0, Hnx0, Hnw0, Hlg0. simpl in Hq0, Hmt0, Hnx0, Hnw0, Hlg0.
  destruct (registry_clearNoteTimeout i (set_timers (delete h (timers s)) s))
    as [Hreg0 _].
  { intros h0 Hh0. specialize (Hm _ _ Hh0). lia. }
  fold s0 in Hreg0.
  set (s1 := set_notes (map (markId i) (notes s))
               (snd (window_setTimeout (RemoveDismissed note)
                       (animationDuration p) s0))).
  assert (Hstep : step p s (Fire h) = Some s1).
  { simpl. unfold fire. rewrite Hh. cbn [due callback]. rewrite Hd.
    cbn [runCallback]. unfold dismissNotification.
    cbn [mounted set_timers notes]. rewrite Hmt, Hfind, Hfade. reflexivity. }
  assert (Hk : timers s1 !! nextHandle s =
               Some {| due := now s1 + Z.max 0 (animationDuration p);
                       callback := RemoveDismissed note |}).
  { subst s1. cbn [timers now set_notes window_setTimeout snd set_nextHandle
                     set_timers].
    rewrite Hnx0, Hnw0. apply lookup_insert_eq. }
  exists s1.
  eexists. split; [exact Hstep|].
  split; [reflexivity|].
  split; [exact Hreg0|].
  split.
  { subst s1. cbn [timers set_notes window_setTimeout snd set_nextHandle
                     set_timers].
    rewrite Hnx0, lookup_insert_ne by lia.
    apply timers_clearNoteTimeout_None. simpl. apply lookup_delete_eq. }
  split; [exact Hlg0|].
  split; [apply (removal_runs p s1 _ _ dt Hk eq_refl Hdt)|].
  cbn [runCallback]. unfold removeDismissed, call_onNotificationDismiss.
  subst s1.
  cbn [mounted set_timers set_now set_notes window_setTimeout snd
         set_nextHandle notes dismissLog set_dismissLog].
  rewrite Hmt0, Hmt, Hid, Hlg0.
  destruct (onNotificationDismiss p);
    cbn [notes set_notes set_dismissLog dismissLog];
    rewrite filter_markId; split; try reflexivity.
  now rewrite app_nil_r.
Qed.

Lemma auto_dismiss_lifecycle_witness :
  exists s s1 s2,
    run manualProps (mount manualProps [sample "X"; sample "Y"])
      [Elapse 3000] = Some s /\
    step manualProps s (Fire 1) = Some s1 /\
    run manualProps s1 [Elapse 800; Fire (nextHandle s)] = Some s2 /\
    notes s2 = List.filter (otherThan "X") (notes s) /\
    dismissLog s2 = (dismissLog s ++ [sample "X"])%list.
Proof.
  assert (Hrun : exists s,
             run manualProps (mount manualProps [sample "X"; sample "Y"])
               [Elapse 3000] = Some s /\
             mounted s = true /\
             timers s !! 1%nat =
               Some {| due := 3000; callback := AutoDismiss "X" |} /\
             3000 <= now s /\
             List.find (fun n => String.eqb (id n) "X") (notes s)
             = Some (sample "X")).
  { eexists. split; [vm_compute; reflexivity|].
    split; [vm_compute; reflexivity|].
    split; [vm_compute; reflexivity|].
    split; [vm_compute; discriminate | vm_compute; reflexivity]. }
  destruct Hrun as (s & Hrun & Hm & Hh & Hd & Hf).
  destruct (auto_dismiss_lifecycle manualProps _ _ s 1%nat 3000 "X"
              (sample "X") 800 Hrun Hm Hh Hd Hf)
    as (s1 & s2 & Hstep & _ & _ & _ & _ & Hrun2 & Hq & Hlog).
  - reflexivity.
  - vm_compute. discriminate.
  - exists s, s1, s2. auto.
Defined.

(** X6. Manual dismissal, start to end.  A click on the dismiss button of
    a rendered record flags every record of its identifier, takes the
    identifier out of the registry and cancels its pending auto-dismiss
    timer, and reports nothing yet; once the animation duration has
    elapsed and the removal timer it left runs, the records of that
    identifier are gone, the others are as they were, and the callback,
    if there is one, has been called once more, with the record that was
    clicked. *)
Theorem manual_dismiss_lifecycle p notifications es s k note dt :
  run p (mount p notifications) es = Some s ->
  mounted s = true ->
  notes s !! k = Some note ->
  Z.max 0 (animationDuration p) <= dt ->
  exists s1 s2,
    step p s (ClickDismiss k) = Some s1 /\
    notes s1 = map (markId (id note)) (notes s) /\
    dismissTimeouts s1 !! id note = None /\
    (forall h0, dismissTimeouts s !! id note = Some h0 ->
                timers s1 !! h0 = None) /\
    dismissLog s1 = dismissLog s /\
    run p s1 [Elapse dt; Fire (nextHandle s)] = Some s2 /\
    notes s2 = List.filter (otherThan (id note)) (notes s) /\
    dismissLog s2 =
      (dismissLog s ++ if onNotificationDismiss p then [note] else [])%list.
Proof.
  intros Hrun Hmt Hk Hdt.
  pose proof (tidyInv_reachable _ _ _ _ Hrun) as H. open_tidy H.
  set (s0 := clearNoteTimeout (id note) s).
  destruct (frame_fields _ _ (frame_clearNoteTimeout (id note) s))
    as (Hq0 & _ & _ & _ & Hmt0 & Hnx0 & Hnw0 & _ & Hlg0).
  fold s0 in Hq0, Hmt0, Hnx0, Hnw0, Hlg0.
  destruct (registry_clearNoteTimeout (id note) s) as [Hreg0 Hcancel].
  { intros h0 Hh0. specialize (Hm _ _ Hh0). lia. }
  fold s0 in Hreg0, Hcancel.
  set (s1 := snd (window_setTimeout (RemoveManual note) (animationDuration p)
                    (set_notes (map (markId (id note)) (notes s0)) s0))).
  assert (Hstep : step p s (ClickDismiss k) = Some s1).
  { simpl. rewrite Hmt, Hk. unfold handleManualDismiss. fold s0.
    now rewrite Hmt0, Hmt. }
  assert (Hkey : timers s1 !! nextHandle s =
               Some {| due := now s1 + Z.max 0 (animationDuration p);
                       callback := RemoveManual note |}).
  { subst s1. cbn [timers now set_notes window_setTimeout snd set_nextHandle
                     set_timers nextHandle].
    rewrite Hnx0, Hnw0. apply lookup_insert_eq. }
  exists s1. eexists. split; [exact Hstep|].
  split; [subst s1; cbn; now rewrite Hq0|].
  split; [exact Hreg0|].
  split.
  { intros h0 Hh0. pose proof (Hm _ _ Hh0) as Hb. subst s1.
    cbn [timers set_notes window_setTimeout snd set_nextHandle set_timers
           nextHandle].
    rewrite Hnx0, lookup_insert_ne by lia. now apply Hcancel. }
  split; [exact Hlg0|].
  split; [apply (removal_runs p s1 _ _ dt Hkey eq_refl Hdt)|].
  cbn [runCallback]. unfold removeManual, call_onNotificationDismiss.
  subst s1.
  cbn [mounted set_timers set_now set_notes window_setTimeout snd
         set_nextHandle notes dismissLog set_dismissLog].
  rewrite Hmt0, Hmt, Hq0, Hlg0.
  destruct (onNotificationDismiss p);
    cbn [notes set_notes set_dismissLog dismissLog];
    rewrite filter_markId; split; try reflexivity.
  now rewrite app_nil_r.
Qed.

Lemma manual_dismiss_lifecycle_witness :
  exists s s1 s2,
    run manualProps (mount manualProps [sample "X"; sample "Y"])
      [Elapse 1000] = Some s /\
    step manualProps s (ClickDismiss 1) = Some s1 /\
    run manualProps s1 [Elapse 800; Fire (nextHandle s)] = Some s2 /\
    notes s2 = List.filter (otherThan "Y") (notes s) /\
    dismissLog s2 = (dismissLog s ++ [sample "Y"])%list.
Proof.
  assert (Hrun : exists s,
             run manualProps (mount manualProps [sample "X"; sample "Y"])
               [Elapse 1000] = Some s /\
             mounted s = true /\ notes s !! 1%nat = Some (sample "Y")).
  { eexists. split; [vm_compute; reflexivity|].
    split; vm_compute; reflexivity. }
  destruct Hrun as (s & Hrun & Hm & Hk).
  destruct (manual_dismiss_lifecycle manualProps _ _ s 1%nat (sample "Y") 800
              Hrun Hm Hk)
    as (s1 & s2 & Hstep & _ & _ & _ & _ & Hrun2 & Hq & Hlog).
  - vm_compute. discriminate.
  - exists s, s1, s2. auto.
Defined.

(** ** When the callback is called *)

(** X7. The caller's callback is called only when a removal timer runs: a
    dismissal, an insertion, a replacement, unmounting and the passing of
    time call nothing; the run of a due removal timer calls it at most
    once, with the record the removal was scheduled for. *)
Theorem callback_only_when_a_removal_runs p s e s' :
  step p s e = Some s' ->
  dismissLog s' = dismissLog s \/
  exists h t n,
    e = Fire h /\ timers s !! h = Some t /\ due t <= now s /\
    onNotificationDismiss p = true /\
    (callback t = RemoveDismissed n \/ callback t = RemoveEvicted n \/
     callback t = RemoveManual n) /\
    dismissLog s' = (dismissLog s ++ [n])%list.
Proof.
  intros Hstep. destruct e; simpl in Hstep.
  - injection Hstep as <-. now left.
  - injection Hstep as <-. unfold fire.
    destruct (timers s !! h) as [t|] eqn:Eh; [|now left].
    destruct (due t <=? now s) eqn:Edue; [|now left].
    apply Z.leb_le in Edue.
    destruct (onNotificationDismiss p) eqn:Ecb.
    + destruct (callback t) eqn:Et; simpl.
      * left. unfold_ops; branches; reflexivity.
      * unfold removeDismissed, call_onNotificationDismiss. rewrite Ecb.
        cbn [mounted set_timers]. destruct (mounted s); [|now left].
        right. exists h, t, note. repeat split; auto.
      * right. exists h, t, oldest. repeat split; auto.
        unfold removeEvicted, call_onNotificationDismiss. rewrite Ecb.
        cbn [dismissLog set_dismissLog].
        match goal with |- (dismissLog (clearNoteTimeout ?i ?x) ++ _)%list = _ =>
          destruct (core_fields _ _ (core_clearNoteTimeout i x))
            as (_ & _ & _ & _ & ->)
        end.
        cbn [mounted set_timers]. destruct (mounted s); reflexivity.
      * unfold removeManual, call_onNotificationDismiss. rewrite Ecb.
        cbn [mounted set_timers]. destruct (mounted s); [|now left].
        right. exists h, t, note. repeat split; auto.
      * left. unfold addGeneratedNote_start. branches; reflexivity.
      * left. unfold addGeneratedNote_start. branches; reflexivity.
    + left. destruct (callback t); simpl; unfold addGeneratedNote_start;
        unfold_ops; rewrite ?Ecb; branches; try reflexivity; congruence.
  - left. unfold addGeneratedNote_resume in Hstep.
    destruct (pendingGenerations s) as [|k]; [now injection Hstep as <-|].
    destruct (mounted s); [|now injection Hstep as <-].
    unfold_ops; branches; reflexivity.
  - injection Hstep as <-. left. unfold addGeneratedNote_rejected.
    destruct (pendingGenerations s); reflexivity.
  - left. destruct (mounted s); [|now injection Hstep as <-].
    destruct (notes s !! i); injection Hstep as <-; [|reflexivity].
    unfold_ops; branches; reflexivity.
  - left. destruct (mounted s); injection Hstep as <-; [|reflexivity].
    destruct notifications as [|n l]; [reflexivity|].
    now destruct (sync_fields p (n :: l) s) as (_ & _ & _ & _ & ->).
  - left. destruct (mounted s); injection Hstep as <-; [|reflexivity].
    unfold unmount.
    change (dismissLog (set_mounted false (cleanupTimers (stopGenerator p s))))
      with (dismissLog (cleanupTimers (stopGenerator p s))).
    destruct (core_fields _ _ (core_cleanupTimers (stopGenerator p s)))
      as (_ & _ & _ & _ & ->).
    now destruct (core_fields _ _ (core_stopGenerator p s))
      as (_ & _ & _ & _ & ->).
Qed.

Lemma callback_only_when_a_removal_runs_witness :
  exists s s',
    run manualProps (mount manualProps [sample "X"])
      [Elapse 3000; Fire 1; Elapse 800] = Some s /\
    step manualProps s (Fire 2) = Some s' /\
    (dismissLog s' = dismissLog s \/
     exists h t n,
       Fire 2 = Fire h /\ timers s !! h = Some t /\ due t <= now s /\
       onNotificationDismiss manualProps = true /\
       (callback t = RemoveDismissed n \/ callback t = RemoveEvicted n \/
        callback t = RemoveManual n) /\
       dismissLog s' = (dismissLog s ++ [n])%list).
Proof.
  assert (Hrun : exists s s',
             run manualProps (mount manualProps [sample "X"])
               [Elapse 3000; Fire 1; Elapse 800] = Some s /\
             step manualProps s (Fire 2) = Some s').
  { eexists. eexists. split; vm_compute; reflexivity. }
  destruct Hrun as (s & s' & Hrun & Hstep).
  exists s, s'. split; [exact Hrun|]. split; [exact Hstep|].
  exact (callback_only_when_a_removal_runs manualProps s (Fire 2) s' Hstep).
Defined.

(** ** How the queue changes *)

Lemma evolves_refl l : evolves l l.
Proof. induction l; constructor; auto. Qed.

Lemma evolves_markId i l : evolves l (map (markId i) l).
Proof.
  induction l as [|n l IH]; simpl; [constructor|].
  unfold markId at 1. destruct (String.eqb (id n) i); constructor; exact IH.
Qed.

Lemma evolves_filter (f : NotificationItem -> bool) l :
  evolves l (List.filter f l).
Proof.
  induction l as [|n l IH]; simpl; [constructor|].
  destruct (f n); constructor; exact IH.
Qed.

Lemma evolves_ids l l' : evolves l l' -> sublist (map id l') (map id l).
Proof.
  induction 1; simpl.
  - constructor.
  - now apply sublist_skip.
  - now apply sublist_skip.
  - now apply sublist_cons.
Qed.

Lemma evolves_unflagged l l' n :
  evolves l l' -> In n l' -> isFading n = false -> In n l.
Proof.
  induction 1; simpl; intros Hin Hf.
  - exact Hin.
  - destruct Hin as [->|Hin]; auto.
  - destruct Hin as [<-|Hin]; [discriminate Hf | auto].
  - auto.
Qed.

Lemma evolves_length l l' : evolves l l' -> (length l' <= length l)%nat.
Proof. induction 1; simpl; lia. Qed.

Lemma evolves_runCallback p cb s :
  evolves (notes s) (notes (runCallback p cb s)).
Proof.
  destruct cb; simpl; unfold addGeneratedNote_start; unfold_ops; branches;
    auto using evolves_refl, evolves_markId, evolves_filter.
Qed.

(** X8. How an event changes the queue.  Apart from a wholesale
    replacement, an event only flags records, deletes records, and (when a
    generation fulfils) appends the generated record at the tail: the
    identifiers that remain are in their old order, no flag is ever taken
    back, and a record that is not fading out afterwards is either the
    generated one or was in the queue, unchanged, before. *)
Theorem queue_only_flags_deletes_appends p s e s' :
  step p s e = Some s' ->
  keepsQueue e ->
  exists kept extra,
    notes s' = (kept ++ extra)%list /\
    evolves (notes s) kept /\
    sublist (map id kept) (map id (notes s)) /\
    (forall n, In n kept -> isFading n = false -> In n (notes s)) /\
    (extra = [] \/
     exists d, e = Fulfil d /\
       extra = [generateNotification (customMessages p) (fixedUser p) d]).
Proof.
  intros Hstep Hkeep.
  assert (Hev : (evolves (notes s) (notes s')) \/
                exists kept d, e = Fulfil d /\ evolves (notes s) kept /\
                  notes s' = (kept ++ [generateNotification (customMessages p)
                                         (fixedUser p) d])%list).
  { destruct e; simpl in Hstep.
    - injection Hstep as <-. left. apply evolves_refl.
    - injection Hstep as <-. left. unfold fire.
      destruct (timers s !! h) as [t|]; [|apply evolves_refl].
      destruct (due t <=? now s); [|apply evolves_refl].
      apply (evolves_runCallback p (callback t) (set_timers _ s)).
    - unfold addGeneratedNote_resume in Hstep.
      destruct (pendingGenerations s) as [|k];
        [injection Hstep as <-; left; apply evolves_refl|].
      destruct (mounted s);
        [|injection Hstep as <-; left; apply evolves_refl].
      right. unfold insertGenerated in Hstep.
      cbn [notes set_generating] in Hstep.
      destruct (maxNotifications p <=? _).
      + destruct (nonFading (notes s)) as [|oldest rest]; [discriminate|].
        injection Hstep as <-.
        exists (map (markId (id oldest)) (notes s)), d.
        split; [reflexivity|]. split; [apply evolves_markId | reflexivity].
      + injection Hstep as <-. exists (notes s), d.
        split; [reflexivity|]. split; [apply evolves_refl | reflexivity].
    - injection Hstep as <-. left. unfold addGeneratedNote_rejected.
      destruct (pendingGenerations s); apply evolves_refl.
    - left. destruct (mounted s);
        [|injection Hstep as <-; apply evolves_refl].
      destruct (notes s !! i); injection Hstep as <-; [|apply evolves_refl].
      unfold_ops; branches; auto using evolves_refl, evolves_markId.
    - destruct notifications as [|n l]; [|destruct Hkeep].
      left. destruct (mounted s); injection Hstep as <-; apply evolves_refl.
    - left. destruct (mounted s);
        injection Hstep as <-; [|apply evolves_refl].
      unfold unmount.
      change (notes (set_mounted false (cleanupTimers (stopGenerator p s))))
        with (notes (cleanupTimers (stopGenerator p s))).
      destruct (core_fields _ _ (core_cleanupTimers (stopGenerator p s)))
        as (-> & _).
      destruct (core_fields _ _ (core_stopGenerator p s)) as (-> & _).
      apply evolves_refl. }
  destruct Hev as [Hev|(kept & d & -> & Hev & Hq)].
  - exists (notes s'), []. rewrite app_nil_r.
    split; [reflexivity|]. split; [exact Hev|].
    split; [now apply evolves_ids|].
    split; [intros n; now apply evolves_unflagged | now left].
  - exists kept, [generateNotification (customMessages p) (fixedUser p) d].
    split; [exact Hq|]. split; [exact Hev|].
    split; [now apply evolves_ids|].
    split; [intros n; now apply evolves_unflagged|].
    right. exists d. auto.
Qed.

Lemma queue_only_flags_deletes_appends_witness :
  exists s s' kept extra,
    run scenarioProps
      (mount scenarioProps [sample "A"; sample "B"; sample "C"])
      [Elapse 900; Fire 2] = Some s /\
    step scenarioProps s (Fulfil (sampleDraws "D")) = Some s' /\
    notes s' = (kept ++ extra)%list /\
    sublist (map id kept) (map id (notes s)).
Proof.
  assert (Hrun : exists s s',
             run scenarioProps
               (mount scenarioProps [sample "A"; sample "B"; sample "C"])
               [Elapse 900; Fire 2] = Some s /\
             step scenarioProps s (Fulfil (sampleDraws "D")) = Some s').
  { eexists. eexists. split; vm_compute; reflexivity. }
  destruct Hrun as (s & s' & Hrun & Hstep).
  destruct (queue_only_flags_deletes_appends scenarioProps s
              (Fulfil (sampleDraws "D")) s' Hstep I)
    as (kept & extra & Hq & _ & Hsub & _).
  exists s, s', kept, extra. auto.
Defined.

(** ** Switched-off features *)

Lemma scheduleAutoDismiss_off p i s :
  autoDismissTimeout p <= 0 -> scheduleAutoDismiss p i s = s.
Proof.
  intros H. unfold scheduleAutoDismiss.
  now destruct (Z.ltb_spec 0 (autoDismissTimeout p)); [lia|].
Qed.

Lemma clearNoteTimeout_unregistered i s :
  dismissTimeouts s !! i = None -> clearNoteTimeout i s = s.
Proof. intros H. unfold clearNoteTimeout. now rewrite H. Qed.

Lemma noAutoDismiss_insert s d cb :
  (forall i, cb <> AutoDismiss i) ->
  noAutoDismiss s ->
  noAutoDismiss (snd (window_setTimeout cb d s)).
Proof.
  intros Hcb [Hm Ht]. split; [exact Hm|]. simpl.
  intros h t i. rewrite lookup_insert. case_decide; [|apply Ht].
  intros [= <-]. apply Hcb.
Qed.

Lemma noAutoDismiss_timers s s' :
  dismissTimeouts s' = dismissTimeouts s ->
  (forall h t, timers s' !! h = Some t -> timers s !! h = Some t) ->
  noAutoDismiss s -> noAutoDismiss s'.
Proof.
  intros Hd Hsub [Hm Ht]. split; [now rewrite Hd|].
  intros h t i Hh. apply (Ht h t i), Hsub, Hh.
Qed.

Lemma noAutoDismiss_delete s h :
  noAutoDismiss s -> noAutoDismiss (set_timers (delete h (timers s)) s).
Proof.
  apply noAutoDismiss_timers; [reflexivity|]. simpl. intros h' t.
  rewrite lookup_delete. case_decide; [discriminate|auto].
Qed.

Lemma noAutoDismiss_runCallback p cb s :
  autoDismissTimeout p <= 0 ->
  noAutoDismiss s -> noAutoDismiss (runCallback p cb s).
Proof.
  intros Hoff Hs. pose proof Hs as [Hm Ht].
  destruct cb; simpl.
  - unfold dismissNotification. destruct (mounted s); [|exact Hs].
    destruct (List.find _ (notes s)) as [note|]; [|exact Hs].
    destruct (isFading note); [exact Hs|].
    rewrite clearNoteTimeout_unregistered
      by (rewrite Hm; apply lookup_empty).
    apply (noAutoDismiss_insert s _ (RemoveDismissed note)); auto;
      discriminate.
  - unfold removeDismissed, call_onNotificationDismiss.
    destruct (mounted s), (onNotificationDismiss p); exact Hs.
  - unfold removeEvicted, call_onNotificationDismiss.
    rewrite clearNoteTimeout_unregistered
      by (destruct (mounted s); simpl; rewrite Hm; apply lookup_empty).
    destruct (mounted s), (onNotificationDismiss p); exact Hs.
  - unfold removeManual, call_onNotificationDismiss.
    destruct (mounted s), (onNotificationDismiss p); exact Hs.
  - unfold addGeneratedNote_start. branches; exact Hs.
  - unfold addGeneratedNote_start. branches; exact Hs.
Qed.

Lemma noAutoDismiss_step p s e s' :
  autoDismissTimeout p <= 0 ->
  noAutoDismiss s -> step p s e = Some s' -> noAutoDismiss s'.
Proof.
  intros Hoff Hs Hstep. pose proof Hs as [Hm Ht].
  destruct e; simpl in Hstep.
  - injection Hstep as <-. exact Hs.
  - injection Hstep as <-. unfold fire.
    destruct (timers s !! h) as [t|] eqn:Eh; [|exact Hs].
    destruct (due t <=? now s); [|exact Hs].
    apply noAutoDismiss_runCallback; [exact Hoff|].
    destruct (callback t) eqn:Ecb; try apply noAutoDismiss_delete; auto.
    split; [exact Hm|]. simpl. intros h' t' i.
    rewrite lookup_insert. case_decide; [|apply Ht].
    intros [= <-]. discriminate.
  - unfold addGeneratedNote_resume in Hstep.
    destruct (pendingGenerations s) as [|k];
      [injection Hstep as <-; exact Hs|].
    destruct (mounted s); [|injection Hstep as <-; exact Hs].
    unfold insertGenerated in Hstep.
    cbn [notes set_generating] in Hstep.
    destruct (maxNotifications p <=? _).
    + destruct (nonFading (notes s)) as [|oldest rest]; [discriminate|].
      cbn [dismissTimeouts window_setTimeout snd set_nextHandle set_timers
             set_generating] in Hstep.
      rewrite Hm, lookup_empty in Hstep. injection Hstep as <-.
      rewrite scheduleAutoDismiss_off by exact Hoff.
      apply (noAutoDismiss_insert (set_generating false k s) _
               (RemoveEvicted oldest)); auto; discriminate.
    + injection Hstep as <-. rewrite scheduleAutoDismiss_off by exact Hoff.
      exact Hs.
  - injection Hstep as <-. unfold addGeneratedNote_rejected.
    destruct (pendingGenerations s); exact Hs.
  - destruct (mounted s); [|injection Hstep as <-; exact Hs].
    destruct (notes s !! i) as [note|]; injection Hstep as <-; [|exact Hs].
    unfold handleManualDismiss.
    rewrite clearNoteTimeout_unregistered by (rewrite Hm; apply lookup_empty).
    destruct (mounted s);
      apply (noAutoDismiss_insert _ _ (RemoveManual note)); auto; discriminate.
  - destruct (mounted s); injection Hstep as <-; [|exact Hs].
    destruct notifications as [|n l]; [exact Hs|].
    rewrite sync_unfold.
    destruct (Z.ltb_spec 0 (autoDismissTimeout p)); [lia|].
    split; [reflexivity|]. cbn [timers set_notes]. intros h t i.
    rewrite timers_clearAll. case_decide; [discriminate|]. apply Ht.
  - destruct (mounted s); injection Hstep as <-; [|exact Hs].
    split; [reflexivity|]. intros h t i Hh.
    apply (Ht h t i).
    unfold unmount in Hh.
    change (timers (set_mounted false (cleanupTimers (stopGenerator p s))))
      with (timers (cleanupTimers (stopGenerator p s))) in Hh.
    unfold cleanupTimers in Hh. rewrite timers_clearAll in Hh.
    case_decide; [discriminate|].
    assert (Hstop : timers (stopGenerator p s) !! h = Some t ->
                    timers s !! h = Some t).
    { unfold stopGenerator. branches; intros Hx;
        repeat (rewrite lookup_delete in Hx; case_decide; [discriminate|]);
        exact Hx. }
    apply Hstop. revert Hh. branches; intros Hx;
      repeat (rewrite lookup_delete in Hx; case_decide; [discriminate|]);
      exact Hx.
Qed.

Lemma noAutoDismiss_mount p notifications :
  autoDismissTimeout p <= 0 -> noAutoDismiss (mount p notifications).
Proof.
  intros Hoff. unfold mount.
  assert (Hs : noAutoDismiss (startGenerator p
            {| notes := notifications; dismissTimeouts := ∅;
               intervalRef := None; firstTimeout := None;
               isGenerating := false; mounted := true; timers := ∅;
               nextHandle := 1; now := 0; pendingGenerations := 0;
               dismissLog := [] |})).
  { unfold startGenerator. destruct (autoGenerate p); simpl.
    - split; [reflexivity|]. simpl. intros h t i Hh.
      repeat (rewrite lookup_insert in Hh; case_decide;
              [injection Hh as <-; discriminate|]).
      rewrite lookup_empty in Hh. discriminate.
    - split; [reflexivity|]. simpl. intros h t i Hh.
      rewrite lookup_empty in Hh. discriminate. }
  destruct notifications as [|n l]; [exact Hs|].
  rewrite sync_unfold.
  destruct (Z.ltb_spec 0 (autoDismissTimeout p)); [lia|].
  destruct Hs as [Hm Ht].
  split; [reflexivity|]. cbn [timers set_notes]. intros h t i.
  rewrite timers_clearAll. case_decide; [discriminate|]. apply Ht.
Qed.

(** X9. With an [autoDismissTimeout] that is not positive, auto-dismissal
    is off for good: in every state the component reaches the registry is
    empty and no auto-dismiss timer is pending, so records fade out only
    by a click or by eviction. *)
Theorem no_auto_dismiss_without_timeout p notifications es s :
  autoDismissTimeout p <= 0 ->
  run p (mount p notifications) es = Some s ->
  dismissTimeouts s = ∅ /\
  forall h t i, timers s !! h = Some t -> callback t <> AutoDismiss i.
Proof.
  intros Hoff Hrun.
  assert (Hgen : forall s0, noAutoDismiss s0 -> run p s0 es = Some s ->
                            noAutoDismiss s).
  { clear Hrun. induction es as [|e es IH]; intros s0 H0 Hrun;
      simpl in Hrun.
    - injection Hrun as <-. exact H0.
    - destruct (step p s0 e) as [s1|] eqn:E; [|discriminate].
      eapply IH; [eapply noAutoDismiss_step; eauto | exact Hrun]. }
  exact (Hgen _ (noAutoDismiss_mount p notifications Hoff) Hrun).
Qed.

Lemma no_auto_dismiss_without_timeout_witness :
  exists s,
    run scenarioProps
      (mount scenarioProps [sample "A"; sample "B"; sample "C"])
      [Elapse 900; Fire 2; Fulfil (sampleDraws "D")] = Some s /\
    dismissTimeouts s = ∅.
Proof.
  eexists. split; [vm_compute; reflexivity|].
  refine (proj1 (no_auto_dismiss_without_timeout scenarioProps
                   [sample "A"; sample "B"; sample "C"]
                   [Elapse 900; Fire 2; Fulfil (sampleDraws "D")] _ _ _)).
  - vm_compute. discriminate.
  - vm_compute. reflexivity.
Defined.

Lemma gen_step_off p s e s' :
  autoGenerate p = false ->
  gen s = (false, 0%nat) ->
  step p s e = Some s' -> gen s' = (false, 0%nat).
Proof.
  intros Hoff Hg Hstep. destruct e; simpl in Hstep.
  - injection Hstep as <-. exact Hg.
  - injection Hstep as <-. unfold fire.
    destruct (timers s !! h) as [t|]; [|exact Hg].
    destruct (due t <=? now s); [|exact Hg].
    destruct (callback t) eqn:Ecb;
      try (rewrite gen_runCallback_removal by discriminate; exact Hg);
      simpl; unfold addGeneratedNote_start; rewrite Hoff; exact Hg.
  - unfold addGeneratedNote_resume in Hstep.
    unfold gen in Hg. injection Hg as Hg1 Hg2. rewrite Hg2 in Hstep.
    injection Hstep as <-. unfold gen. now rewrite Hg1, Hg2.
  - injection Hstep as <-. unfold addGeneratedNote_rejected.
    unfold gen in Hg. injection Hg as Hg1 Hg2. rewrite Hg2.
    unfold gen. now rewrite Hg1, Hg2.
  - destruct (mounted s); [|injection Hstep as <-; exact Hg].
    destruct (notes s !! i); injection Hstep as <-; [|exact Hg].
    now rewrite gen_handleManualDismiss.
  - destruct (mounted s); injection Hstep as <-; [|exact Hg].
    now rewrite gen_sync.
  - destruct (mounted s); injection Hstep as <-; [|exact Hg].
    now rewrite gen_unmount.
Qed.

(** X10. With [autoGenerate] off the generator never runs: in every state
    the component reaches no generation is pending, the guard is clear,
    neither the interval nor the first delayed call is pending, and a
    fulfilment that arrives changes nothing; the queue holds only what
    the caller supplied. *)
Theorem generator_off_never_generates p notifications es s :
  autoGenerate p = false ->
  run p (mount p notifications) es = Some s ->
  pendingGenerations s = 0%nat /\
  isGenerating s = false /\
  (forall h t, timers s !! h = Some t -> isTick (callback t) = false) /\
  (forall d, step p s (Fulfil d) = Some s).
Proof.
  intros Hoff Hrun.
  assert (Hg : gen s = (false, 0%nat)).
  { assert (Hgen : forall s0, gen s0 = (false, 0%nat) ->
                              run p s0 es = Some s -> gen s = (false, 0%nat)).
    { clear Hrun. induction es as [|e es IH]; intros s0 H0 Hrun;
        simpl in Hrun.
      - injection Hrun as <-. exact H0.
      - destruct (step p s0 e) as [s1|] eqn:E; [|discriminate].
        eapply IH; [eapply gen_step_off; eauto | exact Hrun]. }
    apply (Hgen (mount p notifications)); [|exact Hrun].
    unfold mount. rewrite gen_sync.
    match goal with |- gen (startGenerator p ?s0) = _ =>
      rewrite (gen_of_core _ _ (core_startGenerator p s0))
    end. reflexivity. }
  unfold gen in Hg. injection Hg as Hg1 Hg2.
  split; [exact Hg2|]. split; [exact Hg1|].
  split.
  - intros h t Hh.
    pose proof (tidyInv_reachable _ _ _ _ Hrun) as H. open_tidy H.
    destruct (callback t) eqn:Ecb; try reflexivity.
    + destruct (Hfi _ _ Hh Ecb). congruence.
    + destruct (Hiv _ _ Hh Ecb). congruence.
  - intros d. simpl. unfold addGeneratedNote_resume. now rewrite Hg2.
Qed.

Lemma generator_off_never_generates_witness :
  exists s,
    run manualProps (mount manualProps [sample "X"])
      [Elapse 3000; Fire 1; Fulfil (sampleDraws "B")] = Some s /\
    pendingGenerations s = 0%nat.
Proof.
  eexists. split; [vm_compute; reflexivity|].
  refine (proj1 (generator_off_never_generates manualProps [sample "X"]
                   [Elapse 3000; Fire 1; Fulfil (sampleDraws "B")] _ _ _)).
  - reflexivity.
  - vm_compute. reflexivity.
Defined.

(** ** The generated insertion *)

(** X11. When a generation fulfils while the component is mounted, the
    insertion raises ([oldest] is [undefined]) exactly when
    [maxNotifications] is not positive and no record is left that is not
    fading out; in every other case the event has a successor state. *)
Theorem generated_insertion_raises_exactly_when p s d :
  mounted s = true ->
  pendingGenerations s <> 0%nat ->
  (step p s (Fulfil d) = None <->
   maxNotifications p <= 0 /\ nonFading (notes s) = []).
Proof.
  intros Hmt Hp. simpl. unfold addGeneratedNote_resume.
  destruct (pendingGenerations s) as [|k]; [congruence|]. rewrite Hmt.
  apply (insertGenerated_raises p _ (set_generating false k s)).
Qed.

Lemma generated_insertion_raises_exactly_when_witness :
  exists p s,
    mounted s = true /\ pendingGenerations s <> 0%nat /\
    step p s (Fulfil (sampleDraws "A")) = None.
Proof.
  pose (p := {| maxNotifications := 0; autoInterval := 3500;
                autoGenerate := true; customMessages := None;
                animationDuration := 800; onNotificationDismiss := true;
                autoDismissTimeout := 3000; fixedUser := None |}).
  assert (Hrun : exists s, run p (mount p []) [Elapse 900; Fire 2] = Some s /\
                           mounted s = true /\ pendingGenerations s <> 0%nat /\
                           nonFading (notes s) = []).
  { eexists. split; [vm_compute; reflexivity|].
    split; [vm_compute; reflexivity|].
    split; [vm_compute; discriminate | vm_compute; reflexivity]. }
  destruct Hrun as (s & _ & Hm & Hp & Hnf).
  exists p, s. split; [exact Hm|]. split; [exact Hp|].
  apply (generated_insertion_raises_exactly_when p s (sampleDraws "A") Hm Hp).
  split; [vm_compute; discriminate | exact Hnf].
Defined.

Lemma generated_not_fading custom fixed d :
  isFading (generateNotification custom fixed d) = false.
Proof. reflexivity. Qed.

(** X12. Below the capacity a generated insertion evicts nothing: the new
    record is appended at the tail, every other record is as it was, the
    count of records that are not fading out grows by exactly one, nothing
    is reported, and the only timer that may be added is the auto-dismiss
    timer of the new record. *)
Theorem insertion_below_capacity p s d :
  mounted s = true ->
  pendingGenerations s <> 0%nat ->
  Z.of_nat (activeCount s) < maxNotifications p ->
  exists s',
    step p s (Fulfil d) = Some s' /\
    notes s' =
      (notes s ++ [generateNotification (customMessages p) (fixedUser p) d])%list /\
    activeCount s' = S (activeCount s) /\
    dismissLog s' = dismissLog s /\
    isGenerating s' = false /\
    (forall h t, timers s' !! h = Some t ->
                 timers s !! h = Some t \/
                 (h = nextHandle s /\
                  t = {| due := now s + autoDismissTimeout p;
                         callback := AutoDismiss (uuid d) |} /\
                  0 < autoDismissTimeout p)).
Proof.
  intros Hmt Hp Hlt. unfold activeCount in *.
  simpl. unfold addGeneratedNote_resume.
  destruct (pendingGenerations s) as [|k]; [congruence|]. rewrite Hmt.
  unfold insertGenerated. cbn [notes set_generating].
  apply Z.leb_gt in Hlt. rewrite Hlt.
  eexists. split; [reflexivity|].
  cbn [notes set_notes]. split; [reflexivity|].
  split.
  { rewrite nonFading_app, length_app, generated_not_fading. simpl. lia. }
  unfold scheduleAutoDismiss.
  destruct (Z.ltb_spec 0 (autoDismissTimeout p)) as [Hpos|Hoff]; simpl.
  - split; [reflexivity|]. split; [reflexivity|].
    intros h t. rewrite lookup_insert. case_decide as E.
    + intros [= <-]. right. subst h. rewrite Z.max_r by lia. auto.
    + auto.
  - split; [reflexivity|]. split; [reflexivity|]. auto.
Qed.

Lemma insertion_below_capacity_witness :
  exists s s',
    run defaultProps (mount defaultProps [sample "A"]) [Elapse 900; Fire 2]
    = Some s /\
    step defaultProps s (Fulfil (sampleDraws "B")) = Some s' /\
    activeCount s' = S (activeCount s).
Proof.
  assert (Hrun : exists s,
             run defaultProps (mount defaultProps [sample "A"])
               [Elapse 900; Fire 2] = Some s /\
             mounted s = true /\ pendingGenerations s <> 0%nat /\
             Z.of_nat (activeCount s) < maxNotifications defaultProps).
  { eexists. split; [vm_compute; reflexivity|].
    split; [vm_compute; reflexivity|].
    split; [vm_compute; discriminate | vm_compute; reflexivity]. }
  destruct Hrun as (s & Hrun & Hm & Hp & Hlt).
  destruct (insertion_below_capacity defaultProps s (sampleDraws "B") Hm Hp Hlt)
    as (s' & Hstep & _ & Hcount & _).
  exists s, s'. auto.
Defined.

(** ** The message pool *)

Lemma floorRandom_lt r n : (0 < n)%nat -> (floorRandom r n < n)%nat.
Proof.
  intros Hn. unfold floorRandom. destruct n; [lia|].
  apply Nat.mod_upper_bound. lia.
Qed.

Lemma floorRandom_hits k n : (k < n)%nat -> floorRandom k n = k.
Proof.
  intros Hk. unfold floorRandom. destruct n; [lia|].
  now apply Nat.mod_small.
Qed.

(** X13. [getRandomMessage] draws from the custom messages when the caller
    gave any list, from the default messages otherwise: with a pool that
    is not empty the result is always a message of the pool, and every
    message of the pool is the result of some draw.  An empty custom list
    is not replaced by the defaults: the message is then [undefined]. *)
Theorem getRandomMessage_draws_from_the_pool custom r :
  let pool := default defaultMessages custom in
  (pool <> [] ->
   exists m, getRandomMessage custom r = Some m /\ In m pool) /\
  (forall m, In m pool -> exists r', getRandomMessage custom r' = Some m) /\
  (custom = Some [] -> getRandomMessage custom r = None) /\
  (custom = None ->
   exists m, getRandomMessage custom r = Some m /\ In m defaultMessages).
Proof.
  intros pool.
  assert (Hpool : pool <> [] ->
                  exists m, getRandomMessage custom r = Some m /\ In m pool).
  { intros Hne. unfold getRandomMessage. fold pool.
    assert (Hlt : (floorRandom r (length pool) < length pool)%nat).
    { apply floorRandom_lt. destruct pool; [congruence|simpl; lia]. }
    destruct (lookup_lt_is_Some_2 pool _ Hlt) as [m Hm].
    exists m. split; [exact Hm|].
    apply list_elem_of_In. eapply list_elem_of_lookup_2. exact Hm. }
  split; [exact Hpool|]. split; [|split].
  - intros m Hin. apply list_elem_of_In, list_elem_of_lookup in Hin as [k Hk].
    exists k. unfold getRandomMessage. fold pool.
    rewrite floorRandom_hits; [exact Hk|].
    eapply lookup_lt_Some. exact Hk.
  - intros ->. reflexivity.
  - intros ->. apply Hpool. discriminate.
Qed.

Lemma getRandomMessage_draws_from_the_pool_witness :
  exists m, getRandomMessage None 7 = Some m /\ In m defaultMessages.
Proof.
  apply (getRandomMessage_draws_from_the_pool None 7). reflexivity.
Defined.

(** ** The popover *)

Lemma last_snoc_default (l : list bool) (b d : bool) :
  List.last (l ++ [b])%list d = b.
Proof. apply List.last_last. Qed.

Lemma popover_step_tracks (p : Popover.Props) (s : Popover.State)
    (e : Popover.Event) (d : bool) :
  Popover.open p = None -> Popover.onOpenChange p = true ->
  Popover.isOpen p s = List.last (Popover.reported s) d ->
  Popover.isOpen p (Popover.step p s e)
  = List.last (Popover.reported (Popover.step p s e)) d.
Proof.
  intros Ho Hc Hs.
  unfold Popover.isOpen in *. rewrite Ho in *.
  destruct e; unfold Popover.step, Popover.setOpen, Popover.isControlled,
    Popover.isOpen; rewrite ?Ho, ?Hc; simpl;
    repeat case_match; simpl; rewrite ?last_snoc_default; auto.
Qed.

(** X14. Popover, uncontrolled and with [onOpenChange]: after any clicks
    on the trigger, the backdrop and the close button and any mousedown
    in the document, the open state is the value reported last to
    [onOpenChange], and [defaultOpen] while nothing has been reported. *)
Theorem popover_state_is_last_report (p : Popover.Props)
    (es : list Popover.Event) :
  Popover.open p = None -> Popover.onOpenChange p = true ->
  Popover.isOpen p (Popover.run p (Popover.mount p) es)
  = List.last (Popover.reported (Popover.run p (Popover.mount p) es))
      (Popover.defaultOpen p).
Proof.
  intros Ho Hc.
  assert (H0 : Popover.isOpen p (Popover.mount p)
               = List.last (Popover.reported (Popover.mount p))
                   (Popover.defaultOpen p)).
  { unfold Popover.isOpen. rewrite Ho. reflexivity. }
  revert H0. generalize (Popover.mount p) as s.
  induction es as [|e es IH]; intros s Hs; [exact Hs|].
  apply IH. apply popover_step_tracks; assumption.
Qed.

Lemma popover_state_is_last_report_witness :
  Popover.isOpen popoverProps
    (Popover.run popoverProps (Popover.mount popoverProps)
       [Popover.TriggerClick; Popover.MouseDown true;
        Popover.MouseDown false; Popover.CloseClick])
  = false.
Proof.
  rewrite (popover_state_is_last_report popoverProps
             [Popover.TriggerClick; Popover.MouseDown true;
              Popover.MouseDown false; Popover.CloseClick]);
    reflexivity.
Defined.

Lemma popover_step_controlled (p : Popover.Props) (b : bool)
    (s : Popover.State) (e : Popover.Event) :
  Popover.open p = Some b ->
  Popover.uncontrolledOpen (Popover.step p s e) = Popover.uncontrolledOpen s
  /\ (Forall (fun r => r = false \/ r = negb b) (Popover.reported s) ->
      Forall (fun r => r = false \/ r = negb b)
        (Popover.reported (Popover.step p s e)))
  /\ (Popover.onOpenChange p = false ->
      Popover.reported (Popover.step p s e) = Popover.reported s).
Proof.
  intros Ho.
  destruct e; unfold Popover.step, Popover.setOpen, Popover.isControlled,
    Popover.isOpen; rewrite ?Ho; simpl;
    repeat case_match; simpl; repeat split; auto; try congruence;
    intros HF; apply Forall_app; split; auto; constructor; auto.
Qed.

(** X15. Popover, controlled ([open] given): no interaction writes the
    component's own state, the popover shows the prop, and what is
    reported to [onOpenChange] is only ever a request to close or the
    negation of the prop (from the trigger); without [onOpenChange]
    nothing is reported. *)
Theorem popover_controlled_only_requests (p : Popover.Props) (b : bool)
    (es : list Popover.Event) :
  Popover.open p = Some b ->
  Popover.uncontrolledOpen (Popover.run p (Popover.mount p) es)
  = Popover.defaultOpen p
  /\ Popover.isOpen p (Popover.run p (Popover.mount p) es) = b
  /\ Forall (fun r => r = false \/ r = negb b)
       (Popover.reported (Popover.run p (Popover.mount p) es))
  /\ (Popover.onOpenChange p = false ->
      Popover.reported (Popover.run p (Popover.mount p) es) = []).
Proof.
  intros Ho.
  assert (H0 : Popover.uncontrolledOpen (Popover.mount p)
               = Popover.defaultOpen p
               /\ Forall (fun r => r = false \/ r = negb b)
                    (Popover.reported (Popover.mount p))
               /\ (Popover.onOpenChange p = false ->
                   Popover.reported (Popover.mount p) = [])).
  { repeat split. constructor. }
  revert H0. generalize (Popover.mount p) as s.
  induction es as [|e es IH]; intros s (Hu & HF & Hr).
  - simpl. unfold Popover.isOpen. rewrite Ho. auto.
  - simpl.
    destruct (popover_step_controlled p b s e Ho) as (Hu' & HF' & Hr').
    apply IH. repeat split.
    + congruence.
    + auto.
    + intros Hc. rewrite Hr'; auto.
Qed.

Lemma popover_controlled_only_requests_witness :
  Popover.reported
    (Popover.run
       {| Popover.defaultOpen := false; Popover.open := Some true;
          Popover.onOpenChange := true;
          Popover.closeOnOutsideClick := true |}
       (Popover.mount
          {| Popover.defaultOpen := false; Popover.open := Some true;
             Popover.onOpenChange := true;
             Popover.closeOnOutsideClick := true |})
       [Popover.TriggerClick; Popover.MouseDown false])
  = [false; false]
  /\ Popover.isOpen
       {| Popover.defaultOpen := false; Popover.open := Some true;
          Popover.onOpenChange := true;
          Popover.closeOnOutsideClick := true |}
       (Popover.run
          {| Popover.defaultOpen := false; Popover.open := Some true;
             Popover.onOpenChange := true;
             Popover.closeOnOutsideClick := true |}
          (Popover.mount
             {| Popover.defaultOpen := false; Popover.open := Some true;
                Popover.onOpenChange := true;
                Popover.closeOnOutsideClick := true |})
          [Popover.TriggerClick; Popover.MouseDown false])
     = true.
Proof.
  split; [reflexivity|].
  apply (popover_controlled_only_requests
           {| Popover.defaultOpen := false; Popover.open := Some true;
              Popover.onOpenChange := true;
              Popover.closeOnOutsideClick := true |} true
           [Popover.TriggerClick; Popover.MouseDown false]).
  reflexivity.
Defined.

(** ** The dropdown menu *)

Lemma alternating_snoc (l : list bool) (a b : bool) :
  alternating l = true -> last l = Some a -> a <> b ->
  alternating (l ++ [b])%list = true.
Proof.
  induction l as [|x [|y l] IH]; intros Ha Hl Hab.
  - discriminate.
  - simpl in *. injection Hl as ->. destruct a, b; auto; congruence.
  - change (alternating (x :: y :: l)) with
      (negb (Bool.eqb x y) && alternating (y :: l)) in Ha.
    apply andb_prop in Ha as [Hxy Ha].
    change ((x :: y :: l) ++ [b])%list with (x :: ((y :: l) ++ [b]))%list.
    change (alternating (x :: ((y :: l) ++ [b]))%list) with
      (negb (Bool.eqb x y) && alternating ((y :: l) ++ [b])%list).
    rewrite Hxy. simpl andb. apply IH; auto.
Qed.

Lemma log_head_snoc (l : list bool) (a b : bool) :
  head l = Some a -> head (l ++ [b])%list = Some a.
Proof. destruct l; simpl; auto; discriminate. Qed.

Ltac dropdown_ops :=
  unfold Dropdown.step, Dropdown.interact, Dropdown.setOpen,
    Dropdown.clearPending, Dropdown.schedule, Dropdown.report,
    Dropdown.set_uncontrolledOpen, Dropdown.set_timers, Dropdown.apply,
    Dropdown.isOpen.

(** What an uncontrolled menu with a callback keeps true of its log; the
    flag [b] tells whether the events keep the handler's identity. *)
Lemma dropdown_step_log (p : Dropdown.Props) (s : Dropdown.State)
    (e : Dropdown.Event) (d b : bool) :
  Dropdown.open p = None -> Dropdown.onOpenChange p = true ->
  (b = true -> sameHandler e = true) ->
  head (Dropdown.reported s) = Some d
  /\ last (Dropdown.reported s) = Some (Dropdown.uncontrolledOpen s)
  /\ (b = true -> alternating (Dropdown.reported s) = true) ->
  head (Dropdown.reported (Dropdown.step p s e)) = Some d
  /\ last (Dropdown.reported (Dropdown.step p s e))
     = Some (Dropdown.uncontrolledOpen (Dropdown.step p s e))
  /\ (b = true -> alternating (Dropdown.reported (Dropdown.step p s e)) = true).
Proof.
  intros Ho Hc Hsame (Hh & Hl & Ha).
  assert (Hset : forall v tr tm nh,
    let s0 := {| Dropdown.uncontrolledOpen := Dropdown.uncontrolledOpen s;
                 Dropdown.timeoutRef := tr; Dropdown.timers := tm;
                 Dropdown.nextHandle := nh; Dropdown.now := Dropdown.now s;
                 Dropdown.mounted := Dropdown.mounted s;
                 Dropdown.reported := Dropdown.reported s |} in
    head (Dropdown.reported (Dropdown.setOpen p (Dropdown.Value v) s0))
    = Some d
    /\ last (Dropdown.reported (Dropdown.setOpen p (Dropdown.Value v) s0))
       = Some (Dropdown.uncontrolledOpen
                 (Dropdown.setOpen p (Dropdown.Value v) s0))
    /\ (b = true ->
        alternating
          (Dropdown.reported (Dropdown.setOpen p (Dropdown.Value v) s0))
        = true)).
  { intros v tr tm nh. unfold Dropdown.setOpen. rewrite Ho, Hc. simpl.
    destruct (Dropdown.mounted s); simpl; auto.
    destruct (Bool.eqb v (Dropdown.uncontrolledOpen s)) eqn:E; simpl; auto.
    - apply Bool.eqb_prop in E. subst v. auto.
    - repeat split.
      + apply log_head_snoc; auto.
      + apply last_snoc.
      + intros Hb. eapply alternating_snoc; [exact (Ha Hb) | exact Hl |].
        intros Heq. subst v. rewrite Bool.eqb_reflx in E. discriminate. }
  destruct s as [u tr tm nh nw mt rp]; simpl in *.
  destruct e; simpl; auto.
  - (* Fire *)
    destruct (tm !! h) as [t|]; simpl; auto.
    destruct (Dropdown.due t <=? nw); simpl; auto;
      try apply (Hset (Dropdown.opens t) tr (delete h tm) nh).
  - (* TriggerClick *)
    destruct mt; simpl; auto.
    destruct (Dropdown.hoverMode p); simpl.
    + unfold Dropdown.clearPending; simpl.
      destruct tr as [h|]; simpl; [destruct (negb (h =? 0)%nat); simpl|];
        first [apply (Hset true (Some h) (delete h tm) nh)
              | apply (Hset true (Some h) tm nh)
              | apply (Hset true None tm nh)].
    + unfold Dropdown.setOpen. rewrite Ho, Hc. simpl.
      destruct u; simpl; repeat split;
        first [apply log_head_snoc; auto | apply last_snoc
              | intros Hb; eapply alternating_snoc;
                [exact (Ha Hb) | exact Hl | discriminate]].
  - (* TriggerEnter *)
    destruct mt; simpl; auto.
    destruct (Dropdown.hoverMode p); simpl; auto.
    unfold Dropdown.clearPending; simpl.
    destruct tr as [h|]; simpl; [destruct (negb (h =? 0)%nat); simpl|]; auto.
  - (* ContentEnter *)
    destruct mt; simpl; auto.
    destruct (Dropdown.contentOnMouseEnter p); simpl; auto.
    destruct (Dropdown.hoverMode p); simpl; auto.
    unfold Dropdown.clearPending; simpl.
    destruct tr as [h|]; simpl; [destruct (negb (h =? 0)%nat); simpl|]; auto.
  - (* ContentLeave *)
    destruct mt; simpl; auto.
    destruct (Dropdown.contentOnMouseLeave p); simpl; auto.
    destruct (Dropdown.hoverMode p); simpl; auto.
  - (* ItemClick *)
    destruct mt; simpl; auto.
    destruct ownOnClick; simpl; auto.
    destruct disabled; simpl; auto;
      try apply (Hset false tr tm nh).
  - (* MouseDown *)
    destruct mt; simpl; auto.
    unfold Dropdown.isOpen. rewrite Ho. simpl.
    destruct u; simpl; auto.
    destruct target; simpl; auto;
      try apply (Hset false tr tm nh).
  - (* Rerender *)
    unfold Dropdown.isControlled. rewrite Ho, Hc.
    destruct mt; simpl; auto.
    repeat split.
    + apply log_head_snoc; auto.
    + apply last_snoc.
    + intros Hb. specialize (Hsame Hb). discriminate.
  - (* Unmount *)
    destruct mt; simpl; auto.
    unfold Dropdown.clearPending; simpl.
    destruct tr as [h|]; simpl; [destruct (negb (h =? 0)%nat); simpl|]; auto.
Qed.

Lemma dropdown_run_log (p : Dropdown.Props) (d b : bool)
    (es : list Dropdown.Event) : forall s,
  Dropdown.open p = None -> Dropdown.onOpenChange p = true ->
  (b = true -> Forall (fun e => sameHandler e = true) es) ->
  head (Dropdown.reported s) = Some d
  /\ last (Dropdown.reported s) = Some (Dropdown.uncontrolledOpen s)
  /\ (b = true -> alternating (Dropdown.reported s) = true) ->
  head (Dropdown.reported (Dropdown.run p s es)) = Some d
  /\ last (Dropdown.reported (Dropdown.run p s es))
     = Some (Dropdown.uncontrolledOpen (Dropdown.run p s es))
  /\ (b = true -> alternating (Dropdown.reported (Dropdown.run p s es)) = true).
Proof.
  induction es as [|e es IH]; intros s Ho Hc Hes Hs; [exact Hs|].
  simpl. apply IH; auto.
  - intros Hb. specialize (Hes Hb). now inversion Hes.
  - apply dropdown_step_log; auto.
    intros Hb. specialize (Hes Hb). now inversion Hes.
Qed.

(** X16. Dropdown menu, uncontrolled and with [onOpenChange]: along every
    sequence of events from the first render (pointer events, clicks,
    hover timers, renders with a new handler, unmount) the callback's log
    starts with [defaultOpen] and ends with the current open state.  A
    render in which the parent passes a new function as [onOpenChange]
    makes the notifying effect run again, and the current state is
    reported once more.  When no such render occurs, the log never holds
    the same value twice in a row: the parent is told once at mount and
    then exactly of the changes. *)
Theorem dropdown_reports_each_change (p : Dropdown.Props)
    (es : list Dropdown.Event) :
  Dropdown.open p = None -> Dropdown.onOpenChange p = true ->
  head (Dropdown.reported (Dropdown.run p (Dropdown.mount p) es))
  = Some (Dropdown.defaultOpen p)
  /\ last (Dropdown.reported (Dropdown.run p (Dropdown.mount p) es))
     = Some (Dropdown.isOpen p (Dropdown.run p (Dropdown.mount p) es))
  /\ (Dropdown.mounted (Dropdown.run p (Dropdown.mount p) es) = true ->
      Dropdown.reported
        (Dropdown.step p (Dropdown.run p (Dropdown.mount p) es)
           Dropdown.Rerender)
      = (Dropdown.reported (Dropdown.run p (Dropdown.mount p) es)
         ++ [Dropdown.isOpen p (Dropdown.run p (Dropdown.mount p) es)])%list)
  /\ (Forall (fun e => sameHandler e = true) es ->
      alternating (Dropdown.reported (Dropdown.run p (Dropdown.mount p) es))
      = true).
Proof.
  intros Ho Hc.
  assert (H0 : forall b : bool,
             head (Dropdown.reported (Dropdown.mount p))
             = Some (Dropdown.defaultOpen p)
             /\ last (Dropdown.reported (Dropdown.mount p))
                = Some (Dropdown.uncontrolledOpen (Dropdown.mount p))
             /\ (b = true ->
                 alternating (Dropdown.reported (Dropdown.mount p)) = true)).
  { intros b. unfold Dropdown.mount, Dropdown.isControlled.
    rewrite Ho, Hc. simpl. auto. }
  destruct (dropdown_run_log p (Dropdown.defaultOpen p) false es
              (Dropdown.mount p) Ho Hc) as (Hh & Hl & _);
    [discriminate | apply H0 |].
  unfold Dropdown.isOpen. rewrite Ho.
  split; [exact Hh|]. split; [exact Hl|]. split.
  - intros Hm. unfold Dropdown.step, Dropdown.isControlled.
    rewrite Hm, Ho, Hc. reflexivity.
  - intros Hes.
    destruct (dropdown_run_log p (Dropdown.defaultOpen p) true es
                (Dropdown.mount p) Ho Hc) as (_ & _ & Ha);
      [intros _; exact Hes | apply H0 |].
    now apply Ha.
Qed.

Lemma dropdown_reports_each_change_witness :
  Dropdown.reported
    (Dropdown.run hoverProps (Dropdown.mount hoverProps)
       [Dropdown.TriggerEnter; Dropdown.Elapse 150; Dropdown.Fire 1;
        Dropdown.TriggerClick; Dropdown.ItemClick false false;
        Dropdown.ItemClick false false])
  = [false; true; false]
  /\ alternating
       (Dropdown.reported
          (Dropdown.run hoverProps (Dropdown.mount hoverProps)
             [Dropdown.TriggerEnter; Dropdown.Elapse 150; Dropdown.Fire 1;
              Dropdown.TriggerClick; Dropdown.ItemClick false false;
              Dropdown.ItemClick false false]))
     = true
  /\ Dropdown.reported
       (Dropdown.run hoverProps (Dropdown.mount hoverProps)
          [Dropdown.TriggerClick; Dropdown.Rerender])
     = [false; true; true].
Proof.
  split; [vm_compute; reflexivity|]. split; [|vm_compute; reflexivity].
  destruct (dropdown_reports_each_change hoverProps
              [Dropdown.TriggerEnter; Dropdown.Elapse 150; Dropdown.Fire 1;
               Dropdown.TriggerClick; Dropdown.ItemClick false false;
               Dropdown.ItemClick false false]) as (_ & _ & _ & Ha);
    [reflexivity | reflexivity |].
  apply Ha. repeat constructor.
Defined.

Lemma dropdown_setOpen_frame (p : Dropdown.Props) (v : Dropdown.SetStateAction)
    (s : Dropdown.State) :
  Dropdown.timers (Dropdown.setOpen p v s) = Dropdown.timers s
  /\ Dropdown.timeoutRef (Dropdown.setOpen p v s) = Dropdown.timeoutRef s
  /\ Dropdown.nextHandle (Dropdown.setOpen p v s) = Dropdown.nextHandle s
  /\ Dropdown.now (Dropdown.setOpen p v s) = Dropdown.now s
  /\ Dropdown.mounted (Dropdown.setOpen p v s) = Dropdown.mounted s.
Proof.
  unfold Dropdown.setOpen. repeat case_match; simpl; auto.
Qed.

Lemma dropdown_step_no_hover (p : Dropdown.Props) (s : Dropdown.State)
    (e : Dropdown.Event) :
  Dropdown.hoverMode p = false ->
  Dropdown.timers s = ∅ /\ Dropdown.timeoutRef s = None ->
  Dropdown.timers (Dropdown.step p s e) = ∅
  /\ Dropdown.timeoutRef (Dropdown.step p s e) = None.
Proof.
  intros Hh (Ht & Hr).
  destruct e; unfold Dropdown.step, Dropdown.interact; rewrite ?Hh;
    try (rewrite Ht, lookup_empty; auto); simpl; auto.
  - destruct (Dropdown.mounted s); auto.
    destruct (dropdown_setOpen_frame p (Dropdown.Updater negb) s)
      as (-> & -> & _). auto.
  - destruct (Dropdown.mounted s); auto.
  - destruct (Dropdown.mounted s); auto.
    destruct (Dropdown.contentOnMouseEnter p); auto.
  - destruct (Dropdown.mounted s); auto.
    destruct (Dropdown.contentOnMouseLeave p); auto.
  - destruct (Dropdown.mounted s); auto.
    destruct ownOnClick, disabled; auto.
    destruct (dropdown_setOpen_frame p (Dropdown.Value false) s)
      as (-> & -> & _). auto.
  - destruct (Dropdown.mounted s); auto.
    destruct (Dropdown.isOpen p s); auto.
    destruct target; auto.
    destruct (dropdown_setOpen_frame p (Dropdown.Value false) s)
      as (-> & -> & _). auto.
  - repeat case_match; auto.
  - destruct (Dropdown.mounted s); simpl; auto.
    unfold Dropdown.clearPending. rewrite Hr. auto.
Qed.

Lemma dropdown_run_no_hover (p : Dropdown.Props) (es : list Dropdown.Event) :
  Dropdown.hoverMode p = false ->
  Dropdown.timers (Dropdown.run p (Dropdown.mount p) es) = ∅
  /\ Dropdown.timeoutRef (Dropdown.run p (Dropdown.mount p) es) = None.
Proof.
  intros Hh.
  assert (H0 : Dropdown.timers (Dropdown.mount p) = ∅
               /\ Dropdown.timeoutRef (Dropdown.mount p) = None).
  { unfold Dropdown.mount. case_match; simpl; auto. }
  revert H0. generalize (Dropdown.mount p) as s.
  induction es as [|e es IH]; intros s Hs; [exact Hs|].
  simpl. apply IH. apply dropdown_step_no_hover; assumption.
Qed.

(** X17. Dropdown menu without [hoverMode]: no event ever schedules a
    timeout that calls [setOpen].  Along every sequence of events from
    the first render no such timeout is pending and [timeoutRef] stays
    [null]; so the passing of time, the run of a timer and the pointer
    entering or leaving the trigger or the content neither open nor
    close the menu, nor call [onOpenChange]: the menu changes on clicks
    and mousedowns only. *)
Theorem dropdown_timers_only_in_hover_mode (p : Dropdown.Props)
    (es : list Dropdown.Event) :
  Dropdown.hoverMode p = false ->
  Dropdown.timers (Dropdown.run p (Dropdown.mount p) es) = ∅
  /\ Dropdown.timeoutRef (Dropdown.run p (Dropdown.mount p) es) = None
  /\ forall e, pointerOrTime e = true ->
       Dropdown.uncontrolledOpen
         (Dropdown.step p (Dropdown.run p (Dropdown.mount p) es) e)
       = Dropdown.uncontrolledOpen (Dropdown.run p (Dropdown.mount p) es)
       /\ Dropdown.reported
            (Dropdown.step p (Dropdown.run p (Dropdown.mount p) es) e)
          = Dropdown.reported (Dropdown.run p (Dropdown.mount p) es).
Proof.
  intros Hh.
  destruct (dropdown_run_no_hover p es Hh) as (Ht & Hr).
  split; [exact Ht|]. split; [exact Hr|].
  intros e He.
  destruct e; try discriminate He;
    unfold Dropdown.step, Dropdown.interact; rewrite ?Hh.
  - auto.
  - rewrite Ht, lookup_empty. auto.
  - destruct (Dropdown.mounted _); auto.
  - destruct (Dropdown.mounted _); auto.
    destruct (Dropdown.contentOnMouseEnter p); auto.
  - destruct (Dropdown.mounted _); auto.
    destruct (Dropdown.contentOnMouseLeave p); auto.
Qed.

Lemma dropdown_timers_only_in_hover_mode_witness :
  Dropdown.timers
    (Dropdown.run
       {| Dropdown.defaultOpen := false; Dropdown.open := None;
          Dropdown.onOpenChange := true; Dropdown.hoverMode := false;
          Dropdown.contentOnMouseEnter := false;
          Dropdown.contentOnMouseLeave := false |}
       (Dropdown.mount
          {| Dropdown.defaultOpen := false; Dropdown.open := None;
             Dropdown.onOpenChange := true; Dropdown.hoverMode := false;
             Dropdown.contentOnMouseEnter := false;
             Dropdown.contentOnMouseLeave := false |})
       [Dropdown.TriggerEnter; Dropdown.TriggerClick; Dropdown.ContentLeave])
  = ∅.
Proof.
  apply (dropdown_timers_only_in_hover_mode
           {| Dropdown.defaultOpen := false; Dropdown.open := None;
              Dropdown.onOpenChange := true; Dropdown.hoverMode := false;
              Dropdown.contentOnMouseEnter := false;
              Dropdown.contentOnMouseLeave := false |}
           [Dropdown.TriggerEnter; Dropdown.TriggerClick;
            Dropdown.ContentLeave]).
  reflexivity.
Defined.

Lemma dropdown_step_unmounted (p : Dropdown.Props) (s : Dropdown.State)
    (e : Dropdown.Event) :
  Dropdown.open p = None -> Dropdown.mounted s = false ->
  Dropdown.mounted (Dropdown.step p s e) = false
  /\ Dropdown.reported (Dropdown.step p s e) = Dropdown.reported s
  /\ Dropdown.uncontrolledOpen (Dropdown.step p s e)
     = Dropdown.uncontrolledOpen s.
Proof.
  intros Ho Hm.
  destruct e; unfold Dropdown.step; rewrite ?Hm; simpl; auto.
  repeat case_match; auto.
  unfold Dropdown.setOpen. rewrite Ho. simpl. rewrite Hm. simpl. auto.
Qed.

(** X18. Dropdown menu, uncontrolled: once unmounted, nothing that still
    happens (a hover timer that the cleanup did not cancel runs, time
    passes) changes the open state or calls [onOpenChange]. *)
Theorem dropdown_silent_after_unmount (p : Dropdown.Props)
    (s : Dropdown.State) (es : list Dropdown.Event) :
  Dropdown.open p = None -> Dropdown.mounted s = false ->
  Dropdown.reported (Dropdown.run p s es) = Dropdown.reported s
  /\ Dropdown.uncontrolledOpen (Dropdown.run p s es)
     = Dropdown.uncontrolledOpen s.
Proof.
  intros Ho. revert s.
  induction es as [|e es IH]; intros s Hm; [auto|].
  simpl.
  destruct (dropdown_step_unmounted p s e Ho Hm) as (Hm' & Hr & Hu).
  destruct (IH _ Hm') as (A & B). split; congruence.
Qed.

Lemma dropdown_silent_after_unmount_witness :
  exists s,
    s = Dropdown.run hoverProps (Dropdown.mount hoverProps)
          [Dropdown.TriggerEnter; Dropdown.ContentLeave; Dropdown.Unmount]
    /\ (exists t, Dropdown.timers s !! 1%nat = Some t)
    /\ Dropdown.reported
         (Dropdown.run hoverProps s [Dropdown.Elapse 150; Dropdown.Fire 1])
       = Dropdown.reported s.
Proof.
  eexists. split; [reflexivity|]. split.
  - eexists. vm_compute. reflexivity.
  - apply (dropdown_silent_after_unmount hoverProps _
             [Dropdown.Elapse 150; Dropdown.Fire 1]);
      vm_compute; reflexivity.
Defined.

(** X19. Dropdown menu, controlled and with [onOpenChange]: a hover timer
    that is still pending after the unmount (the cleanup cancels only the
    handle in [timeoutRef]) calls [onOpenChange] when it runs, although
    the component is gone. *)
Theorem dropdown_controlled_timer_reports_after_unmount
    (p : Dropdown.Props) (c : bool) (s : Dropdown.State) (h : nat)
    (t : Dropdown.Timer) :
  Dropdown.open p = Some c -> Dropdown.onOpenChange p = true ->
  Dropdown.mounted s = false ->
  Dropdown.timers s !! h = Some t -> Dropdown.due t <= Dropdown.now s ->
  Dropdown.reported (Dropdown.step p s (Dropdown.Fire h))
  = (Dropdown.reported s ++ [Dropdown.opens t])%list
  /\ Dropdown.timers (Dropdown.step p s (Dropdown.Fire h))
     = delete h (Dropdown.timers s).
Proof.
  intros Ho Hc Hm Ht Hd.
  unfold Dropdown.step. rewrite Ht.
  apply Z.leb_le in Hd. rewrite Hd.
  unfold Dropdown.setOpen. rewrite Ho, Hc. simpl. auto.
Qed.

Lemma dropdown_controlled_timer_reports_after_unmount_witness :
  exists s,
    s = Dropdown.run controlledProps (Dropdown.mount controlledProps)
          [Dropdown.ContentLeave; Dropdown.ContentEnter;
           Dropdown.ContentLeave; Dropdown.Unmount; Dropdown.Elapse 200]
    /\ Dropdown.reported s = []
    /\ Dropdown.reported (Dropdown.step controlledProps s (Dropdown.Fire 1))
       = [false].
Proof.
  eexists. split; [reflexivity|]. split; [vm_compute; reflexivity|].
  refine (proj1 (dropdown_controlled_timer_reports_after_unmount
                   controlledProps true _ 1%nat
                   {| Dropdown.due := 200; Dropdown.opens := false |}
                   _ _ _ _ _)).
  - reflexivity.
  - reflexivity.
  - vm_compute. reflexivity.
  - vm_compute. reflexivity.
  - vm_compute. discriminate.
Defined.

(** X20. A click on a [DropdownMenuItem] of a mounted, uncontrolled menu
    closes the menu unless the item is disabled or was given an [onClick]
    of its own, which takes the place of the item's handler; it touches
    no timer, and [onOpenChange] hears of it only when the menu was
    open. *)
Theorem dropdown_item_click (p : Dropdown.Props) (s : Dropdown.State)
    (disabled ownOnClick : bool) :
  Dropdown.open p = None -> Dropdown.mounted s = true ->
  Dropdown.isOpen p (Dropdown.step p s (Dropdown.ItemClick disabled ownOnClick))
  = Dropdown.isOpen p s && (disabled || ownOnClick)
  /\ Dropdown.timers
       (Dropdown.step p s (Dropdown.ItemClick disabled ownOnClick))
     = Dropdown.timers s
  /\ Dropdown.reported
       (Dropdown.step p s (Dropdown.ItemClick disabled ownOnClick))
     = (Dropdown.reported s ++
        if Dropdown.onOpenChange p && Dropdown.isOpen p s
           && negb (disabled || ownOnClick)
        then [false] else [])%list.
Proof.
  intros Ho Hm.
  unfold Dropdown.step, Dropdown.interact, Dropdown.isOpen, Dropdown.setOpen.
  rewrite Ho, Hm.
  destruct ownOnClick, disabled, (Dropdown.onOpenChange p),
    (Dropdown.uncontrolledOpen s) eqn:E; simpl; rewrite ?E;
    rewrite ?app_nil_r; simpl; auto.
Qed.

Lemma dropdown_item_click_witness :
  Dropdown.isOpen hoverProps
    (Dropdown.step hoverProps
       (Dropdown.run hoverProps (Dropdown.mount hoverProps)
          [Dropdown.TriggerClick])
       (Dropdown.ItemClick false true))
  = true.
Proof.
  rewrite (proj1 (dropdown_item_click hoverProps
                    (Dropdown.run hoverProps (Dropdown.mount hoverProps)
                       [Dropdown.TriggerClick])
                    false true eq_refl eq_refl)).
  reflexivity.
Defined.

(** X21. A click on the trigger of a mounted, uncontrolled menu: in hover
    mode it cancels the timer [timeoutRef] points at and leaves the menu
    open, whatever it was; otherwise it toggles the menu and touches no
    timer. *)
Theorem dropdown_trigger_click (p : Dropdown.Props) (s : Dropdown.State) :
  Dropdown.open p = None -> Dropdown.mounted s = true ->
  (forall h, Dropdown.timeoutRef s = Some h -> (1 <= h)%nat) ->
  let s' := Dropdown.step p s Dropdown.TriggerClick in
  if Dropdown.hoverMode p
  then Dropdown.isOpen p s' = true
       /\ (forall h, Dropdown.timeoutRef s = Some h ->
           Dropdown.timers s' = delete h (Dropdown.timers s))
       /\ (Dropdown.timeoutRef s = None ->
           Dropdown.timers s' = Dropdown.timers s)
  else Dropdown.isOpen p s' = negb (Dropdown.isOpen p s)
       /\ Dropdown.timers s' = Dropdown.timers s.
Proof.
  intros Ho Hm Hh s'. subst s'.
  unfold Dropdown.step, Dropdown.interact. rewrite Hm.
  destruct (Dropdown.hoverMode p).
  - destruct (dropdown_setOpen_frame p (Dropdown.Value true)
                (Dropdown.clearPending s)) as (Ht & _).
    rewrite Ht.
    repeat split.
    + unfold Dropdown.isOpen, Dropdown.setOpen. rewrite Ho.
      assert (Hm' : Dropdown.mounted (Dropdown.clearPending s) = true).
      { unfold Dropdown.clearPending. repeat case_match; simpl; auto. }
      rewrite Hm'. simpl. case_match; reflexivity.
    + intros h E. unfold Dropdown.clearPending. rewrite E.
      specialize (Hh h E).
      destruct h; [lia|]. reflexivity.
    + intros E. unfold Dropdown.clearPending. rewrite E. reflexivity.
  - destruct (dropdown_setOpen_frame p (Dropdown.Updater negb) s)
      as (Ht & _).
    split; [|exact Ht].
    unfold Dropdown.isOpen, Dropdown.setOpen. rewrite Ho, Hm. simpl.
    case_match; reflexivity.
Qed.

Lemma dropdown_trigger_click_witness :
  Dropdown.isOpen hoverProps
    (Dropdown.step hoverProps
       (Dropdown.run hoverProps (Dropdown.mount hoverProps)
          [Dropdown.TriggerClick; Dropdown.TriggerEnter])
       Dropdown.TriggerClick)
  = true.
Proof.
  refine (proj1 (dropdown_trigger_click hoverProps
                   (Dropdown.run hoverProps (Dropdown.mount hoverProps)
                      [Dropdown.TriggerClick; Dropdown.TriggerEnter])
                   eq_refl eq_refl _)).
  intros h E. vm_compute in E. injection E as <-. lia.
Defined.

(** ** The sidebar *)

Lemma split_nonempty (sep : ascii) (s : string) : Sidebar.split sep s <> [].
Proof.
  destruct s as [|c s]; simpl; [discriminate|].
  destruct (Ascii.eqb c sep); [discriminate|].
  destruct (Sidebar.split sep s); discriminate.
Qed.

Lemma join_cons (sep : ascii) (a : string) (l : list string) :
  l <> [] ->
  Sidebar.join sep (a :: l) = (a ++ String sep (Sidebar.join sep l))%string.
Proof. destruct l; [congruence|reflexivity]. Qed.

Lemma join_split (sep : ascii) (s : string) :
  Sidebar.join sep (Sidebar.split sep s) = s.
Proof.
  induction s as [|c s IH]; [reflexivity|].
  simpl. destruct (Ascii.eqb c sep) eqn:E.
  - apply Ascii.eqb_eq in E. subst c.
    rewrite join_cons by apply split_nonempty. simpl. now rewrite IH.
  - pose proof (split_nonempty sep s) as Hne.
    destruct (Sidebar.split sep s) as [|seg segs]; [congruence|].
    destruct segs as [|seg' segs].
    + simpl in *. now rewrite IH.
    + rewrite join_cons by discriminate.
      rewrite join_cons in IH by discriminate.
      transitivity
        (String c (seg ++ String sep (Sidebar.join sep (seg' :: segs))));
        [reflexivity | now rewrite IH].
Qed.

Lemma split_no_sep (sep : ascii) (s : string) :
  Forall (fun seg => occurs sep seg = false) (Sidebar.split sep s).
Proof.
  induction s as [|c s IH]; simpl.
  - constructor; [reflexivity|constructor].
  - destruct (Ascii.eqb c sep) eqn:E.
    + constructor; [reflexivity|exact IH].
    + destruct (Sidebar.split sep s) as [|seg segs].
      * constructor; [simpl; now rewrite E|constructor].
      * inversion IH; subst. constructor; [simpl; now rewrite E|assumption].
Qed.

(** X22. [path.split(sep)] as the sidebar uses it: the segments joined
    with the separator give the path back, there is at least one segment,
    and no segment holds the separator. *)
Theorem split_join_round_trip (sep : ascii) (s : string) :
  Sidebar.join sep (Sidebar.split sep s) = s
  /\ Sidebar.split sep s <> []
  /\ Forall (fun seg => occurs sep seg = false) (Sidebar.split sep s).
Proof.
  split; [apply join_split|].
  split; [apply split_nonempty|apply split_no_sep].
Qed.

Lemma filter_nil_all {A : Type} (P : A -> bool) (l : list A) :
  List.filter P l = [] -> Forall (fun x => P x = false) l.
Proof.
  induction l as [|a l IH]; simpl; intros H; [constructor|].
  destruct (P a) eqn:E; [discriminate|]. constructor; auto.
Qed.

Lemma last_filter_Some {A : Type} (P : A -> bool) (l : list A) (x : A) :
  last (List.filter P l) = Some x ->
  P x = true
  /\ exists before after,
       l = (before ++ x :: after)%list
       /\ Forall (fun y => P y = false) after.
Proof.
  induction l as [|a l IH]; simpl; intros H; [discriminate|].
  destruct (P a) eqn:E.
  - rewrite last_cons in H.
    destruct (last (List.filter P l)) as [y|] eqn:El.
    + injection H as ->.
      destruct (IH eq_refl) as (Hx & before & after & -> & Hall).
      split; [exact Hx|]. exists (a :: before), after. auto.
    + injection H as ->. split; [exact E|].
      exists [], l. split; [reflexivity|].
      apply filter_nil_all. now apply last_None.
  - destruct (IH H) as (Hx & before & after & -> & Hall).
    split; [exact Hx|]. exists (a :: before), after. auto.
Qed.

Lemma truthy_false (s : string) : Sidebar.truthy s = false <-> s = "".
Proof. destruct s; simpl; split; congruence. Qed.

(** X23. The item the sidebar provider activates from the URL: the value
    of the search parameter [component] when the URL has one (even the
    empty string); otherwise the last path segment that is not empty,
    which holds no slash and is followed by empty segments only; and
    [null] exactly when every segment of the path is empty. *)
Theorem activeFromUrl_spec (component : option string) (pathname : string) :
  match Sidebar.activeFromUrl component pathname with
  | Some v =>
      component = Some v
      \/ (component = None /\ v <> "" /\ occurs "/" v = false
          /\ exists before after,
               Sidebar.split "/" pathname = (before ++ v :: after)%list
               /\ Forall (fun seg => seg = "") after)
  | None =>
      component = None
      /\ Forall (fun seg => seg = "") (Sidebar.split "/" pathname)
  end.
Proof.
  unfold Sidebar.activeFromUrl.
  destruct component as [v|]; [left; reflexivity|].
  cbv zeta.
  destruct (last (List.filter Sidebar.truthy (Sidebar.split "/" pathname)))
    as [v|] eqn:El.
  - right. apply last_filter_Some in El as (Hv & before & after & Hs & Hall).
    split; [reflexivity|]. split.
    { intros ->. discriminate. }
    split.
    { pose proof (split_no_sep "/" pathname) as Hn. rewrite Hs in Hn.
      apply Forall_app in Hn as [_ Hn]. now inversion Hn. }
    exists before, after. split; [exact Hs|].
    eapply Forall_impl; [exact Hall|]. intros seg. apply truthy_false.
  - split; [reflexivity|].
    apply last_None in El. apply filter_nil_all in El.
    eapply Forall_impl; [exact El|]. intros seg. apply truthy_false.
Qed.

Lemma sidebar_step_toggle (p : Sidebar.ProviderProps) (s : Sidebar.State)
    (e : Sidebar.Event) :
  Sidebar.expanded p = None ->
  Sidebar.isExpanded p (Sidebar.step p s e)
  = match e with
    | Sidebar.TriggerClick false => negb (Sidebar.isExpanded p s)
    | _ => Sidebar.isExpanded p s
    end.
Proof.
  intros He. unfold Sidebar.isExpanded. rewrite He.
  destruct e as [[|]|b]; simpl; auto.
  - unfold Sidebar.triggerClick, Sidebar.setExpanded, Sidebar.isExpanded.
    rewrite He. case_match; reflexivity.
  - unfold Sidebar.buttonClick, Sidebar.activate.
    repeat case_match; reflexivity.
Qed.

(** X24. Sidebar, uncontrolled: after any clicks on triggers and menu
    buttons the sidebar is expanded as at the start when an even number
    of the trigger clicks reached [setExpanded], and the other way round
    when an odd number did; a click on a trigger that was given an
    [onClick] of its own does not count, and menu buttons never change
    it. *)
Theorem sidebar_expanded_parity (p : Sidebar.ProviderProps)
    (s : Sidebar.State) (es : list Sidebar.Event) :
  Sidebar.expanded p = None ->
  Sidebar.isExpanded p (Sidebar.run p s es)
  = if Nat.even (toggles es) then Sidebar.isExpanded p s
    else negb (Sidebar.isExpanded p s).
Proof.
  intros He. revert s.
  induction es as [|e es IH]; intros s; [reflexivity|].
  change (Sidebar.run p s (e :: es))
    with (Sidebar.run p (Sidebar.step p s e) es).
  rewrite IH, sidebar_step_toggle by exact He.
  assert (Ht : toggles (e :: es)
               = match e with
                 | Sidebar.TriggerClick false => S (toggles es)
                 | _ => toggles es
                 end).
  { destruct e as [[|]|b]; reflexivity. }
  rewrite Ht.
  destruct e as [[|]|b]; try reflexivity.
  rewrite Nat.even_succ, <- Nat.negb_even.
  destruct (Nat.even (toggles es)); cbn [negb];
    rewrite ?Bool.negb_involutive; reflexivity.
Qed.

Lemma sidebar_expanded_parity_witness :
  Sidebar.isExpanded sidebarProps
    (Sidebar.run sidebarProps (Sidebar.mount sidebarProps None "/docs/button")
       [Sidebar.TriggerClick false; Sidebar.TriggerClick true;
        Sidebar.ButtonClick docsButton; Sidebar.TriggerClick false;
        Sidebar.TriggerClick false])
  = false.
Proof.
  rewrite (sidebar_expanded_parity sidebarProps
             (Sidebar.mount sidebarProps None "/docs/button")
             [Sidebar.TriggerClick false; Sidebar.TriggerClick true;
              Sidebar.ButtonClick docsButton; Sidebar.TriggerClick false;
              Sidebar.TriggerClick false] eq_refl).
  reflexivity.
Defined.

(** X25. A click on a [SidebarMenuButton] whose [value] is a non-empty
    string, and whose handler is in place (rendered through [asChild], or
    given no [onClick]), makes that value the active item: afterwards a
    button without an [isActive] prop is active exactly when it carries
    that value, and a button with the prop is active as the prop says; the
    expanded state is not touched. *)
Theorem sidebar_button_click_activates (b : Sidebar.ButtonProps)
    (s : Sidebar.State) (v : string) :
  Sidebar.value b = Some v -> v <> "" ->
  Sidebar.asChild b = true \/ Sidebar.onClick b = false ->
  Sidebar.activeMenuItem (Sidebar.buttonClick b s) = Some v
  /\ Sidebar.expandedState (Sidebar.buttonClick b s) = Sidebar.expandedState s
  /\ Sidebar.reported (Sidebar.buttonClick b s) = Sidebar.reported s
  /\ forall b',
       Sidebar.buttonIsActive (Sidebar.buttonClick b s) b' = true
       <-> match Sidebar.isActive b' with
           | Some a => a = true
           | None => Sidebar.value b' = Some v
           end.
Proof.
  intros Hv Hne Hh.
  assert (Ht : Sidebar.truthy v = true).
  { destruct v; [congruence|reflexivity]. }
  assert (E : Sidebar.buttonClick b s
              = {| Sidebar.expandedState := Sidebar.expandedState s;
                   Sidebar.activeMenuItem := Some v;
                   Sidebar.reported := Sidebar.reported s |}).
  { unfold Sidebar.buttonClick, Sidebar.activate. rewrite Hv, Ht.
    destruct Hh as [-> | ->]; [reflexivity|].
    destruct (Sidebar.asChild b); reflexivity. }
  rewrite E. simpl. repeat split; auto.
  - unfold Sidebar.buttonIsActive. simpl.
    destruct (Sidebar.isActive b'); [auto|].
    destruct (Sidebar.value b') as [w|]; [|discriminate].
    intros H. apply String.eqb_eq in H. congruence.
  - unfold Sidebar.buttonIsActive. simpl.
    destruct (Sidebar.isActive b'); [auto|].
    intros ->. apply String.eqb_refl.
Qed.

Lemma sidebar_button_click_activates_witness :
  Sidebar.activeMenuItem
    (Sidebar.buttonClick docsButton
       (Sidebar.mount sidebarProps (Some "card") "/docs/button"))
  = Some "button".
Proof.
  refine (proj1 (sidebar_button_click_activates docsButton
                   (Sidebar.mount sidebarProps (Some "card") "/docs/button")
                   "button" eq_refl _ _)).
  - discriminate.
  - right. reflexivity.
Defined.

(** X26. Clicks whose handler the caller replaced leave the sidebar as it
    is: a [SidebarTrigger] given an [onClick] does not toggle, and a
    [SidebarMenuButton] rendered as its own element and given an
    [onClick] does not activate its value, however many such clicks
    there are. *)
Theorem sidebar_own_handler_replaces (p : Sidebar.ProviderProps)
    (s : Sidebar.State) (es : list Sidebar.Event) :
  Forall (fun e => replaced e = true) es ->
  Sidebar.run p s es = s.
Proof.
  induction 1 as [|e es He _ IH]; [reflexivity|].
  simpl.
  assert (E : Sidebar.step p s e = s).
  { destruct e as [own|b]; simpl in *.
    - unfold Sidebar.triggerClick. now rewrite He.
    - unfold Sidebar.buttonClick.
      apply andb_prop in He as [Ha Ho].
      apply Bool.negb_true_iff in Ha. now rewrite Ha, Ho. }
  now rewrite E.
Qed.

Lemma sidebar_own_handler_replaces_witness :
  Sidebar.run sidebarProps (Sidebar.mount sidebarProps None "/docs/card")
    [Sidebar.TriggerClick true;
     Sidebar.ButtonClick
       {| Sidebar.value := Some "button"; Sidebar.isActive := None;
          Sidebar.asChild := false; Sidebar.onClick := true |}]
  = Sidebar.mount sidebarProps None "/docs/card".
Proof.
  apply (sidebar_own_handler_replaces sidebarProps
           (Sidebar.mount sidebarProps None "/docs/card")
           [Sidebar.TriggerClick true;
            Sidebar.ButtonClick
              {| Sidebar.value := Some "button"; Sidebar.isActive := None;
                 Sidebar.asChild := false; Sidebar.onClick := true |}]).
  repeat constructor.
Defined.
